(** * typescript-estree: the parser entry point ([parser.js])

    A shallow embedding of [generateAST] and [parse] from [parser.js],
    together with the collaborators it calls: project resolution
    ([lib/tsconfig-parser]) and the conversion engine with its node
    correspondence registry ([lib/ast-converter]); then the fixture table
    of the alignment tests ([tests/ast-alignment/fixtures-to-test.ts]) and
    the set-up of the tests of the parser services.

    JavaScript values are an inductive type; the module-level variables of
    [parser.js] live in an explicit [World] that every call threads; thrown
    exceptions are the [Throw] branch of a result type.

    The first part takes what the caller passes as plain data: no function
    or method of the caller is run, and every builder of the conversion
    engine converts every child once.  The part [Open] follows the same
    lines of [parser.js] with the caller's code run and with builders that
    build several nodes; the first part is a case of it. *)

From Stdlib Require Import ZArith String Ascii List Bool Lia DecimalString.
From stdpp Require Import base gmap strings list.

Set Warnings "-register-all".

Local Open Scope string_scope.
Local Open Scope Z_scope.
Local Open Scope list_scope.

(** ** JavaScript values *)

(** The values a caller can pass as [code] or inside [options]: primitives,
    [String] wrapper objects, functions (kept as their source text), arrays
    and plain objects.  A plain object is its list of own data properties,
    the first binding of a name being the live one; the first part takes
    its conversion methods to be the ones inherited from
    [Object.prototype], the part [Open] looks for its own ones first.
    Numbers are the integers. *)
Inductive value : Type :=
| VUndefined
| VNull
| VBool (b : bool)
| VNum (n : Z)
| VStr (s : string)
| VStringObj (s : string)
| VFun (src : string)
| VArr (items : list value)
| VObj (props : list (string * value)).

(** [typeof v] *)
Definition typeof (v : value) : string :=
  match v with
  | VUndefined => "undefined"
  | VNull => "object"
  | VBool _ => "boolean"
  | VNum _ => "number"
  | VStr _ => "string"
  | VStringObj _ => "object"
  | VFun _ => "function"
  | VArr _ => "object"
  | VObj _ => "object"
  end.

(** [v instanceof String] *)
Definition instanceofString (v : value) : bool :=
  match v with VStringObj _ => true | _ => false end.

(** Truthiness, as used by [if (v)], [v && w] and [v ? a : b]. *)
Definition truthy (v : value) : bool :=
  match v with
  | VUndefined | VNull => false
  | VBool b => b
  | VNum n => negb (n =? 0)
  | VStr s => negb (String.eqb s "")
  | VStringObj _ | VFun _ | VArr _ | VObj _ => true
  end.

Definition string_of_Z (n : Z) : string :=
  NilZero.string_of_int (Z.to_int n).

(** [String(v)], the standard string conversion, of a value taken as plain
    data: no method of the value is run ([Open.toString] runs them). *)
Fixpoint toString (v : value) : string :=
  match v with
  | VUndefined => "undefined"
  | VNull => "null"
  | VBool true => "true"
  | VBool false => "false"
  | VNum n => string_of_Z n
  | VStr s => s
  | VStringObj s => s
  | VFun src => src
  | VArr items =>
      (fix join (l : list value) : string :=
         match l with
         | [] => ""
         | x :: rest =>
             let piece :=
               match x with
               | VUndefined | VNull => ""
               | _ => toString x
               end in
             match rest with
             | [] => piece
             | _ :: _ => piece +:+ "," +:+ join rest
             end
         end) items
  | VObj _ => "[object Object]"
  end.

(** Strict equality with [null], [undefined], [false]. *)
Definition isNull (v : value) : bool :=
  match v with VNull => true | _ => false end.
Definition isUndefined (v : value) : bool :=
  match v with VUndefined => true | _ => false end.
Definition isFalse (v : value) : bool :=
  match v with VBool false => true | _ => false end.

(** ** Exceptions *)

Inductive error : Type :=
| TypeError (msg : string)
| ProjectNotFound (path : string)
| ProjectReadFailure (path : string)
| ProjectMalformed (path : string)
| UnsupportedNodeKind (kind : string).

Inductive result (A : Type) : Type :=
| Ok (a : A)
| Throw (e : error).
Arguments Ok {A} a.
Arguments Throw {A} e.

Definition isOk {A} (r : result A) : bool :=
  match r with Ok _ => true | Throw _ => false end.

(** Own data property of a plain object; an absent name reads [undefined]. *)
Fixpoint lookupProp (k : string) (props : list (string * value)) : value :=
  match props with
  | [] => VUndefined
  | (k', v) :: rest => if String.eqb k' k then v else lookupProp k rest
  end.

(** [o.k].  Reading a property of [undefined] or [null] throws; the
    names read by the parser are not inherited by any other value, so they
    read [undefined] there. *)
Definition getProp (o : value) (k : string) : result value :=
  match o with
  | VUndefined => Throw (TypeError ("Cannot read property '" +:+ k +:+ "' of undefined"))
  | VNull => Throw (TypeError ("Cannot read property '" +:+ k +:+ "' of null"))
  | VObj props => Ok (lookupProp k props)
  | _ => Ok VUndefined
  end.

(** ** State and exception monad *)

Definition SE (S A : Type) : Type := S -> result A * S.

Definition ret {S A} (a : A) : SE S A := fun s => (Ok a, s).

Definition bind {S A B} (m : SE S A) (k : A -> SE S B) : SE S B :=
  fun s =>
    match m s with
    | (Ok a, s') => k a s'
    | (Throw e, s') => (Throw e, s')
    end.

Definition throw {S A} (e : error) : SE S A := fun s => (Throw e, s).

Definition gets {S A} (f : S -> A) : SE S A := fun s => (Ok (f s), s).

Definition modify {S} (f : S -> S) : SE S unit := fun s => (Ok tt, f s).

Definition lift {S A} (r : result A) : SE S A := fun s => (r, s).

Declare Scope se_scope.
Delimit Scope se_scope with se.
Notation "x <- c ;; k" := (bind c (fun x => k))
  (at level 100, c at next level, right associativity) : se_scope.
Notation "c ;;; k" := (bind c (fun _ => k))
  (at level 100, right associativity) : se_scope.

(** [when b c]: [if (b) { c }] *)
Definition when {S} (b : bool) (c : SE S unit) : SE S unit :=
  if b then c else ret tt.

(** ** Compiler data: native trees and programs *)

(** A node of the compiler's own tree: its kind tag, its span, whether it is
    a real node (one with a genuine source span and semantic identity) and
    its children in source order.  A source file is the root node of its
    tree.  A node is identified by its position in the tree, the path of
    child indices from the root. *)
Inductive Native : Type :=
| NNode (kind : string) (pos end_ : Z) (real : bool) (children : list Native).

Definition NodeRef : Type := list nat.

Definition nativeKind (n : Native) : string :=
  match n with NNode k _ _ _ _ => k end.
Definition nativeChildren (n : Native) : list Native :=
  match n with NNode _ _ _ _ cs => cs end.

Inductive ScriptTarget : Type := Latest | TargetOf (name : string).
Inductive JsxEmit : Type := Preserve.

Record CompilerOptions : Type := {
  noResolve : bool;
  target : ScriptTarget;
  jsx : option JsxEmit
}.

(** A program: the analysis unit of a set of source files. *)
Record Program : Type := {
  rootNames : list string;
  compilerOptions : CompilerOptions;
  sourceFiles : list (string * Native)
}.

(** The host object handed to [ts.createProgram] (parser.js, lines 164-202). *)
Record CompilerHost : Type := {
  fileExists : string -> bool;
  getCanonicalFileName : string -> string;
  getCurrentDirectory : string;
  getDirectories : list string;
  getDefaultLibFileName : string;
  getNewLine : string;
  host_getSourceFile : string -> Native;
  readFile : string -> option string;
  useCaseSensitiveFileNames : bool;
  writeFile : string -> string -> value
}.

(** What lies at a configuration path. *)
Inductive FsEntry : Type :=
| Missing
| Unreadable
| File (content : string).

(** A parsed project configuration: resolved file list and options. *)
Record ProjectConfig : Type := {
  fileNames : list string;
  configOptions : CompilerOptions
}.

Record Token : Type := {
  tok_type : string;
  tok_value : string;
  tok_range : Z * Z
}.

Record Comment : Type := {
  com_type : string;
  com_value : string;
  com_range : Z * Z
}.

(** ** The conversion context, [extra] *)

(** The function stored in [extra.log]. *)
Inductive logger : Type :=
| ConsoleLog
| LoggerFn (src : string)
| FunctionPrototype.

Module Extra.
(** The fields of the object built by [resetExtra] and those added later by
    [generateAST] ([source], [errorOnUnknownASTType], [code]), absent until
    they are assigned. *)
Record t : Type := Build {
  tokens : option (list Token);
  range : bool;
  loc : bool;
  comment : bool;
  comments : list Comment;
  tolerant : bool;
  errors : list string;
  strict : bool;
  ecmaFeatures_jsx : value;
  useJSXTextNode : bool;
  log : logger;
  project : list string;
  source : option string;
  errorOnUnknownASTType : bool;
  code : option value
}.

Definition set_tokens x (e : t) : t :=
  Build x (range e) (loc e) (comment e) (comments e) (tolerant e) (errors e)
    (strict e) (ecmaFeatures_jsx e) (useJSXTextNode e) (log e) (project e)
    (source e) (errorOnUnknownASTType e) (code e).
Definition set_range x (e : t) : t :=
  Build (tokens e) x (loc e) (comment e) (comments e) (tolerant e)
    (errors e) (strict e) (ecmaFeatures_jsx e) (useJSXTextNode e) (log e)
    (project e) (source e) (errorOnUnknownASTType e) (code e).
Definition set_loc x (e : t) : t :=
  Build (tokens e) (range e) x (comment e) (comments e) (tolerant e)
    (errors e) (strict e) (ecmaFeatures_jsx e) (useJSXTextNode e) (log e)
    (project e) (source e) (errorOnUnknownASTType e) (code e).
Definition set_comment x (e : t) : t :=
  Build (tokens e) (range e) (loc e) x (comments e) (tolerant e) (errors e)
    (strict e) (ecmaFeatures_jsx e) (useJSXTextNode e) (log e) (project e)
    (source e) (errorOnUnknownASTType e) (code e).
Definition set_comments x (e : t) : t :=
  Build (tokens e) (range e) (loc e) (comment e) x (tolerant e) (errors e)
    (strict e) (ecmaFeatures_jsx e) (useJSXTextNode e) (log e) (project e)
    (source e) (errorOnUnknownASTType e) (code e).
Definition set_errors x (e : t) : t :=
  Build (tokens e) (range e) (loc e) (comment e) (comments e) (tolerant e) x
    (strict e) (ecmaFeatures_jsx e) (useJSXTextNode e) (log e) (project e)
    (source e) (errorOnUnknownASTType e) (code e).
Definition set_ecmaFeatures_jsx x (e : t) : t :=
  Build (tokens e) (range e) (loc e) (comment e) (comments e) (tolerant e)
    (errors e) (strict e) x (useJSXTextNode e) (log e) (project e)
    (source e) (errorOnUnknownASTType e) (code e).
Definition set_useJSXTextNode x (e : t) : t :=
  Build (tokens e) (range e) (loc e) (comment e) (comments e) (tolerant e)
    (errors e) (strict e) (ecmaFeatures_jsx e) x (log e) (project e)
    (source e) (errorOnUnknownASTType e) (code e).
Definition set_log x (e : t) : t :=
  Build (tokens e) (range e) (loc e) (comment e) (comments e) (tolerant e)
    (errors e) (strict e) (ecmaFeatures_jsx e) (useJSXTextNode e) x
    (project e) (source e) (errorOnUnknownASTType e) (code e).
Definition set_project x (e : t) : t :=
  Build (tokens e) (range e) (loc e) (comment e) (comments e) (tolerant e)
    (errors e) (strict e) (ecmaFeatures_jsx e) (useJSXTextNode e) (log e) x
    (source e) (errorOnUnknownASTType e) (code e).
Definition set_source x (e : t) : t :=
  Build (tokens e) (range e) (loc e) (comment e) (comments e) (tolerant e)
    (errors e) (strict e) (ecmaFeatures_jsx e) (useJSXTextNode e) (log e)
    (project e) x (errorOnUnknownASTType e) (code e).
Definition set_errorOnUnknownASTType x (e : t) : t :=
  Build (tokens e) (range e) (loc e) (comment e) (comments e) (tolerant e)
    (errors e) (strict e) (ecmaFeatures_jsx e) (useJSXTextNode e) (log e)
    (project e) (source e) x (code e).
Definition set_code x (e : t) : t :=
  Build (tokens e) (range e) (loc e) (comment e) (comments e) (tolerant e)
    (errors e) (strict e) (ecmaFeatures_jsx e) (useJSXTextNode e) (log e)
    (project e) (source e) (errorOnUnknownASTType e) x.
End Extra.

(** ** Observable effects and the module state *)

(** What a call does to the outside: a message handed to a logger, a
    configuration path taken up by project resolution, a program asked for a
    source file. *)
Inductive Event : Type :=
| EvLog (l : logger) (msg : string)
| EvResolve (configPath : string)
| EvGetSourceFile (p : Program) (fileName : value).

(** The state that outlives a call: the module-level variables [extra] and
    [warnedAboutTSVersion] of parser.js, the program cache of project
    resolution (per configuration path, the program and the configuration
    content it was built from, which stands for the content hash), the
    allocator that gives every new generic node its identity, and the effects
    so far (oldest first).  [extra] is unassigned before the first call;
    every read of it follows a [resetExtra]. *)
Record World : Type := {
  extra : Extra.t;
  warnedAboutTSVersion : bool;
  knownPrograms : gmap string (string * Program);
  nextNodeId : nat;
  trace : list Event
}.

Definition set_extra (e : Extra.t) (w : World) : World :=
  {| extra := e; warnedAboutTSVersion := warnedAboutTSVersion w;
     knownPrograms := knownPrograms w; nextNodeId := nextNodeId w;
     trace := trace w |}.
Definition set_warnedAboutTSVersion (b : bool) (w : World) : World :=
  {| extra := extra w; warnedAboutTSVersion := b;
     knownPrograms := knownPrograms w; nextNodeId := nextNodeId w;
     trace := trace w |}.
Definition set_knownPrograms (m : gmap string (string * Program)) (w : World) : World :=
  {| extra := extra w; warnedAboutTSVersion := warnedAboutTSVersion w;
     knownPrograms := m; nextNodeId := nextNodeId w;
     trace := trace w |}.
Definition set_nextNodeId (n : nat) (w : World) : World :=
  {| extra := extra w; warnedAboutTSVersion := warnedAboutTSVersion w;
     knownPrograms := knownPrograms w; nextNodeId := n;
     trace := trace w |}.
Definition emit (ev : Event) (w : World) : World :=
  {| extra := extra w; warnedAboutTSVersion := warnedAboutTSVersion w;
     knownPrograms := knownPrograms w; nextNodeId := nextNodeId w;
     trace := trace w ++ [ev] |}.

Definition M (A : Type) : Type := SE World A.

(** [extra.f = x] *)
Definition assign (f : Extra.t -> Extra.t) : M unit :=
  modify (fun w => set_extra (f (extra w)) w).

(** ** The collaborators outside this repository *)

(** The compiler front end, the file system, the configuration syntax and
    the constants computed when the module is loaded. *)
Record Env : Type := {
  isRunningSupportedTypeScriptVersion : bool;
  SUPPORTED_TYPESCRIPT_VERSIONS : string;
  ACTIVE_TYPESCRIPT_VERSION : string;
  (** [ts.createSourceFile(filename, code, ts.ScriptTarget.Latest, true)] *)
  ts_createSourceFile : string -> value -> Native;
  (** [ts.createProgram(rootNames, options, host)] *)
  ts_createProgram : list string -> CompilerOptions -> CompilerHost -> Program;
  (** the file system at a configuration path *)
  readEntry : string -> FsEntry;
  (** the configuration syntax: parsed configuration or a parse failure *)
  parseConfig : string -> string -> option ProjectConfig;
  (** the front end building the program of a parsed configuration *)
  buildProgram : value -> value -> ProjectConfig -> Program;
  (** the generic node kind built for a known native kind *)
  builders : string -> option string;
  (** the front end's scanner, for the token and comment lists *)
  scanTokens : value -> list Token;
  scanComments : value -> list Comment
}.

(** ** Node correspondence registry *)

(** The two maps of a conversion: generic node identity to native node,
    and back.  In [generateAST]'s result each is [undefined] ([None]) when
    parser services are not provided. *)
Record AstMaps : Type := {
  esTreeNodeToTSNodeMap : option (gmap nat NodeRef);
  tsNodeToESTreeNodeMap : option (gmap NodeRef nat)
}.

Record Registry : Type := {
  genericToNativeMap : gmap nat NodeRef;
  nativeToGenericMap : gmap NodeRef nat
}.

(** Modelled from the spec: the registry of lib/ast-converter as it is
    created for a conversion call, with no entry. *)
Definition emptyRegistry : Registry :=
  {| genericToNativeMap := ∅; nativeToGenericMap := ∅ |}.

(** Modelled from the spec: [registerPair(genericNode, nativeNode)] of the
    registry in lib/ast-converter. *)
Definition registerPair (g : nat) (n : NodeRef) (r : Registry) : Registry :=
  {| genericToNativeMap := <[g := n]> (genericToNativeMap r);
     nativeToGenericMap := <[n := g]> (nativeToGenericMap r) |}.

(** Modelled from the spec: [genericToNative(genericNode)] of the registry in
    lib/ast-converter, a native node or not-found. *)
Definition genericToNative (r : Registry) (g : nat) : option NodeRef :=
  genericToNativeMap r !! g.

(** Modelled from the spec: [nativeToGeneric(nativeNode)] of the registry in
    lib/ast-converter, a generic node or not-found. *)
Definition nativeToGeneric (r : Registry) (n : NodeRef) : option nat :=
  nativeToGenericMap r !! n.

(** ** Generic trees *)

Record Position : Type := { line : nat; column : nat }.
Record SourceLocation : Type := { loc_start : Position; loc_end : Position }.

(** A node of the output tree: its identity (the object allocated for it),
    its kind string, the range and location when collected, the native kind
    name carried by a passthrough node, and its child nodes. *)
Inductive Generic : Type :=
| GNode (id : nat) (type : string) (range : option (Z * Z))
        (loc : option SourceLocation) (kindName : option string)
        (children : list Generic).

Definition genericId (g : Generic) : nat :=
  match g with GNode i _ _ _ _ _ => i end.
Definition genericKindName (g : Generic) : option string :=
  match g with GNode _ _ _ _ k _ => k end.
Definition genericChildren (g : Generic) : list Generic :=
  match g with GNode _ _ _ _ _ cs => cs end.

Record ESTree : Type := {
  es_root : Generic;
  es_tokens : option (list Token);
  es_comments : option (list Comment)
}.

(** The state of one conversion: the allocator and the registry. *)
Record ConvState : Type := {
  cs_next : nat;
  cs_registry : Registry
}.

(** Modelled from the spec: the allocation of a generic node in
    lib/ast-converter; every new node object has an identity of its own. *)
Definition fresh : SE ConvState nat :=
  fun s => (Ok (cs_next s),
            {| cs_next := S (cs_next s); cs_registry := cs_registry s |}).

(** Modelled from the spec: the insertion of a pair into the registry of the
    running conversion, in lib/ast-converter. *)
Definition register (g : nat) (n : NodeRef) : SE ConvState unit :=
  modify (fun s => {| cs_next := cs_next s;
                      cs_registry := registerPair g n (cs_registry s) |}).

(** ** Span translator *)

Definition isLF (c : ascii) : bool := (nat_of_ascii c =? 10)%nat.
Definition isCR (c : ascii) : bool := (nat_of_ascii c =? 13)%nat.

(** Modelled from the spec: [offsetToLineColumn] of the span translator,
    1-based line, 0-based column; LF, CR LF and a lone CR each end a line. *)
Fixpoint scanLineColumn (chars : list ascii) (offset line col : nat) : Position :=
  match offset, chars with
  | O, _ | _, [] => {| line := line; column := col |}
  | S k, c :: rest =>
      if isLF c then scanLineColumn rest k (S line) 0%nat
      else if isCR c then
        match rest with
        | c' :: _ =>
            if isLF c' then scanLineColumn rest k line (S col)
            else scanLineColumn rest k (S line) 0%nat
        | [] => scanLineColumn rest k (S line) 0%nat
        end
      else scanLineColumn rest k line (S col)
  end.

(** Modelled from the spec: [offsetToLineColumn(sourceText, offset)] of the
    span translator in lib/ast-converter. *)
Definition offsetToLineColumn (sourceText : string) (offset : Z) : Position :=
  scanLineColumn (list_ascii_of_string sourceText) (Z.to_nat offset) 1%nat 0%nat.

(** ** Results *)

Record ConvertResult : Type := {
  cr_estree : ESTree;
  cr_astMaps : Registry
}.

(** What [generateAST] returns. *)
Record GenerateResult : Type := {
  estree : ESTree;
  program : option Program;
  astMaps : AstMaps
}.

Record Services : Type := {
  sv_program : option Program;
  sv_esTreeNodeToTSNodeMap : option (gmap nat NodeRef);
  sv_tsNodeToESTreeNodeMap : option (gmap NodeRef nat)
}.

(** What [parse] returns. *)
Record ParseResult : Type := {
  ast : ESTree;
  services : Services
}.

(** [program.getSourceFile(fileName)]: the source file of that name, or
    [undefined]. *)
Fixpoint findSourceFile (name : string) (files : list (string * Native)) : option Native :=
  match files with
  | [] => None
  | (n, sf) :: rest => if String.eqb n name then Some sf else findSourceFile name rest
  end.

Definition getSourceFile (p : Program) (fileName : value) : option Native :=
  match fileName with
  | VStr s | VStringObj s => findSourceFile s (sourceFiles p)
  | _ => None
  end.

Definition newline : string := String (ascii_of_nat 10) EmptyString.

(** [parts.join(sep)] on strings *)
Fixpoint join (sep : string) (parts : list string) : string :=
  match parts with
  | [] => ""
  | [p] => p
  | p :: rest => p +:+ sep +:+ join sep rest
  end.

Section Parser.

Variable env : Env.

Local Open Scope se_scope.

(** ** Conversion engine *)

(** Modelled from the spec: the depth-first walk of lib/ast-converter.  The
    builder is looked up by the native kind; an unknown kind fails fast when
    [errorOnUnknownASTType] is set and otherwise becomes a passthrough node
    carrying the native kind name.  Children are converted in source order,
    then the node is built; a node built from a real native node is
    registered with it.  Range and location are collected only when the
    context asks for them.  Every builder converts every child once
    ([Open.convertNode] has builders that build several nodes). *)
Fixpoint convertNode (ctx : Extra.t) (text : string) (path : NodeRef)
    (n : Native) : SE ConvState Generic :=
  match n with
  | NNode kind pos end_ real children =>
      match builders env kind, Extra.errorOnUnknownASTType ctx with
      | None, true => throw (UnsupportedNodeKind kind)
      | builder, _ =>
          kids <- (fix convertChildren (i : nat) (cs : list Native)
                     : SE ConvState (list Generic) :=
                     match cs with
                     | [] => ret []
                     | c :: cs' =>
                         g <- convertNode ctx text (path ++ [i]) c ;;
                         gs <- convertChildren (S i) cs' ;;
                         ret (g :: gs)
                     end) O children ;;
          id <- fresh ;;
          let range :=
            if Extra.range ctx then Some (pos, end_) else None in
          let loc :=
            if Extra.loc ctx
            then Some {| loc_start := offsetToLineColumn text pos;
                         loc_end := offsetToLineColumn text end_ |}
            else None in
          let node :=
            match builder with
            | Some type => GNode id type range loc None kids
            | None => GNode id kind range loc (Some kind) kids
            end in
          when real (register id path) ;;;
          ret node
      end
  end.

(** Modelled from the spec: the conversion of the children of a node, in
    source order, as [convertNode] of lib/ast-converter does it. *)
Definition convertChildren (ctx : Extra.t) (text : string) (path : NodeRef) :=
  fix convertChildren (i : nat) (cs : list Native)
    : SE ConvState (list Generic) :=
    match cs with
    | [] => ret []
    | c :: cs' =>
        g <- convertNode ctx text (path ++ [i]) c ;;
        gs <- convertChildren (S i) cs' ;;
        ret (g :: gs)
    end.

(** The text behind [extra.code]. *)
Definition sourceText (ctx : Extra.t) : string :=
  match Extra.code ctx with
  | Some v => toString v
  | None => ""
  end.

(** Modelled from the spec: [convert(ast, extra)] of lib/ast-converter, the
    contract [convert(nativeRoot, context) -> (genericRoot, registry)].  The
    registry is created fresh for the call; the token and comment lists are
    attached when the context collects them. *)
Definition convert (ast : option Native) (ctx : Extra.t) : M ConvertResult :=
  match ast with
  | None => throw (TypeError "Cannot read property 'kind' of undefined")
  | Some root =>
      fun w =>
        let '(r, s) :=
          convertNode ctx (sourceText ctx) [] root
            {| cs_next := nextNodeId w; cs_registry := emptyRegistry |} in
        let w' := set_nextNodeId (cs_next s) w in
        match r with
        | Throw e => (Throw e, w')
        | Ok g =>
            let code := default VUndefined (Extra.code ctx) in
            (Ok {| cr_estree :=
                     {| es_root := g;
                        es_tokens :=
                          match Extra.tokens ctx with
                          | Some _ => Some (scanTokens env code)
                          | None => None
                          end;
                        es_comments :=
                          if Extra.comment ctx
                          then Some (scanComments env code) else None |};
                   cr_astMaps := cs_registry s |}, w')
        end
  end.

(** ** Project resolution engine *)

(** Modelled from the spec: the resolution of one configuration path by
    lib/tsconfig-parser.  A missing path, an unreadable entry and a
    malformed content are fatal; a cached program whose configuration
    content is unchanged is reused; otherwise a fresh program replaces the
    cache entry of the path. *)
Definition resolveProject (code options : value) (configPath : string) : M Program :=
  modify (emit (EvResolve configPath)) ;;;
  match readEntry env configPath with
  | Missing => throw (ProjectNotFound configPath)
  | Unreadable => throw (ProjectReadFailure configPath)
  | File content =>
      cache <- gets knownPrograms ;;
      let rebuild : M Program :=
        match parseConfig env configPath content with
        | None => throw (ProjectMalformed configPath)
        | Some config =>
            let p := buildProgram env code options config in
            modify (fun w => set_knownPrograms (<[configPath := (content, p)]> (knownPrograms w)) w) ;;;
            ret p
        end in
      match cache !! configPath with
      | Some (content', p) =>
          if String.eqb content' content then ret p else rebuild
      | None => rebuild
      end
  end.

(** Modelled from the spec: [calculateProjectParserOptions] of
    lib/tsconfig-parser, a sequence of programs evaluated lazily in the order
    of the configuration list: each element is the resolution of one path,
    run when the consumer asks for it. *)
Definition calculateProjectParserOptions (code options : value)
    (project : list string) : list (M Program) :=
  map (resolveProject code options) project.

(** ** parser.js *)

(** [resetExtra] (lines 32-47) *)
Definition defaultExtra : Extra.t :=
  {| Extra.tokens := None;
     Extra.range := false;
     Extra.loc := false;
     Extra.comment := false;
     Extra.comments := [];
     Extra.tolerant := false;
     Extra.errors := [];
     Extra.strict := false;
     Extra.ecmaFeatures_jsx := VUndefined;
     Extra.useJSXTextNode := false;
     Extra.log := ConsoleLog;
     Extra.project := [];
     Extra.source := None;
     Extra.errorOnUnknownASTType := false;
     Extra.code := None |}.

Definition resetExtra : M unit :=
  modify (set_extra defaultExtra).

(** [typeof v === 'boolean' && v] *)
Definition isTrue (v : value) : bool :=
  String.eqb (typeof v) "boolean" && truthy v.

(** [project.every(projectPath => typeof projectPath === 'string')] *)
Definition everyString (items : list value) : bool :=
  forallb (fun projectPath => String.eqb (typeof projectPath) "string") items.

(** The strings of an array whose elements are all strings. *)
Definition stringsOf (items : list value) : list string :=
  omap (fun v => match v with VStr s => Some s | _ => None end) items.

(** Calling the function stored in [extra.log]; [Function.prototype] accepts
    any arguments and does nothing.  A function of the caller is recorded,
    not run ([Open.callLog] runs it). *)
Definition callLog (l : logger) (msg : string) : M unit :=
  match l with
  | FunctionPrototype => ret tt
  | _ => modify (emit (EvLog l msg))
  end.

(** The block reading [options] (lines 68-121). *)
Definition readOptions (options : value) : M unit :=
  when (negb (String.eqb (typeof options) "undefined")) (
    range <- lift (getProp options "range") ;;
    assign (Extra.set_range (isTrue range)) ;;;
    loc <- lift (getProp options "loc") ;;
    assign (Extra.set_loc (isTrue loc)) ;;;
    source <- lift (getProp options "source") ;;
    when (isTrue loc && negb (isNull source) && negb (isUndefined source))
      (assign (Extra.set_source (Some (toString source)))) ;;;
    tokens <- lift (getProp options "tokens") ;;
    when (isTrue tokens) (assign (Extra.set_tokens (Some []))) ;;;
    comment <- lift (getProp options "comment") ;;
    when (isTrue comment)
      (assign (Extra.set_comment true) ;;; assign (Extra.set_comments [])) ;;;
    tolerant <- lift (getProp options "tolerant") ;;
    when (isTrue tolerant) (assign (Extra.set_errors [])) ;;;
    ecmaFeatures <- lift (getProp options "ecmaFeatures") ;;
    when (truthy ecmaFeatures && String.eqb (typeof ecmaFeatures) "object") (
      jsx <- lift (getProp ecmaFeatures "jsx") ;;
      assign (Extra.set_ecmaFeatures_jsx jsx)) ;;;
    errorOnUnknownASTType <- lift (getProp options "errorOnUnknownASTType") ;;
    when (truthy errorOnUnknownASTType)
      (assign (Extra.set_errorOnUnknownASTType true)) ;;;
    useJSXTextNode <- lift (getProp options "useJSXTextNode") ;;
    when (isTrue useJSXTextNode) (assign (Extra.set_useJSXTextNode true)) ;;;
    loggerFn <- lift (getProp options "loggerFn") ;;
    match loggerFn with
    | VFun src => assign (Extra.set_log (LoggerFn src))
    | _ => when (isFalse loggerFn) (assign (Extra.set_log FunctionPrototype))
    end ;;;
    project <- lift (getProp options "project") ;;
    match project with
    | VStr s => assign (Extra.set_project [s])
    | VArr items =>
        when (everyString items) (assign (Extra.set_project (stringsOf items)))
    | _ => ret tt
    end).

(** The version warning, given once per process (lines 123-136). *)
Definition warnAboutTSVersion : M unit :=
  warned <- gets warnedAboutTSVersion ;;
  when (negb (isRunningSupportedTypeScriptVersion env) && negb warned) (
    let border := "=============" in
    let versionWarning :=
      [ border;
        "WARNING: You are currently running a version of TypeScript which is not officially supported by typescript-estree.";
        "You may find that it works just fine, or you may not.";
        "SUPPORTED TYPESCRIPT VERSIONS: " +:+ SUPPORTED_TYPESCRIPT_VERSIONS env;
        "YOUR TYPESCRIPT VERSION: " +:+ ACTIVE_TYPESCRIPT_VERSION env;
        "Please only submit bug reports when using the officially supported version.";
        border ] in
    ex <- gets extra ;;
    callLog (Extra.log ex) (join (newline +:+ newline) versionWarning) ;;;
    modify (set_warnedAboutTSVersion true)).

(** [program.getSourceFile(FILENAME)], as an observable step. *)
Definition askSourceFile (p : Program) (FILENAME : value) : M (option Native) :=
  modify (emit (EvGetSourceFile p FILENAME)) ;;;
  ret (getSourceFile p FILENAME).

(** The [for ... of] loop over the programs (lines 149-156); it returns
    [relevantProgram] and [ast] as the loop leaves them. *)
Fixpoint findRelevantProgram (programs : list (M Program)) (FILENAME : value)
    : M (option Program * option Native) :=
  match programs with
  | [] => ret (None, None)
  | next :: rest =>
      program <- next ;;
      ast <- askSourceFile program FILENAME ;;
      match ast with
      | Some _ => ret (Some program, ast)
      | None => findRelevantProgram rest FILENAME
      end
  end.

(** The isolated single-file program (lines 159-215). *)
Definition isolatedProgram (code : value) (ex : Extra.t)
    : M (option Program * option Native) :=
  let FILENAME :=
    if truthy (Extra.ecmaFeatures_jsx ex) then "estree.tsx" else "estree.ts" in
  let compilerHost :=
    {| fileExists := fun _ => true;
       getCanonicalFileName := fun _ => FILENAME;
       getCurrentDirectory := "";
       getDirectories := [];
       getDefaultLibFileName := "lib.d.ts";
       getNewLine := newline;
       host_getSourceFile := fun filename => ts_createSourceFile env filename code;
       readFile := fun _ => None;
       useCaseSensitiveFileNames := true;
       writeFile := fun _ _ => VNull |} in
  let relevantProgram :=
    ts_createProgram env [FILENAME]
      {| noResolve := true;
         target := Latest;
         jsx := if truthy (Extra.ecmaFeatures_jsx ex) then Some Preserve else None |}
      compilerHost in
  ast <- askSourceFile relevantProgram (VStr FILENAME) ;;
  ret (Some relevantProgram, ast).

(** [generateAST(code, options)] (lines 59-226) *)
Definition generateAST (code options : value) : M GenerateResult :=
  let code :=
    if negb (String.eqb (typeof code) "string") && negb (instanceofString code)
    then VStr (toString code) else code in
  resetExtra ;;;
  readOptions options ;;;
  warnAboutTSVersion ;;;
  ex <- gets extra ;;
  let shouldProvideParserServices := (0 <? length (Extra.project ex))%nat in
  found <- (if shouldProvideParserServices then
              FILENAME <- lift (getProp options "filePath") ;;
              let programs :=
                calculateProjectParserOptions code options (Extra.project ex) in
              findRelevantProgram programs FILENAME
            else ret (None, None)) ;;
  found <- (match snd found with
            | None => isolatedProgram code ex
            | Some _ => ret found
            end) ;;
  let '(relevantProgram, ast) := found in
  assign (Extra.set_code (Some code)) ;;;
  ex <- gets extra ;;
  converted <- convert ast ex ;;
  ret {| estree := cr_estree converted;
         program := if shouldProvideParserServices then relevantProgram else None;
         astMaps :=
           if shouldProvideParserServices
           then {| esTreeNodeToTSNodeMap := Some (genericToNativeMap (cr_astMaps converted));
                   tsNodeToESTreeNodeMap := Some (nativeToGenericMap (cr_astMaps converted)) |}
           else {| esTreeNodeToTSNodeMap := None;
                   tsNodeToESTreeNodeMap := None |} |}.

(** [exports.parse] (lines 234-244) *)
Definition parse (code options : value) : M ParseResult :=
  result <- generateAST code options ;;
  ret {| ast := estree result;
         services :=
           {| sv_program := program result;
              sv_esTreeNodeToTSNodeMap := esTreeNodeToTSNodeMap (astMaps result);
              sv_tsNodeToESTreeNodeMap := tsNodeToESTreeNodeMap (astMaps result) |} |}.

End Parser.

(** ** A small concrete environment *)

(** A stand-in front end and file system on which the definitions can be
    run: one project at [./tsconfig.json] holding [main.ts], one at
    [./lib/tsconfig.json] holding [lib.ts], a malformed configuration at
    [./badTSConfig/tsconfig.json], and the directory [.]. *)
Module Demo.

Definition textLength (code : value) : Z :=
  Z.of_nat (String.length (toString code)).

(** The stand-in parser: a source file holding one statement and the
    end-of-file token (not a real node); a text starting with [@] gives a
    decorator, a kind without a builder. *)
Definition createSourceFile (filename : string) (code : value) : Native :=
  let len := textLength code in
  let statement :=
    match toString code with
    | String "@" _ =>
        NNode "Decorator" 0 len true [NNode "Identifier" 1 len true []]
    | _ =>
        NNode "ExpressionStatement" 0 len true [NNode "Identifier" 0 len true []]
    end in
  NNode "SourceFile" 0 len true
    [statement; NNode "EndOfFileToken" len len false []].

Definition createProgram (names : list string) (opts : CompilerOptions)
    (host : CompilerHost) : Program :=
  {| rootNames := names;
     compilerOptions := opts;
     sourceFiles := map (fun n => (n, host_getSourceFile host n)) names |}.

Definition entries (path : string) : FsEntry :=
  if String.eqb path "./tsconfig.json" then File "{ main }"
  else if String.eqb path "./lib/tsconfig.json" then File "{ lib }"
  else if String.eqb path "./badTSConfig/tsconfig.json" then File "{"
  else if String.eqb path "." then Unreadable
  else Missing.

Definition projectOptions : CompilerOptions :=
  {| noResolve := false; target := Latest; jsx := None |}.

Definition parseConfigFile (path content : string) : option ProjectConfig :=
  if String.eqb content "{ main }"
  then Some {| fileNames := ["main.ts"]; configOptions := projectOptions |}
  else if String.eqb content "{ lib }"
  then Some {| fileNames := ["lib.ts"]; configOptions := projectOptions |}
  else None.

Definition build (code options : value) (config : ProjectConfig) : Program :=
  {| rootNames := fileNames config;
     compilerOptions := configOptions config;
     sourceFiles := map (fun n => (n, createSourceFile n code)) (fileNames config) |}.

Definition builderTable (kind : string) : option string :=
  if String.eqb kind "SourceFile" then Some "Program"
  else if String.eqb kind "ExpressionStatement" then Some "ExpressionStatement"
  else if String.eqb kind "Identifier" then Some "Identifier"
  else if String.eqb kind "EndOfFileToken" then Some "Punctuator"
  else None.

Definition env : Env :=
  {| isRunningSupportedTypeScriptVersion := true;
     SUPPORTED_TYPESCRIPT_VERSIONS := "~3.2.1";
     ACTIVE_TYPESCRIPT_VERSION := "3.2.1";
     ts_createSourceFile := createSourceFile;
     ts_createProgram := createProgram;
     readEntry := entries;
     parseConfig := parseConfigFile;
     buildProgram := build;
     builders := builderTable;
     scanTokens := fun _ => [];
     scanComments := fun _ => [] |}.

(** The state of a freshly loaded module. *)
Definition world0 : World :=
  {| extra := defaultExtra;
     warnedAboutTSVersion := false;
     knownPrograms := ∅;
     nextNodeId := 0;
     trace := [] |}.

End Demo.

(** * The fixture table of the alignment tests
    ([tests/ast-alignment/fixtures-to-test.ts]) *)

Module FixturesToTest.

(** The Babel parser options, as far as this file sets them. *)
Record BabelParserOptions : Type := {
  sourceType : string
}.

(** The optional [config] of a fixture and of a fixture pattern. *)
Record Config : Type := {
  babelParserOptions : option BabelParserOptions;
  typeScriptESTreeOptions : option value
}.

Record Fixture : Type := {
  filename : string;
  fixtureConfig : option Config
}.

Record FixturePatternConfig : Type := {
  pattern : string;
  config : option Config
}.

Record CreateFixturePatternConfig : Type := {
  ignore : option (list string);
  fileType : option string;
  parseWithSourceTypeModule : option (list string)
}.

(** A call either returns or throws an [Error] with a message. *)
Inductive outcome (A : Type) : Type :=
| Returned (a : A)
| Thrown (message : string).
Arguments Returned {A} a.
Arguments Thrown {A} message.

(** [s.replace(pattern, replacement)] with a string pattern: the first
    occurrence only. *)
Fixpoint dropString (n : nat) (s : string) : string :=
  match n, s with
  | O, _ => s
  | S n', String _ rest => dropString n' rest
  | S _, EmptyString => EmptyString
  end.

Fixpoint replace (pattern replacement s : string) : string :=
  if String.prefix pattern s
  then replacement +:+ dropString (String.length pattern) s
  else match s with
       | EmptyString => EmptyString
       | String c rest => String c (replace pattern replacement rest)
       end.

(** [jsxFilesWithKnownIssues] (lines 32-41), from the imported list. *)
Definition jsxFilesWithKnownIssues (jsxKnownIssues : list string) : list string :=
  map (fun f => replace "jsx/" "" f) jsxKnownIssues ++ ["invalid-no-tag-name"].

(** [s || d] on an optional string: the empty string is falsy. *)
Definition orString (s : option string) (d : string) : string :=
  match s with
  | Some s => if String.eqb s "" then d else s
  | None => d
  end.

(** The [config] pushed for a fixture that needs [sourceType: 'module']. *)
Definition moduleConfig : Config :=
  {| babelParserOptions := Some {| sourceType := "module" |};
     typeScriptESTreeOptions := None |}.

(** The [for ... of] loop of lines 84-94, pushing onto the module-level
    array [fixturesRequiringSourceTypeModule]. *)
Fixpoint pushModuleFixtures (fixturesSubPath fileType : string)
    (fixtures : list string)
    (fixturesRequiringSourceTypeModule : list FixturePatternConfig)
    : list FixturePatternConfig :=
  match fixtures with
  | [] => fixturesRequiringSourceTypeModule
  | fixture :: rest =>
      pushModuleFixtures fixturesSubPath fileType rest
        (fixturesRequiringSourceTypeModule ++
         [{| pattern := fixturesSubPath +:+ "/" +:+ fixture +:+ ".src." +:+ fileType;
             config := Some moduleConfig |}])
  end.

(** [createFixturePatternConfigFor(fixturesSubPath, config)] (lines 57-102);
    the state is the module-level array
    [fixturesRequiringSourceTypeModule]. *)
Definition createFixturePatternConfigFor (fixturesSubPath : string)
    (config : option CreateFixturePatternConfig)
    (fixturesRequiringSourceTypeModule : list FixturePatternConfig)
    : outcome FixturePatternConfig * list FixturePatternConfig :=
  if String.eqb fixturesSubPath ""
  then (Thrown "fixtureSubPath was not provided for the current fixture pattern",
        fixturesRequiringSourceTypeModule)
  else
    let config :=
      default {| ignore := None; fileType := None;
                 parseWithSourceTypeModule := None |} config in
    let ignore := default [] (ignore config) in
    let fileType := orString (fileType config) "js" in
    let parseWithSourceTypeModule := default [] (parseWithSourceTypeModule config) in
    let '(ignore, fixturesRequiringSourceTypeModule) :=
      if (0 <? length parseWithSourceTypeModule)%nat
      then (ignore ++ parseWithSourceTypeModule,
            pushModuleFixtures fixturesSubPath fileType parseWithSourceTypeModule
              fixturesRequiringSourceTypeModule)
      else (ignore, fixturesRequiringSourceTypeModule) in
    (Returned
       {| pattern :=
            fixturesSubPath +:+ "/!(" +:+ join "|" ignore +:+ ").src." +:+ fileType;
          config := None |},
     fixturesRequiringSourceTypeModule).

(** The array literal of lines 107-532: its calls, evaluated in order. *)
Fixpoint createAll (calls : list (string * option CreateFixturePatternConfig))
    (fixturesRequiringSourceTypeModule : list FixturePatternConfig)
    : outcome (list FixturePatternConfig) * list FixturePatternConfig :=
  match calls with
  | [] => (Returned [], fixturesRequiringSourceTypeModule)
  | (fixturesSubPath, config) :: rest =>
      match createFixturePatternConfigFor fixturesSubPath config
              fixturesRequiringSourceTypeModule with
      | (Thrown message, tracked) => (Thrown message, tracked)
      | (Returned first, tracked) =>
          match createAll rest tracked with
          | (Thrown message, tracked') => (Thrown message, tracked')
          | (Returned others, tracked') => (Returned (first :: others), tracked')
          end
      end
  end.

(** [fixturePatternConfigsToTest] once the module patterns are added
    (lines 537-540); the module-level array starts empty. *)
Definition fixturePatternConfigsToTest
    (calls : list (string * option CreateFixturePatternConfig))
    : outcome (list FixturePatternConfig) :=
  match createAll calls [] with
  | (Returned configs, fixturesRequiringSourceTypeModule) =>
      Returned (configs ++ fixturesRequiringSourceTypeModule)
  | (Thrown message, _) => Thrown message
  end.

(** The two nested [forEach] of lines 548-562, pushing onto
    [fixturesToTest]; [glob_sync] stands for [glob.sync(pattern, {})]. *)
Fixpoint collectFixtures (glob_sync : string -> list string)
    (fixturesDirPath : string) (configs : list FixturePatternConfig)
    (fixturesToTest : list Fixture) : list Fixture :=
  match configs with
  | [] => fixturesToTest
  | fixturePatternConfig :: rest =>
      let matchingFixtures :=
        glob_sync (fixturesDirPath +:+ "/" +:+ pattern fixturePatternConfig) in
      collectFixtures glob_sync fixturesDirPath rest
        (fixturesToTest ++
         map (fun filename =>
                {| filename := filename;
                   fixtureConfig := config fixturePatternConfig |})
           matchingFixtures)
  end.

(** The exported [fixturesToTest]. *)
Definition fixturesToTest (glob_sync : string -> list string)
    (fixturesDirPath : string)
    (calls : list (string * option CreateFixturePatternConfig))
    : outcome (list Fixture) :=
  match fixturePatternConfigsToTest calls with
  | Returned configs => Returned (collectFixtures glob_sync fixturesDirPath configs [])
  | Thrown message => Thrown message
  end.

End FixturesToTest.

(** * The tests of the parser services ([unnamed/part_000]) *)

Module SemanticInfo.

Definition FIXTURES_DIR : string := "./tests/fixtures/semanticInfo".

(** [s.indexOf(searchString)] *)
Definition indexOf (s searchString : string) : Z :=
  match String.index 0 searchString s with
  | Some n => Z.of_nat n
  | None => -1
  end.

(** [s.substring(start, end)]: both bounds are clamped to the string and
    swapped when out of order. *)
Definition substring (s : string) (start end_ : Z) : string :=
  let len := Z.of_nat (String.length s) in
  let start := Z.min (Z.max start 0) len in
  let end_ := Z.min (Z.max end_ 0) len in
  let lo := Z.to_nat (Z.min start end_) in
  let hi := Z.to_nat (Z.max start end_) in
  String.substring lo (hi - lo) s.

(** [testFiles] (lines 26-32), from the paths that [shelljs.find] lists. *)
Definition testFiles (found : list string) : list string :=
  map (fun filename =>
         substring filename (Z.of_nat (String.length FIXTURES_DIR) - 1)
           (Z.of_nat (String.length filename) - 7))
    (List.filter (fun filename => indexOf filename ".src.ts" >? -1) found).

(** [createOptions(fileName)] (lines 34-45); [cwd] stands for
    [path.join(process.cwd(), FIXTURES_DIR)]. *)
Definition createOptions (cwd : string) (fileName : value) : value :=
  VObj [("loc", VBool true);
        ("range", VBool true);
        ("tokens", VBool true);
        ("ecmaFeatures", VObj []);
        ("errorOnUnknownASTType", VBool true);
        ("filePath", fileName);
        ("cwd", VStr cwd);
        ("project", VStr "./tsconfig.json")].

(** [o.k = v] on a plain object: an own property keeps its place, a new
    one goes last. *)
Fixpoint setProp (k : string) (v : value) (props : list (string * value))
    : list (string * value) :=
  match props with
  | [] => [(k, v)]
  | (k', v') :: rest =>
      if String.eqb k' k then (k, v) :: rest else (k', v') :: setProp k v rest
  end.

Definition assignProp (o : value) (k : string) (v : value) : value :=
  match o with
  | VObj props => VObj (setProp k v props)
  | _ => o
  end.

(** The options of the three tests of a bad project file (lines 144-169):
    [badConfig = createOptions(fileName); badConfig.project = project]. *)
Definition badConfig (cwd : string) (fileName : value) (project : string) : value :=
  assignProp (createOptions cwd fileName) "project" (VStr project).

End SemanticInfo.

(** * The parser with the caller's code run

    The definitions above take every value as plain data: a function given
    as [loggerFn] is recorded but not run, and every value has a string
    form.  The definitions of this part follow the same lines of
    [parser.js] with what the language does at [String(...)] and at
    [extra.log(...)]: an object is converted through its own [toString]
    and [valueOf], which may be the caller's functions, may throw and may
    call [parse] again; the logger runs with [extra] as its receiver.  The
    conversion engine is taken with builders that may build several
    generic nodes from one native node. *)
Module Open.

(** The receiver of a call: a value, or the object in [extra]. *)
Inductive receiver : Type :=
| ThisValue (v : value)
| ThisExtra.

(** The module state, with the identity of the object that [extra] holds:
    [resetExtra] makes a new object. *)
Record State : Type := {
  base : World;
  extraObject : nat
}.

Definition OM (A : Type) : Type := SE State A.

(** A computation that runs no code of the caller. *)
Definition onBase {A} (c : M A) : OM A :=
  fun s =>
    let '(r, w) := c (base s) in
    (r, {| base := w; extraObject := extraObject s |}).

(** What a builder of the conversion engine puts into the fields of its
    node: the conversion of a child of the native node, or a node built
    only for the shape of the output, with fields of its own. *)
Inductive Shape : Type :=
| Child (i : nat)
| Synthetic (type : string) (parts : list Shape).

(** What is needed to run the lines in full: what a function of the caller
    does when called (it may change the module state, by calling [parse]
    or through its receiver, and may throw); how the run-time prints a
    number, fixed for the integers that a number holds exactly; and, for
    the conversion engine, the fields that the builder of a kind gives its
    node ([None]: every child once, in source order). *)
Record Host : Type := {
  call : string -> receiver -> list value -> OM value;
  numberToString : Z -> string;
  numberToString_safe :
    forall n, (Z.abs n <=? 9007199254740991) = true ->
              numberToString n = string_of_Z n;
  fields : string -> option (list Shape)
}.

(** An own property of a plain object, if it has one of that name. *)
Fixpoint ownProp (k : string) (props : list (string * value)) : option value :=
  match props with
  | [] => None
  | (k', v) :: rest => if String.eqb k' k then Some v else ownProp k rest
  end.

(** Whether a value is a primitive, not an object. *)
Definition isPrimitive (v : value) : bool :=
  match v with
  | VUndefined | VNull | VBool _ | VNum _ | VStr _ => true
  | VStringObj _ | VFun _ | VArr _ | VObj _ => false
  end.

Definition cannotConvert : error :=
  TypeError "Cannot convert object to primitive value".

Section Run.

Variable h : Host.
Variable env : Env.

Local Open Scope se_scope.

(** [String(v)] for a primitive. *)
Definition primitiveToString (v : value) : string :=
  match v with
  | VUndefined => "undefined"
  | VNull => "null"
  | VBool true => "true"
  | VBool false => "false"
  | VNum n => numberToString h n
  | VStr s => s
  | _ => ""
  end.

(** The conversion of a plain object to a primitive, for a string: its
    [toString], then its [valueOf], each own or inherited from
    [Object.prototype]; a method that is not callable, or returns an
    object, is passed over. *)
Definition ordinaryToPrimitive (o : value) (props : list (string * value))
    : OM value :=
  first <- match ownProp "toString" props with
           | None => ret (Some (VStr "[object Object]"))
           | Some (VFun src) =>
               r <- call h src (ThisValue o) [] ;;
               ret (if isPrimitive r then Some r else None)
           | Some _ => ret None
           end ;;
  match first with
  | Some r => ret r
  | None =>
      match ownProp "valueOf" props with
      | Some (VFun src) =>
          r <- call h src (ThisValue o) [] ;;
          if isPrimitive r then ret r else throw cannotConvert
      | _ => throw cannotConvert
      end
  end.

(** [String(v)], the standard string conversion. *)
Fixpoint toString (v : value) : OM string :=
  match v with
  | VStringObj s => ret s
  | VFun src => ret src
  | VArr items =>
      (fix join (l : list value) : OM string :=
         match l with
         | [] => ret ""
         | x :: rest =>
             piece <- match x with
                      | VUndefined | VNull => ret ""
                      | _ => toString x
                      end ;;
             match rest with
             | [] => ret piece
             | _ :: _ =>
                 tail <- join rest ;;
                 ret (piece +:+ "," +:+ tail)
             end
         end) items
  | VObj props =>
      r <- ordinaryToPrimitive v props ;;
      ret (primitiveToString r)
  | _ => ret (primitiveToString v)
  end.

(** [extra.log(msg)]: the caller's function runs with [extra] as its
    receiver. *)
Definition callLog (l : logger) (msg : string) : OM unit :=
  match l with
  | FunctionPrototype => ret tt
  | ConsoleLog => onBase (modify (emit (EvLog l msg)))
  | LoggerFn src =>
      onBase (modify (emit (EvLog l msg))) ;;;
      call h src ThisExtra [VStr msg] ;;;
      ret tt
  end.

(** [resetExtra] (lines 32-47): [extra] is assigned a new object. *)
Definition resetExtra : OM unit :=
  modify (fun s => {| base := set_extra defaultExtra (base s);
                      extraObject := S (extraObject s) |}).

(** The block reading [options] (lines 68-121).  In
    [extra.source = toString(options.source)] the object written to is the
    one that [extra] held before the conversion ran. *)
Definition readOptions (options : value) : OM unit :=
  when (negb (String.eqb (typeof options) "undefined")) (
    range <- lift (getProp options "range") ;;
    onBase (assign (Extra.set_range (isTrue range))) ;;;
    loc <- lift (getProp options "loc") ;;
    onBase (assign (Extra.set_loc (isTrue loc))) ;;;
    source <- lift (getProp options "source") ;;
    when (isTrue loc && negb (isNull source) && negb (isUndefined source)) (
      target <- gets extraObject ;;
      s <- toString source ;;
      current <- gets extraObject ;;
      when (target =? current)%nat
        (onBase (assign (Extra.set_source (Some s))))) ;;;
    tokens <- lift (getProp options "tokens") ;;
    when (isTrue tokens) (onBase (assign (Extra.set_tokens (Some [])))) ;;;
    comment <- lift (getProp options "comment") ;;
    when (isTrue comment)
      (onBase (assign (Extra.set_comment true)) ;;;
       onBase (assign (Extra.set_comments []))) ;;;
    tolerant <- lift (getProp options "tolerant") ;;
    when (isTrue tolerant) (onBase (assign (Extra.set_errors []))) ;;;
    ecmaFeatures <- lift (getProp options "ecmaFeatures") ;;
    when (truthy ecmaFeatures && String.eqb (typeof ecmaFeatures) "object") (
      jsx <- lift (getProp ecmaFeatures "jsx") ;;
      onBase (assign (Extra.set_ecmaFeatures_jsx jsx))) ;;;
    errorOnUnknownASTType <- lift (getProp options "errorOnUnknownASTType") ;;
    when (truthy errorOnUnknownASTType)
      (onBase (assign (Extra.set_errorOnUnknownASTType true))) ;;;
    useJSXTextNode <- lift (getProp options "useJSXTextNode") ;;
    when (isTrue useJSXTextNode)
      (onBase (assign (Extra.set_useJSXTextNode true))) ;;;
    loggerFn <- lift (getProp options "loggerFn") ;;
    match loggerFn with
    | VFun src => onBase (assign (Extra.set_log (LoggerFn src)))
    | _ => when (isFalse loggerFn)
             (onBase (assign (Extra.set_log FunctionPrototype)))
    end ;;;
    project <- lift (getProp options "project") ;;
    match project with
    | VStr s => onBase (assign (Extra.set_project [s]))
    | VArr items =>
        when (everyString items)
          (onBase (assign (Extra.set_project (stringsOf items))))
    | _ => ret tt
    end).

(** The version warning (lines 123-136): the flag is set once the logger
    has returned. *)
Definition warnAboutTSVersion : OM unit :=
  warned <- gets (fun s => warnedAboutTSVersion (base s)) ;;
  when (negb (isRunningSupportedTypeScriptVersion env) && negb warned) (
    let border := "=============" in
    let versionWarning :=
      [ border;
        "WARNING: You are currently running a version of TypeScript which is not officially supported by typescript-estree.";
        "You may find that it works just fine, or you may not.";
        "SUPPORTED TYPESCRIPT VERSIONS: " +:+ SUPPORTED_TYPESCRIPT_VERSIONS env;
        "YOUR TYPESCRIPT VERSION: " +:+ ACTIVE_TYPESCRIPT_VERSION env;
        "Please only submit bug reports when using the officially supported version.";
        border ] in
    ex <- gets (fun s => extra (base s)) ;;
    callLog (Extra.log ex) (join (newline +:+ newline) versionWarning) ;;;
    onBase (modify (set_warnedAboutTSVersion true))).

(** Modelled from the spec: the nodes that a builder puts into its fields,
    in lib/ast-converter.  [convertChild] holds the conversion of each
    child of the native node, run when a field asks for it; a node built
    only for the shape takes the span of the node that owns it and is not
    registered. *)
Fixpoint buildShape (range : option (Z * Z)) (loc : option SourceLocation)
    (convertChild : list (SE ConvState Generic)) (shape : Shape)
    : SE ConvState (list Generic) :=
  match shape with
  | Child i =>
      match convertChild !! i with
      | Some conversion => g <- conversion ;; ret [g]
      | None => ret []
      end
  | Synthetic type parts =>
      kids <- (fix buildShapes (l : list Shape) : SE ConvState (list Generic) :=
                 match l with
                 | [] => ret []
                 | part :: rest =>
                     gs <- buildShape range loc convertChild part ;;
                     gs' <- buildShapes rest ;;
                     ret (gs ++ gs')
                 end) parts ;;
      id <- fresh ;;
      ret [GNode id type range loc None kids]
  end.

(** Modelled from the spec: the fields of a node, in order. *)
Definition buildShapes (range : option (Z * Z)) (loc : option SourceLocation)
    (convertChild : list (SE ConvState Generic)) :=
  fix buildShapes (l : list Shape) : SE ConvState (list Generic) :=
    match l with
    | [] => ret []
    | part :: rest =>
        gs <- buildShape range loc convertChild part ;;
        gs' <- buildShapes rest ;;
        ret (gs ++ gs')
    end.

(** The fields of a builder that converts every child once, in source
    order. *)
Definition everyChild (children : list Native) : list Shape :=
  map Child (seq 0 (length children)).

(** Modelled from the spec: the depth-first walk of lib/ast-converter
    (spec 4.1).  The builder is looked up by the native kind; an unknown
    kind fails fast when [errorOnUnknownASTType] is set and otherwise
    becomes a passthrough node carrying the native kind name.  A builder
    builds one or more generic nodes, converting children of the native
    node; the node built from a real native node is registered with it. *)
Fixpoint convertNode (ctx : Extra.t) (text : string) (path : NodeRef)
    (n : Native) : SE ConvState Generic :=
  match n with
  | NNode kind pos end_ real children =>
      match builders env kind, Extra.errorOnUnknownASTType ctx with
      | None, true => throw (UnsupportedNodeKind kind)
      | builder, _ =>
          let convertChild :=
            (fix each (i : nat) (cs : list Native)
               : list (SE ConvState Generic) :=
               match cs with
               | [] => []
               | c :: cs' => convertNode ctx text (path ++ [i]) c :: each (S i) cs'
               end) O children in
          let range :=
            if Extra.range ctx then Some (pos, end_) else None in
          let loc :=
            if Extra.loc ctx
            then Some {| loc_start := offsetToLineColumn text pos;
                         loc_end := offsetToLineColumn text end_ |}
            else None in
          let shape :=
            match builder with
            | Some _ => default (everyChild children) (fields h kind)
            | None => everyChild children
            end in
          kids <- buildShapes range loc convertChild shape ;;
          id <- fresh ;;
          let node :=
            match builder with
            | Some type => GNode id type range loc None kids
            | None => GNode id kind range loc (Some kind) kids
            end in
          when real (register id path) ;;;
          ret node
      end
  end.

(** Modelled from the spec: [convert(ast, extra)] of lib/ast-converter. *)
Definition convert (ast : option Native) (ctx : Extra.t) : OM ConvertResult :=
  onBase
    match ast with
    | None => throw (TypeError "Cannot read property 'kind' of undefined")
    | Some root =>
        fun w =>
          let '(r, s) :=
            convertNode ctx (sourceText ctx) [] root
              {| cs_next := nextNodeId w; cs_registry := emptyRegistry |} in
          let w' := set_nextNodeId (cs_next s) w in
          match r with
          | Throw e => (Throw e, w')
          | Ok g =>
              let code := default VUndefined (Extra.code ctx) in
              (Ok {| cr_estree :=
                       {| es_root := g;
                          es_tokens :=
                            match Extra.tokens ctx with
                            | Some _ => Some (scanTokens env code)
                            | None => None
                            end;
                          es_comments :=
                            if Extra.comment ctx
                            then Some (scanComments env code) else None |};
                     cr_astMaps := cs_registry s |}, w')
          end
    end.

(** [generateAST(code, options)] (lines 59-226) *)
Definition generateAST (code options : value) : OM GenerateResult :=
  code <- (if negb (String.eqb (typeof code) "string")
              && negb (instanceofString code)
           then s <- toString code ;; ret (VStr s)
           else ret code) ;;
  resetExtra ;;;
  readOptions options ;;;
  warnAboutTSVersion ;;;
  ex <- gets (fun s => extra (base s)) ;;
  let shouldProvideParserServices := (0 <? length (Extra.project ex))%nat in
  found <- onBase (if shouldProvideParserServices then
                     FILENAME <- lift (getProp options "filePath") ;;
                     let programs :=
                       calculateProjectParserOptions env code options
                         (Extra.project ex) in
                     findRelevantProgram programs FILENAME
                   else ret (None, None)) ;;
  found <- onBase (match snd found with
                   | None => isolatedProgram env code ex
                   | Some _ => ret found
                   end) ;;
  let '(relevantProgram, ast) := found in
  onBase (assign (Extra.set_code (Some code))) ;;;
  ex <- gets (fun s => extra (base s)) ;;
  converted <- convert ast ex ;;
  ret {| estree := cr_estree converted;
         program := if shouldProvideParserServices then relevantProgram else None;
         astMaps :=
           if shouldProvideParserServices
           then {| esTreeNodeToTSNodeMap := Some (genericToNativeMap (cr_astMaps converted));
                   tsNodeToESTreeNodeMap := Some (nativeToGenericMap (cr_astMaps converted)) |}
           else {| esTreeNodeToTSNodeMap := None;
                   tsNodeToESTreeNodeMap := None |} |}.

(** [exports.parse] (lines 234-244) *)
Definition parse (code options : value) : OM ParseResult :=
  result <- generateAST code options ;;
  ret {| ast := estree result;
         services :=
           {| sv_program := program result;
              sv_esTreeNodeToTSNodeMap := esTreeNodeToTSNodeMap (astMaps result);
              sv_tsNodeToESTreeNodeMap := tsNodeToESTreeNodeMap (astMaps result) |} |}.

End Run.

End Open.


(** * Vocabulary of the properties *)

(** [o.k] where it cannot throw. *)
Definition prop (o : value) (k : string) : value :=
  match getProp o k with
  | Ok v => v
  | Throw _ => VUndefined
  end.

(** [v] is [undefined] or [null]. *)
Definition nullish (v : value) : bool := isUndefined v || isNull v.

(** An update made only under a condition. *)
Definition cond {A} (b : bool) (f : A -> A) : A -> A :=
  if b then f else fun a => a.

(** The context that [readOptions] builds, as a function of the options. *)
Definition optionsUpdate (options : value) (e : Extra.t) : Extra.t :=
  let source := prop options "source" in
  let loggerFn := prop options "loggerFn" in
  let project := prop options "project" in
  let ecmaFeatures := prop options "ecmaFeatures" in
  let e := Extra.set_range (isTrue (prop options "range")) e in
  let e := Extra.set_loc (isTrue (prop options "loc")) e in
  let e := cond (isTrue (prop options "loc") && negb (isNull source)
                 && negb (isUndefined source))
             (Extra.set_source (Some (toString source))) e in
  let e := cond (isTrue (prop options "tokens")) (Extra.set_tokens (Some [])) e in
  let e := cond (isTrue (prop options "comment"))
             (fun e => Extra.set_comments [] (Extra.set_comment true e)) e in
  let e := cond (isTrue (prop options "tolerant")) (Extra.set_errors []) e in
  let e := cond (truthy ecmaFeatures && String.eqb (typeof ecmaFeatures) "object")
             (Extra.set_ecmaFeatures_jsx (prop ecmaFeatures "jsx")) e in
  let e := cond (truthy (prop options "errorOnUnknownASTType"))
             (Extra.set_errorOnUnknownASTType true) e in
  let e := cond (isTrue (prop options "useJSXTextNode"))
             (Extra.set_useJSXTextNode true) e in
  let e := match loggerFn with
           | VFun src => Extra.set_log (LoggerFn src) e
           | _ => cond (isFalse loggerFn) (Extra.set_log FunctionPrototype) e
           end in
  match project with
  | VStr s => Extra.set_project [s] e
  | VArr items => cond (everyString items) (Extra.set_project (stringsOf items)) e
  | _ => e
  end.

(** A computation that only updates [extra], by [f]. *)
Definition updates (c : M unit) (f : Extra.t -> Extra.t) : Prop :=
  forall w, c w = (Ok tt, set_extra (f (extra w)) w).

(** The context of a call, from the defaults of [resetExtra]. *)
Definition contextOf (options : value) : Extra.t :=
  if isUndefined options then defaultExtra
  else optionsUpdate options defaultExtra.

Section BlocksVocabulary.

Variable env : Env.

(** The paths taken up by project resolution, in a trace. *)
Definition resolutions (t : list Event) : list string :=
  omap (fun ev => match ev with EvResolve p => Some p | _ => None end) t.

(** The world after the version warning. *)
Definition afterWarning (w : World) : World := snd (warnAboutTSVersion env w).

(** The source text once coerced (lines 62-64). *)
Definition coerceCode (code : value) : value :=
  if negb (String.eqb (typeof code) "string") && negb (instanceofString code)
  then VStr (toString code) else code.

(** What [generateAST] does once the context is built and the warning given:
    the rest of its body, from line 138 on. *)
Definition afterContext (code options : value) : M GenerateResult :=
  (ex <- gets extra ;;
   let shouldProvideParserServices := (0 <? length (Extra.project ex))%nat in
   found <- (if shouldProvideParserServices then
               FILENAME <- lift (getProp options "filePath") ;;
               let programs :=
                 calculateProjectParserOptions env code options (Extra.project ex) in
               findRelevantProgram programs FILENAME
             else ret (None, None)) ;;
   found <- (match snd found with
             | None => isolatedProgram env code ex
             | Some _ => ret found
             end) ;;
   let '(relevantProgram, ast) := found in
   assign (Extra.set_code (Some code)) ;;;
   ex <- gets extra ;;
   converted <- convert env ast ex ;;
   ret {| estree := cr_estree converted;
          program := if shouldProvideParserServices then relevantProgram else None;
          astMaps :=
            if shouldProvideParserServices
            then {| esTreeNodeToTSNodeMap := Some (genericToNativeMap (cr_astMaps converted));
                    tsNodeToESTreeNodeMap := Some (nativeToGenericMap (cr_astMaps converted)) |}
            else {| esTreeNodeToTSNodeMap := None;
                    tsNodeToESTreeNodeMap := None |} |})%se.

(** A world moved on by a new cache and further events. *)
Definition stepWorld (w : World) (cache : gmap string (string * Program))
    (evs : list Event) : World :=
  {| extra := extra w;
     warnedAboutTSVersion := warnedAboutTSVersion w;
     knownPrograms := cache;
     nextNodeId := nextNodeId w;
     trace := trace w ++ evs |}.

Variables code options : value.

(** The outcome of resolving one configuration path and the cache it
    leaves. *)
Definition resolveOutcome (configPath : string)
    (cache : gmap string (string * Program))
    : result Program * gmap string (string * Program) :=
  match readEntry env configPath with
  | Missing => (Throw (ProjectNotFound configPath), cache)
  | Unreadable => (Throw (ProjectReadFailure configPath), cache)
  | File content =>
      let rebuild :=
        match parseConfig env configPath content with
        | None => (Throw (ProjectMalformed configPath), cache)
        | Some config =>
            let p := buildProgram env code options config in
            (Ok p, <[configPath := (content, p)]> cache)
        end in
      match cache !! configPath with
      | Some (content', p) =>
          if String.eqb content' content then (Ok p, cache) else rebuild
      | None => rebuild
      end
  end.

(** The outcome of the loop over the configuration list: what the loop
    leaves in [relevantProgram] and [ast], the cache, and the events. *)
Fixpoint scan (project : list string) (FILENAME : value)
    (cache : gmap string (string * Program))
    : result (option Program * option Native)
      * gmap string (string * Program) * list Event :=
  match project with
  | [] => (Ok (None, None), cache, [])
  | configPath :: rest =>
      match resolveOutcome configPath cache with
      | (Throw e, cache1) => (Throw e, cache1, [EvResolve configPath])
      | (Ok p, cache1) =>
          match getSourceFile p FILENAME with
          | Some a =>
              (Ok (Some p, Some a), cache1,
               [EvResolve configPath; EvGetSourceFile p FILENAME])
          | None =>
              let '(r, cache2, evs) := scan rest FILENAME cache1 in
              (r, cache2,
               EvResolve configPath :: EvGetSourceFile p FILENAME :: evs)
          end
      end
  end.

(** The file name of the isolated program (line 162). *)
Definition isolatedFileName (ex : Extra.t) : string :=
  if truthy (Extra.ecmaFeatures_jsx ex) then "estree.tsx" else "estree.ts".

(** The program built by lines 204-212. *)
Definition isolatedOf (ex : Extra.t) : Program :=
  let FILENAME := isolatedFileName ex in
  ts_createProgram env [FILENAME]
    {| noResolve := true;
       target := Latest;
       jsx := if truthy (Extra.ecmaFeatures_jsx ex) then Some Preserve else None |}
    {| fileExists := fun _ => true;
       getCanonicalFileName := fun _ => FILENAME;
       getCurrentDirectory := "";
       getDirectories := [];
       getDefaultLibFileName := "lib.d.ts";
       getNewLine := newline;
       host_getSourceFile := fun filename => ts_createSourceFile env filename code;
       readFile := fun _ => None;
       useCaseSensitiveFileNames := true;
       writeFile := fun _ _ => VNull |}.

(** The conversion of a tree from a given allocator state. *)
Definition convertFrom (ctx : Extra.t) (root : Native) (next : nat)
    : result Generic * ConvState :=
  convertNode env ctx (sourceText ctx) [] root
    {| cs_next := next; cs_registry := emptyRegistry |}.

(** What [convert] returns for a converted root. *)
Definition conversionOf (ctx : Extra.t) (g : Generic) (s : ConvState)
    : ConvertResult :=
  let code := default VUndefined (Extra.code ctx) in
  {| cr_estree :=
       {| es_root := g;
          es_tokens :=
            match Extra.tokens ctx with
            | Some _ => Some (scanTokens env code)
            | None => None
            end;
          es_comments :=
            if Extra.comment ctx then Some (scanComments env code) else None |};
     cr_astMaps := cs_registry s |}.

(** The end of [generateAST] (lines 217-225). *)
Definition finish (shouldProvideParserServices : bool)
    (found : option Program * option Native) : M GenerateResult :=
  (let '(relevantProgram, ast) := found in
   assign (Extra.set_code (Some code)) ;;;
   ex <- gets extra ;;
   converted <- convert env ast ex ;;
   ret {| estree := cr_estree converted;
          program := if shouldProvideParserServices then relevantProgram else None;
          astMaps :=
            if shouldProvideParserServices
            then {| esTreeNodeToTSNodeMap := Some (genericToNativeMap (cr_astMaps converted));
                    tsNodeToESTreeNodeMap := Some (nativeToGenericMap (cr_astMaps converted)) |}
            else {| esTreeNodeToTSNodeMap := None;
                    tsNodeToESTreeNodeMap := None |} |})%se.

(** The world in which the conversion runs. *)
Definition withCode (w : World) : World :=
  set_extra (Extra.set_code (Some code) (extra w)) w.

(** The object returned at lines 219-225. *)
Definition resultOf (should : bool) (relevantProgram : option Program)
    (converted : ConvertResult) : GenerateResult :=
  {| estree := cr_estree converted;
     program := if should then relevantProgram else None;
     astMaps :=
       if should
       then {| esTreeNodeToTSNodeMap := Some (genericToNativeMap (cr_astMaps converted));
               tsNodeToESTreeNodeMap := Some (nativeToGenericMap (cr_astMaps converted)) |}
       else {| esTreeNodeToTSNodeMap := None;
               tsNodeToESTreeNodeMap := None |} |}.

(** The events of resolving configuration paths to programs and asking each
    for the file, in order. *)
Definition visits (FILENAME : value) (steps : list (string * Program))
    : list Event :=
  flat_map (fun step => [EvResolve (fst step); EvGetSourceFile (snd step) FILENAME])
    steps.

End BlocksVocabulary.

(** The context in [extra] once [resetExtra] and the option block have run. *)
Definition contextBuilt (options : value) (w : World) : Extra.t :=
  extra (snd (bind resetExtra (fun _ => readOptions options) w)).

(** The six boolean options. *)
Definition booleanOptions : list string :=
  ["range"; "loc"; "tokens"; "comment"; "tolerant"; "useJSXTextNode"].

(** Whether the feature behind a boolean option is on in a context. *)
Definition enabled (name : string) (e : Extra.t) : bool :=
  if String.eqb name "range" then Extra.range e
  else if String.eqb name "loc" then Extra.loc e
  else if String.eqb name "tokens" then bool_decide (is_Some (Extra.tokens e))
  else if String.eqb name "comment" then Extra.comment e
  else if String.eqb name "tolerant" then Extra.tolerant e
  else if String.eqb name "useJSXTextNode" then Extra.useJSXTextNode e
  else false.

(** The object without its property [k]. *)
Definition removeProp (k : string) (props : list (string * value))
    : list (string * value) :=
  List.filter (fun kv => negb (String.eqb (fst kv) k)) props.

(** The object returned by [parse] for a result of [generateAST]. *)
Definition toParseResult (r : GenerateResult) : ParseResult :=
  {| ast := estree r;
     services :=
       {| sv_program := program r;
          sv_esTreeNodeToTSNodeMap := esTreeNodeToTSNodeMap (astMaps r);
          sv_tsNodeToESTreeNodeMap := tsNodeToESTreeNodeMap (astMaps r) |} |}.

(** Two worlds agree when they hold the same context, the same program
    cache and the same allocator; the flag [warnedAboutTSVersion] and the
    trace are free. *)
Definition agree (w1 w2 : World) : Prop :=
  extra w1 = extra w2 /\
  knownPrograms w1 = knownPrograms w2 /\
  nextNodeId w1 = nextNodeId w2.

(** A computation whose result and agreed state depend on the agreed state
    only. *)
Definition agrees {A} (c : M A) : Prop :=
  forall w1 w2, agree w1 w2 ->
    fst (c w1) = fst (c w2) /\ agree (snd (c w1)) (snd (c w2)).

(** The world in which the loop over the programs starts: the context is
    built and the version warning given. *)
Definition loopStart (env : Env) (options : value) (w : World) : World :=
  afterWarning env (set_extra (contextBuilt options w) w).

(** Every cached program was built from a configuration that parses. *)
Definition cacheValid (env : Env) (cache : gmap string (string * Program)) : Prop :=
  forall path content p,
    cache !! path = Some (content, p) -> parseConfig env path content <> None.

(** What is wrong with a configuration path, if anything. *)
Definition configurationFailure (env : Env) (configPath : string) : option error :=
  match readEntry env configPath with
  | Missing => Some (ProjectNotFound configPath)
  | Unreadable => Some (ProjectReadFailure configPath)
  | File content =>
      match parseConfig env configPath content with
      | None => Some (ProjectMalformed configPath)
      | Some _ => None
      end
  end.

(** The node at a position: the path of child indices from the root. *)
Fixpoint nativeAt (n : Native) (p : NodeRef) : option Native :=
  match p with
  | [] => Some n
  | i :: rest =>
      match nativeChildren n !! i with
      | Some c => nativeAt c rest
      | None => None
      end
  end.

(** The generic node at a position of the output tree. *)
Fixpoint genericAt (g : Generic) (p : NodeRef) : option Generic :=
  match p with
  | [] => Some g
  | i :: rest =>
      match genericChildren g !! i with
      | Some c => genericAt c rest
      | None => None
      end
  end.

(** Whether a native node is a real one. *)
Definition nativeReal (n : Native) : bool :=
  match n with NNode _ _ _ r _ => r end.

Section ConversionVocabulary.

Variable env : Env.
Variable ctx : Extra.t.
Variable text : string.

(** The node built once the children are converted. *)
Definition buildNode (kind : string) (pos end_ : Z) (id : nat)
    (kids : list Generic) : Generic :=
  let range := if Extra.range ctx then Some (pos, end_) else None in
  let loc :=
    if Extra.loc ctx
    then Some {| loc_start := offsetToLineColumn text pos;
                 loc_end := offsetToLineColumn text end_ |}
    else None in
  match builders env kind with
  | Some type => GNode id type range loc None kids
  | None => GNode id kind range loc (Some kind) kids
  end.

(** The state once the node at [path] is built and, if real, registered. *)
Definition afterNode (real : bool) (path : NodeRef) (s : ConvState) : ConvState :=
  {| cs_next := S (cs_next s);
     cs_registry :=
       if real then registerPair (cs_next s) path (cs_registry s)
       else cs_registry s |}.

(** A node whose conversion fails whatever the state. *)
Definition throws (n : Native) : Prop :=
  forall path s, exists e,
    fst (convertNode env ctx text path n s) = Throw e.

End ConversionVocabulary.

(** The two maps are inverse of each other and every registered generic
    identity has been allocated. *)
Definition consistent (s : ConvState) : Prop :=
  (forall g n,
     genericToNative (cs_registry s) g = Some n <->
     nativeToGeneric (cs_registry s) n = Some g) /\
  (forall g n,
     genericToNative (cs_registry s) g = Some n -> (g < cs_next s)%nat).

Section RegistryVocabulary.

Variable env : Env.
Variable ctx : Extra.t.
Variable text : string.

(** What converting the node at [path] does to the registry: it stays
    consistent, entries outside the subtree and under old identities are
    untouched, and every node of the subtree has its generic node, newly
    allocated, registered with its position exactly when it is real. *)
Definition nodeRegistered (n : Native) : Prop :=
  forall path s g s',
    convertNode env ctx text path n s = (Ok g, s') ->
    consistent s ->
    (forall q, path `prefix_of` q -> nativeToGeneric (cs_registry s) q = None) ->
    consistent s' /\
    (cs_next s <= cs_next s')%nat /\
    (forall q, ~ path `prefix_of` q ->
       nativeToGeneric (cs_registry s') q = nativeToGeneric (cs_registry s) q) /\
    (forall k, (k < cs_next s)%nat ->
       genericToNative (cs_registry s') k = genericToNative (cs_registry s) k) /\
    (forall p,
       match nativeAt n p with
       | Some n' =>
           exists g',
             genericAt g p = Some g' /\
             (cs_next s <= genericId g' < cs_next s')%nat /\
             genericToNative (cs_registry s') (genericId g') =
               if nativeReal n' then Some (path ++ p) else None
       | None => genericAt g p = None
       end).

End RegistryVocabulary.

Section ChosenVocabulary.

Variables (env : Env) (code options : value).

Let ctx := contextOf options.
Let theCode := coerceCode code.

(** The tree a call goes on to convert, the program it returns and whether
    services are provided, as a function of the program cache. *)
Definition chosen (cache : gmap string (string * Program))
    : result (bool * (option Program * option Native))
      * gmap string (string * Program) :=
  let isolated :=
    (Some (isolatedOf env theCode ctx),
     getSourceFile (isolatedOf env theCode ctx) (VStr (isolatedFileName ctx))) in
  match Extra.project ctx with
  | [] => (Ok (false, isolated), cache)
  | project =>
      match scan env theCode options project (prop options "filePath") cache with
      | (Throw e, cache1, _) => (Throw e, cache1)
      | (Ok (relevantProgram, Some a), cache1, _) =>
          (Ok (true, (relevantProgram, Some a)), cache1)
      | (Ok (_, None), cache1, _) => (Ok (true, isolated), cache1)
      end
  end.

End ChosenVocabulary.

(** A generic tree without the identities of its nodes. *)
Fixpoint stripIds (g : Generic) : Generic :=
  match g with
  | GNode _ type range loc kindName children =>
      GNode O type range loc kindName (map stripIds children)
  end.

(** Two outcomes of a walk that agree up to the identities. *)
Definition sameShape (r1 r2 : result Generic) : Prop :=
  match r1, r2 with
  | Ok g1, Ok g2 => stripIds g1 = stripIds g2
  | Throw e1, Throw e2 => e1 = e2
  | _, _ => False
  end.

(** The same for the outcomes of converting a list of children. *)
Definition sameShapes (r1 r2 : result (list Generic)) : Prop :=
  match r1, r2 with
  | Ok gs1, Ok gs2 => map stripIds gs1 = map stripIds gs2
  | Throw e1, Throw e2 => e1 = e2
  | _, _ => False
  end.

Section ReplayVocabulary.

Variable env : Env.

(** The cache [c'] has every up-to-date entry of [c]. *)
Definition keeps (c c' : gmap string (string * Program)) : Prop :=
  forall path content p,
    readEntry env path = File content ->
    c !! path = Some (content, p) -> c' !! path = Some (content, p).

End ReplayVocabulary.

(** The messages handed to a logger, in a trace. *)
Definition logsOf (t : list Event) : list (logger * string) :=
  omap (fun ev => match ev with EvLog l msg => Some (l, msg) | _ => None end) t.

(** The text of the version warning (lines 124-133). *)
Definition versionWarning (env : Env) : string :=
  let border := "=============" in
  join (newline +:+ newline)
    [ border;
      "WARNING: You are currently running a version of TypeScript which is not officially supported by typescript-estree.";
      "You may find that it works just fine, or you may not.";
      "SUPPORTED TYPESCRIPT VERSIONS: " +:+ SUPPORTED_TYPESCRIPT_VERSIONS env;
      "YOUR TYPESCRIPT VERSION: " +:+ ACTIVE_TYPESCRIPT_VERSION env;
      "Please only submit bug reports when using the officially supported version.";
      border ].

(** The logger that a value of [options.loggerFn] selects (lines 104-111). *)
Definition loggerOf (loggerFn : value) : logger :=
  match loggerFn with
  | VFun src => LoggerFn src
  | VBool false => FunctionPrototype
  | _ => ConsoleLog
  end.

(** What calling a logger leaves in the list of messages. *)
Definition logged (l : logger) (msg : string) : list (logger * string) :=
  match l with
  | FunctionPrototype => []
  | _ => [(l, msg)]
  end.

(** A computation that calls no logger and leaves the warning flag alone. *)
Definition silent {A} (c : M A) : Prop :=
  forall w,
    logsOf (trace (snd (c w))) = logsOf (trace w) /\
    warnedAboutTSVersion (snd (c w)) = warnedAboutTSVersion w.

(** The project list that a value of [options.project] gives
    (lines 113-121). *)
Definition projectList (project : value) : list string :=
  match project with
  | VStr s => [s]
  | VArr items => if everyString items then stringsOf items else []
  | _ => []
  end.

(** The option names read while the context is built. *)
Definition contextOptions : list string :=
  ["range"; "loc"; "source"; "tokens"; "comment"; "tolerant"; "ecmaFeatures";
   "errorOnUnknownASTType"; "useJSXTextNode"; "loggerFn"; "project"].

(** The value of [options.ecmaFeatures.jsx] as the context takes it
    (lines 87-90): only from an object. *)
Definition jsxFeature (options : value) : value :=
  let ecmaFeatures := prop options "ecmaFeatures" in
  if truthy ecmaFeatures && String.eqb (typeof ecmaFeatures) "object"
  then prop ecmaFeatures "jsx" else VUndefined.

(** The context that the option block builds from the defaults, field by
    field. *)
Definition contextRecord (options : value) : Extra.t :=
  {| Extra.tokens := if isTrue (prop options "tokens") then Some [] else None;
     Extra.range := isTrue (prop options "range");
     Extra.loc := isTrue (prop options "loc");
     Extra.comment := isTrue (prop options "comment");
     Extra.comments := [];
     Extra.tolerant := false;
     Extra.errors := [];
     Extra.strict := false;
     Extra.ecmaFeatures_jsx := jsxFeature options;
     Extra.useJSXTextNode := isTrue (prop options "useJSXTextNode");
     Extra.log := loggerOf (prop options "loggerFn");
     Extra.project := projectList (prop options "project");
     Extra.source :=
       if isTrue (prop options "loc") && negb (nullish (prop options "source"))
       then Some (toString (prop options "source")) else None;
     Extra.errorOnUnknownASTType := truthy (prop options "errorOnUnknownASTType");
     Extra.code := None |}.

(** An environment whose TypeScript version is not a supported one. *)
Definition unsupportedEnv : Env :=
  {| isRunningSupportedTypeScriptVersion := false;
     SUPPORTED_TYPESCRIPT_VERSIONS := "~3.2.1";
     ACTIVE_TYPESCRIPT_VERSION := "3.0.0";
     ts_createSourceFile := Demo.createSourceFile;
     ts_createProgram := Demo.createProgram;
     readEntry := Demo.entries;
     parseConfig := Demo.parseConfigFile;
     buildProgram := Demo.build;
     builders := Demo.builderTable;
     scanTokens := fun _ => [];
     scanComments := fun _ => [] |}.

(** The parts of an optional [CreateFixturePatternConfig] with their
    defaults. *)
Definition ignoredBy (config : option FixturesToTest.CreateFixturePatternConfig)
    : list string :=
  match config with
  | Some c => default [] (FixturesToTest.ignore c)
  | None => []
  end.

Definition asModuleBy (config : option FixturesToTest.CreateFixturePatternConfig)
    : list string :=
  match config with
  | Some c => default [] (FixturesToTest.parseWithSourceTypeModule c)
  | None => []
  end.

Definition fileTypeBy (config : option FixturesToTest.CreateFixturePatternConfig)
    : string :=
  match config with
  | Some c => FixturesToTest.orString (FixturesToTest.fileType c) "js"
  | None => "js"
  end.

(** The pattern of one fixture parsed as a module. *)
Definition modulePattern (fixturesSubPath fileType fixture : string)
    : FixturesToTest.FixturePatternConfig :=
  {| FixturesToTest.pattern :=
       fixturesSubPath +:+ "/" +:+ fixture +:+ ".src." +:+ fileType;
     FixturesToTest.config := Some FixturesToTest.moduleConfig |}.

(** The pattern that a call of the table returns. *)
Definition defaultPatternOf
    (call : string * option FixturesToTest.CreateFixturePatternConfig)
    : FixturesToTest.FixturePatternConfig :=
  {| FixturesToTest.pattern :=
       fst call +:+ "/!("
       +:+ join "|" (ignoredBy (snd call) ++ asModuleBy (snd call))
       +:+ ").src." +:+ fileTypeBy (snd call);
     FixturesToTest.config := None |}.

(** The patterns that a call of the table adds to the module-level array. *)
Definition modulePatternsOf
    (call : string * option FixturesToTest.CreateFixturePatternConfig)
    : list FixturesToTest.FixturePatternConfig :=
  map (modulePattern (fst call) (fileTypeBy (snd call))) (asModuleBy (snd call)).

(** The fixtures that a pattern contributes. *)
Definition fixturesOf (glob_sync : string -> list string) (fixturesDirPath : string)
    (fixturePatternConfig : FixturesToTest.FixturePatternConfig)
    : list FixturesToTest.Fixture :=
  map (fun filename =>
         {| FixturesToTest.filename := filename;
            FixturesToTest.fixtureConfig :=
              FixturesToTest.config fixturePatternConfig |})
    (glob_sync (fixturesDirPath +:+ "/"
                +:+ FixturesToTest.pattern fixturePatternConfig)).

(** A value whose string conversion runs no code of the caller and cannot
    fail: no object in it has a [toString] of its own, and its numbers are
    integers that a number holds exactly. *)
Fixpoint plain (v : value) : bool :=
  match v with
  | VNum n => Z.abs n <=? 9007199254740991
  | VArr items => forallb plain items
  | VObj props =>
      match Open.ownProp "toString" props with
      | None => true
      | Some _ => false
      end
  | _ => true
  end.

(** Whether the option block converts [options.source], and whether that
    conversion runs no code of the caller. *)
Definition readsSource (options : value) : bool :=
  isTrue (prop options "loc") && negb (nullish (prop options "source")).

Definition plainSource (options : value) : bool :=
  implb (readsSource options) (plain (prop options "source")).

(** Whether the version warning is due in a state. *)
Definition warningDue (env : Env) (s : Open.State) : bool :=
  negb (isRunningSupportedTypeScriptVersion env)
  && negb (warnedAboutTSVersion (Open.base s)).

(** Whether a value is a function of the caller. *)
Definition isFunction (v : value) : bool :=
  match v with VFun _ => true | _ => false end.

(** A computation that only updates [extra], by [f], and runs no code of
    the caller. *)
Definition updatesOpen (c : Open.OM unit) (f : Extra.t -> Extra.t) : Prop :=
  forall s,
    c s = (Ok tt, {| Open.base := set_extra (f (extra (Open.base s))) (Open.base s);
                     Open.extraObject := Open.extraObject s |}).

(** The state once [resetExtra] and the option block have built the context
    [e]. *)
Definition built (e : Extra.t) (s : Open.State) : Open.State :=
  {| Open.base := set_extra e (Open.base s);
     Open.extraObject := S (Open.extraObject s) |}.

(** The state with an event added, and with the warning flag set. *)
Definition noted (ev : Event) (s : Open.State) : Open.State :=
  {| Open.base := emit ev (Open.base s);
     Open.extraObject := Open.extraObject s |}.

Definition flagged (s : Open.State) : Open.State :=
  {| Open.base := set_warnedAboutTSVersion true (Open.base s);
     Open.extraObject := Open.extraObject s |}.

(** The code as [generateAST] goes on with it (lines 62-64). *)
Definition coerce (h : Open.Host) (code : value) : Open.OM value :=
  if negb (String.eqb (typeof code) "string") && negb (instanceofString code)
  then bind (Open.toString h code) (fun s => ret (VStr s))
  else ret code.

(** What [generateAST] does once the warning is given: the rest of its
    body, from line 138 on. *)
Definition restOfCall (h : Open.Host) (env : Env) (code options : value)
    : Open.OM GenerateResult :=
  (ex <- gets (fun s => extra (Open.base s)) ;;
   let shouldProvideParserServices := (0 <? length (Extra.project ex))%nat in
   found <- Open.onBase (if shouldProvideParserServices then
                           FILENAME <- lift (getProp options "filePath") ;;
                           let programs :=
                             calculateProjectParserOptions env code options
                               (Extra.project ex) in
                           findRelevantProgram programs FILENAME
                         else ret (None, None)) ;;
   found <- Open.onBase (match snd found with
                         | None => isolatedProgram env code ex
                         | Some _ => ret found
                         end) ;;
   let '(relevantProgram, ast) := found in
   Open.onBase (assign (Extra.set_code (Some code))) ;;;
   ex <- gets (fun s => extra (Open.base s)) ;;
   converted <- Open.convert h env ast ex ;;
   ret {| estree := cr_estree converted;
          program := if shouldProvideParserServices then relevantProgram else None;
          astMaps :=
            if shouldProvideParserServices
            then {| esTreeNodeToTSNodeMap := Some (genericToNativeMap (cr_astMaps converted));
                    tsNodeToESTreeNodeMap := Some (nativeToGenericMap (cr_astMaps converted)) |}
            else {| esTreeNodeToTSNodeMap := None;
                    tsNodeToESTreeNodeMap := None |} |})%se.

(** The object that [parse] makes of the result (lines 236-243). *)
Definition wrapped (c : Open.OM GenerateResult) : Open.OM ParseResult :=
  bind c (fun result => ret (toParseResult result)).

(** A host whose functions do nothing and return [undefined], with the
    builders of the one-to-one conversion. *)
Definition quietHost : Open.Host :=
  {| Open.call := fun _ _ _ => ret VUndefined;
     Open.numberToString := string_of_Z;
     Open.numberToString_safe := fun _ _ => eq_refl;
     Open.fields := fun _ => None |}.

(** The state of a freshly loaded module. *)
Definition state0 : Open.State :=
  {| Open.base := Demo.world0; Open.extraObject := 0 |}.

(** The end of [generateAST] (lines 217-225), with the conversion engine of
    this part. *)
Definition finishOpen (h : Open.Host) (env : Env) (code : value)
    (shouldProvideParserServices : bool)
    (found : option Program * option Native) : Open.OM GenerateResult :=
  (let '(relevantProgram, ast) := found in
   Open.onBase (assign (Extra.set_code (Some code))) ;;;
   ex <- gets (fun s => extra (Open.base s)) ;;
   converted <- Open.convert h env ast ex ;;
   ret (resultOf shouldProvideParserServices relevantProgram converted))%se.

(** The state in which the conversion runs. *)
Definition withCodeOpen (code : value) (s : Open.State) : Open.State :=
  {| Open.base := withCode code (Open.base s);
     Open.extraObject := Open.extraObject s |}.

(** A computation that calls no logger and leaves the warning flag and the
    object in [extra] alone. *)
Definition silentOpen {A} (c : Open.OM A) : Prop :=
  forall s,
    logsOf (trace (Open.base (snd (c s)))) = logsOf (trace (Open.base s)) /\
    warnedAboutTSVersion (Open.base (snd (c s))) =
      warnedAboutTSVersion (Open.base s) /\
    Open.extraObject (snd (c s)) = Open.extraObject s.

(** A computation whose result and agreed state depend on the agreed state
    only. *)
Definition agreesOpen {A} (c : Open.OM A) : Prop :=
  forall s1 s2, agree (Open.base s1) (Open.base s2) ->
    fst (c s1) = fst (c s2) /\
    agree (Open.base (snd (c s1))) (Open.base (snd (c s2))).

(** A caller whose function [again] calls [parse] on a text of its own,
    asking for ranges and silencing the logger. *)
Definition reenteringHost : Open.Host :=
  {| Open.call := fun src _ _ =>
       if String.eqb src "again"
       then bind (Open.parse quietHost unsupportedEnv (VStr "nested")
                    (VObj [("range", VBool true); ("loggerFn", VBool false)]))
                 (fun _ => ret VUndefined)
       else ret VUndefined;
     Open.numberToString := string_of_Z;
     Open.numberToString_safe := fun _ _ => eq_refl;
     Open.fields := fun _ => None |}.

(** The range of the root of a tree. *)
Definition rootRange (t : ESTree) : option (Z * Z) :=
  match es_root t with GNode _ _ range _ _ _ => range end.

(** The state in which the option block converts [options.source]: [range]
    and [loc] are set. *)
Definition beforeSource (options : value) (s : Open.State) : Open.State :=
  built (Extra.set_loc (isTrue (prop options "loc"))
           (Extra.set_range (isTrue (prop options "range")) defaultExtra)) s.

(** The range of the root of the tree that a call returned. *)
Definition returnedRange (r : result ParseResult) : result (option (Z * Z)) :=
  match r with
  | Ok r => Ok (rootRange (ast r))
  | Throw e => Throw e
  end.

(** The nodes of a generic tree, the root first. *)
Fixpoint nodesOf (g : Generic) : list Generic :=
  match g with
  | GNode _ _ _ _ _ children => g :: flat_map nodesOf children
  end.

(** The generic node is the one that the builder of the native node's kind
    makes of it: its kind string comes from the builder, or it is a
    passthrough node with the native kind name, and its range is the span
    of the native node when ranges are collected. *)
Definition builtFrom (env : Env) (ctx : Extra.t) (n : Native) (g : Generic) : Prop :=
  match n, g with
  | NNode kind pos end_ _ _, GNode _ type range _ kindName _ =>
      match builders env kind with
      | Some t => type = t /\ kindName = None
      | None => type = kind /\ kindName = Some kind
      end /\
      range = (if Extra.range ctx then Some (pos, end_) else None)
  end.

(** What holds of the registry all along a walk: a native node leads to a
    generic node that leads back to it; a generic node that is registered
    has been allocated, and its native node leads to the generic node
    registered for it last. *)
Definition tracked (s : ConvState) : Prop :=
  (forall q g,
     nativeToGeneric (cs_registry s) q = Some g ->
     genericToNative (cs_registry s) g = Some q) /\
  (forall g q,
     genericToNative (cs_registry s) g = Some q ->
     (g < cs_next s)%nat /\
     exists last,
       nativeToGeneric (cs_registry s) q = Some last /\ (g <= last)%nat).

Section WalkVocabulary.

Variables (env : Env) (ctx : Extra.t).

(** What a part of the walk, over the native node [n] at [path], adds to
    the registry: the entries under old identities stay, and every new
    entry leads from a node among [nodes] to the real native node that it
    was built from, in the subtree of [n]. *)
Definition entriesFrom (path : NodeRef) (n : Native) (nodes : list Generic)
    (s s' : ConvState) : Prop :=
  tracked s' /\
  (cs_next s <= cs_next s')%nat /\
  forall id q,
    genericToNative (cs_registry s') id = Some q ->
    if (id <? cs_next s)%nat
    then genericToNative (cs_registry s) id = Some q
    else exists p n' g',
           q = path ++ p /\ nativeAt n p = Some n' /\ nativeReal n' = true /\
           In g' nodes /\ genericId g' = id /\ builtFrom env ctx n' g'.

Definition walks (path : NodeRef) (n : Native) (c : SE ConvState Generic) : Prop :=
  forall s g s', tracked s -> c s = (Ok g, s') ->
    entriesFrom path n (nodesOf g) s s'.

Definition walksAll (path : NodeRef) (n : Native)
    (c : SE ConvState (list Generic)) : Prop :=
  forall s gs s', tracked s -> c s = (Ok gs, s') ->
    entriesFrom path n (flat_map nodesOf gs) s s'.

(** The conversions of the children of a node, each run when asked for. *)
Definition eachChild (h : Open.Host) (text : string) (path : NodeRef) :=
  fix each (i : nat) (cs : list Native) : list (SE ConvState Generic) :=
    match cs with
    | [] => []
    | c :: cs' => Open.convertNode h env ctx text (path ++ [i]) c :: each (S i) cs'
    end.

End WalkVocabulary.

(** A caller with the builder of a shorthand property, which converts the
    name twice, for the key and for the value. *)
Definition shorthandHost : Open.Host :=
  {| Open.call := fun _ _ _ => ret VUndefined;
     Open.numberToString := string_of_Z;
     Open.numberToString_safe := fun _ _ => eq_refl;
     Open.fields := fun kind =>
       if String.eqb kind "ShorthandPropertyAssignment"
       then Some [Open.Child 0; Open.Child 0] else None |}.

Definition shorthandEnv : Env :=
  {| isRunningSupportedTypeScriptVersion := true;
     SUPPORTED_TYPESCRIPT_VERSIONS := "~3.2.1";
     ACTIVE_TYPESCRIPT_VERSION := "3.2.1";
     ts_createSourceFile := Demo.createSourceFile;
     ts_createProgram := Demo.createProgram;
     readEntry := Demo.entries;
     parseConfig := Demo.parseConfigFile;
     buildProgram := Demo.build;
     builders := fun kind =>
       if String.eqb kind "ShorthandPropertyAssignment" then Some "Property"
       else Demo.builderTable kind;
     scanTokens := fun _ => [];
     scanComments := fun _ => [] |}.

(** The native tree of [a] in [({ a })]: the property and its name. *)
Definition shorthandTree : Native :=
  NNode "ShorthandPropertyAssignment" 2 3 true [NNode "Identifier" 2 3 true []].

(** Conversions run one after the other, in order. *)
Fixpoint runAll (conversions : list (SE ConvState Generic))
    : SE ConvState (list Generic) :=
  match conversions with
  | [] => ret []
  | c :: rest =>
      bind c (fun g => bind (runAll rest) (fun gs => ret (g :: gs)))
  end.

(** A host whose builders convert every child once, in source order. *)
Definition oneToOne (h : Open.Host) : Prop :=
  forall kind, Open.fields h kind = None.

(** A closed computation as one of this part. *)
Definition lifted {A} (c : M A) (s : Open.State) : result A * Open.State :=
  (fst (c (Open.base s)),
   {| Open.base := snd (c (Open.base s));
      Open.extraObject := Open.extraObject s |}).

(** What the two node maps say of a conversion of the native tree [root]
    into the generic tree [tree], whatever the builders are.  From the
    native side the round trip holds.  A generic node that is registered is
    a node of the tree, built from the real native node that it leads to;
    that native node leads back to the generic node registered for it last,
    which is the same one when no other generic node was built from it.
    The root of the tree is registered with a real root. *)
Definition nodeMapsOf (env : Env) (ctx : Extra.t) (root : Native)
    (tree : Generic) (toNative : gmap nat NodeRef) (toGeneric : gmap NodeRef nat)
    : Prop :=
  (forall q g, toGeneric !! q = Some g -> toNative !! g = Some q) /\
  (forall g q, toNative !! g = Some q ->
     (exists n' g',
        nativeAt root q = Some n' /\ nativeReal n' = true /\
        In g' (nodesOf tree) /\ genericId g' = g /\ builtFrom env ctx n' g') /\
     (exists last, toGeneric !! q = Some last /\ (g <= last)%nat) /\
     ((forall g2, toNative !! g2 = Some q -> g2 = g) ->
      toGeneric !! q = Some g)) /\
  (nativeReal root = true ->
   toNative !! genericId tree = Some [] /\
   toGeneric !! [] = Some (genericId tree)).

(** What the two node maps say when every builder converts every child
    once: the maps are inverse of each other, the generic tree has the
    shape of the native tree, and the generic node at a position is
    registered with the native node at that position exactly when that node
    is real. *)
Definition nodeMapsInPlace (root : Native) (tree : Generic)
    (toNative : gmap nat NodeRef) (toGeneric : gmap NodeRef nat) : Prop :=
  (forall g q, toNative !! g = Some q <-> toGeneric !! q = Some g) /\
  (forall p,
     match nativeAt root p, genericAt tree p with
     | Some n', Some g' =>
         if nativeReal n'
         then toNative !! genericId g' = Some p /\
              toGeneric !! p = Some (genericId g')
         else toNative !! genericId g' = None
     | None, None => True
     | _, _ => False
     end).

(** A caller whose functions return and leave the module alone. *)
Definition returnsQuietly (h : Open.Host) : Prop :=
  forall src this args s, exists v, Open.call h src this args s = (Ok v, s).

(** A computation of this part that does what a closed one does. *)
Definition lifts {A} (c : M A) (o : Open.OM A) : Prop :=
  forall s, o s = lifted c s.

(** * Properties *)

(** ** The model at work *)

Example string_conversion :
  toString (VArr [VNum 1; VNull; VNum (-20); VArr [VStr "a"; VObj []]]) =
  "1,,-20,a,[object Object]".
Proof. reflexivity. Qed.

Example line_and_column :
  offsetToLineColumn ("a" +:+ String (ascii_of_nat 13) newline +:+ "bc") 4 =
  {| line := 2; column := 1 |}.
Proof. reflexivity. Qed.

Example options_are_read :
  extra (snd (bind resetExtra (fun _ =>
                readOptions
                  (VObj [("range", VBool true); ("loc", VStr "true");
                         ("loggerFn", VBool false);
                         ("ecmaFeatures", VObj [("jsx", VBool true)]);
                         ("project", VStr "./tsconfig.json")]))
                Demo.world0)) =
  Extra.set_project ["./tsconfig.json"]
    (Extra.set_log FunctionPrototype
       (Extra.set_ecmaFeatures_jsx (VBool true)
          (Extra.set_range true defaultExtra))).
Proof. reflexivity. Qed.

Example null_options :
  fst (parse Demo.env (VStr "x") VNull Demo.world0) =
  Throw (TypeError "Cannot read property 'range' of null").
Proof. reflexivity. Qed.

(** The three failing configurations of the semantic-information tests. *)
Example non_existent_project_file :
  fst (parse Demo.env (VStr "x")
         (VObj [("filePath", VStr "main.ts"); ("project", VStr "./tsconfigs.json")])
         Demo.world0) =
  Throw (ProjectNotFound "./tsconfigs.json").
Proof. vm_compute. reflexivity. Qed.

Example fail_to_read_project_file :
  fst (parse Demo.env (VStr "x")
         (VObj [("filePath", VStr "main.ts"); ("project", VStr ".")])
         Demo.world0) =
  Throw (ProjectReadFailure ".").
Proof. vm_compute. reflexivity. Qed.

Example malformed_project_file :
  fst (parse Demo.env (VStr "x")
         (VObj [("filePath", VStr "main.ts");
                ("project", VStr "./badTSConfig/tsconfig.json")])
         Demo.world0) =
  Throw (ProjectMalformed "./badTSConfig/tsconfig.json").
Proof. vm_compute. reflexivity. Qed.

(** A file of the project: the program of the project is returned and the
    maps take the identifier to its native node and back. *)
Example isolated_file :
  match fst (parse Demo.env (VStr "abc")
               (VObj [("range", VBool true); ("filePath", VStr "main.ts");
                      ("project", VStr "./tsconfig.json")])
               Demo.world0) with
  | Ok r =>
      es_root (ast r) =
        GNode 3 "Program" (Some (0, 3)) None None
          [GNode 1 "ExpressionStatement" (Some (0, 3)) None None
             [GNode 0 "Identifier" (Some (0, 3)) None None []];
           GNode 2 "Punctuator" (Some (3, 3)) None None []] /\
      (rootNames <$> sv_program (services r)) = Some ["main.ts"] /\
      (sv_esTreeNodeToTSNodeMap (services r) ≫= (.!! O)) = Some [O; O] /\
      (sv_tsNodeToESTreeNodeMap (services r) ≫= (.!! [O; O])) = Some O /\
      (sv_esTreeNodeToTSNodeMap (services r) ≫= (.!! 2%nat)) = None
  | Throw _ => False
  end.
Proof. vm_compute. repeat split. Qed.


(** ** Reading the options *)

Lemma getProp_ok o k : nullish o = false -> getProp o k = Ok (prop o k).
Proof. destruct o; simpl; intros H; try discriminate; reflexivity. Qed.

Lemma set_extra_same w : set_extra (extra w) w = w.
Proof. destruct w; reflexivity. Qed.

Lemma set_extra_twice e e' w : set_extra e (set_extra e' w) = set_extra e w.
Proof. reflexivity. Qed.

Lemma updates_assign f : updates (assign f) f.
Proof. intros w; reflexivity. Qed.

Lemma updates_ret : updates (ret tt) (fun e => e).
Proof. intros w; unfold ret; rewrite set_extra_same; reflexivity. Qed.

Lemma updates_when b c f :
  (b = true -> updates c f) -> updates (when b c) (cond b f).
Proof. destruct b; simpl; [auto | intros _; apply updates_ret]. Qed.

Lemma updates_bind c f k g :
  updates c f -> updates (k tt) g ->
  updates (bind c k) (fun e => g (f e)).
Proof.
  intros Hc Hk w. unfold bind. rewrite Hc, Hk. reflexivity.
Qed.

Lemma updates_lift (v : value) k f :
  updates (k v) f -> updates (bind (lift (Ok v)) k) f.
Proof. intros H w. apply H. Qed.

Lemma updates_ext c f g : updates c f -> (forall e, f e = g e) -> updates c g.
Proof. intros H E w. rewrite H, E. reflexivity. Qed.

Lemma updates_loggerFn (loggerFn : value) :
  updates
    match loggerFn with
    | VFun src => assign (Extra.set_log (LoggerFn src))
    | _ => when (isFalse loggerFn) (assign (Extra.set_log FunctionPrototype))
    end
    (fun e => match loggerFn with
              | VFun src => Extra.set_log (LoggerFn src) e
              | _ => cond (isFalse loggerFn) (Extra.set_log FunctionPrototype) e
              end).
Proof.
  destruct loggerFn;
    first [ apply updates_assign
          | apply (updates_when _ _ _ (fun _ => updates_assign _)) ].
Qed.

Lemma updates_project (project : value) :
  updates
    match project with
    | VStr s => assign (Extra.set_project [s])
    | VArr items =>
        when (everyString items) (assign (Extra.set_project (stringsOf items)))
    | _ => ret tt
    end
    (fun e => match project with
              | VStr s => Extra.set_project [s] e
              | VArr items =>
                  cond (everyString items) (Extra.set_project (stringsOf items)) e
              | _ => e
              end).
Proof.
  destruct project;
    first [ apply updates_assign
          | apply (updates_when _ _ _ (fun _ => updates_assign _))
          | apply updates_ret ].
Qed.

Lemma truthy_object_not_nullish v :
  truthy v && String.eqb (typeof v) "object" = true -> nullish v = false.
Proof. destruct v; simpl; intros H; try reflexivity; discriminate. Qed.

Lemma readOptions_updates options :
  nullish options = false ->
  updates (readOptions options) (optionsUpdate options).
Proof.
  intros Hn.
  assert (Ht : String.eqb (typeof options) "undefined" = false)
    by (destruct options; try reflexivity; discriminate).
  unfold readOptions. rewrite Ht. simpl negb. unfold when at 1.
  rewrite !(getProp_ok options) by assumption.
  eapply updates_ext.
  - repeat first
      [ apply updates_lift
      | apply updates_loggerFn
      | apply updates_project
      | eapply updates_bind
      | apply updates_assign
      | apply updates_when; intros ?
      | apply updates_ret ].
    rewrite getProp_ok by (apply truthy_object_not_nullish; assumption).
    apply updates_lift, updates_assign.
  - intros e. reflexivity.
Qed.

Lemma readOptions_undefined w : readOptions VUndefined w = (Ok tt, w).
Proof. reflexivity. Qed.

Lemma readOptions_null w :
  readOptions VNull w =
  (Throw (TypeError "Cannot read property 'range' of null"), w).
Proof. reflexivity. Qed.

Lemma readOptions_context options w :
  isNull options = false ->
  readOptions options (set_extra defaultExtra w) =
  (Ok tt, set_extra (contextOf options) w).
Proof.
  intros Hn. unfold contextOf.
  destruct (isUndefined options) eqn:Hu.
  - destruct options; try discriminate. reflexivity.
  - rewrite readOptions_updates by (unfold nullish; rewrite Hu, Hn; reflexivity).
    reflexivity.
Qed.

(** ** The blocks of [generateAST], one by one *)

Section Blocks.

Variable env : Env.

Lemma warnAboutTSVersion_ok w :
  warnAboutTSVersion env w = (Ok tt, afterWarning env w).
Proof.
  unfold afterWarning, warnAboutTSVersion, bind, gets, when.
  destruct (negb (isRunningSupportedTypeScriptVersion env) && negb (warnedAboutTSVersion w));
    [| reflexivity].
  destruct (Extra.log (extra w)); reflexivity.
Qed.

Lemma afterWarning_frame w :
  extra (afterWarning env w) = extra w /\
  knownPrograms (afterWarning env w) = knownPrograms w /\
  nextNodeId (afterWarning env w) = nextNodeId w /\
  resolutions (trace (afterWarning env w)) = resolutions (trace w).
Proof.
  unfold afterWarning, warnAboutTSVersion, bind, gets, when.
  destruct (negb (isRunningSupportedTypeScriptVersion env) && negb (warnedAboutTSVersion w));
    [| simpl; auto].
  destruct (Extra.log (extra w)); simpl; repeat split;
    unfold resolutions; rewrite ?omap_app; simpl; rewrite ?app_nil_r; reflexivity.
Qed.

Lemma generateAST_unfold code options w :
  isNull options = false ->
  generateAST env code options w =
  afterContext env (coerceCode code) options
    (afterWarning env (set_extra (contextOf options) w)).
Proof.
  intros Hn. unfold generateAST.
  unfold bind at 1. unfold resetExtra, modify.
  unfold bind at 1. rewrite readOptions_context by assumption.
  unfold bind at 1. rewrite warnAboutTSVersion_ok.
  reflexivity.
Qed.

Lemma generateAST_null code w :
  generateAST env code VNull w =
  (Throw (TypeError "Cannot read property 'range' of null"),
   set_extra defaultExtra w).
Proof. reflexivity. Qed.

(** *** Project resolution, as a function of the cache *)

Lemma stepWorld_stepWorld w c evs c' evs' :
  stepWorld (stepWorld w c evs) c' evs' = stepWorld w c' (evs ++ evs').
Proof. unfold stepWorld; simpl. rewrite app_assoc. reflexivity. Qed.

Lemma stepWorld_nil w : stepWorld w (knownPrograms w) [] = w.
Proof. destruct w; unfold stepWorld; simpl. rewrite app_nil_r. reflexivity. Qed.

Variables code options : value.

Lemma resolveProject_eq configPath w :
  resolveProject env code options configPath w =
  (fst (resolveOutcome env code options configPath (knownPrograms w)),
   stepWorld w (snd (resolveOutcome env code options configPath (knownPrograms w)))
     [EvResolve configPath]).
Proof.
  unfold resolveProject, resolveOutcome, bind, modify, gets, throw, ret.
  destruct (readEntry env configPath) as [| |content]; try reflexivity.
  change (knownPrograms (emit (EvResolve configPath) w)) with (knownPrograms w).
  destruct (knownPrograms w !! configPath) as [[content' p]|].
  - destruct (String.eqb content' content); [reflexivity|].
    destruct (parseConfig env configPath content); reflexivity.
  - destruct (parseConfig env configPath content); reflexivity.
Qed.

Lemma findRelevantProgram_eq project FILENAME w :
  findRelevantProgram
    (calculateProjectParserOptions env code options project) FILENAME w =
  (fst (fst (scan env code options project FILENAME (knownPrograms w))),
   stepWorld w (snd (fst (scan env code options project FILENAME (knownPrograms w))))
     (snd (scan env code options project FILENAME (knownPrograms w)))).
Proof.
  revert w. induction project as [|configPath rest IH]; intros w.
  - simpl. rewrite stepWorld_nil. reflexivity.
  - simpl calculateProjectParserOptions. simpl findRelevantProgram.
    unfold bind at 1. rewrite resolveProject_eq. simpl scan.
    destruct (resolveOutcome env code options configPath (knownPrograms w)) as [[p|e] cache1];
      simpl; [|reflexivity].
    unfold bind at 1. unfold askSourceFile at 1.
    unfold bind at 1, modify, ret.
    destruct (getSourceFile p FILENAME) as [a|] eqn:Hsf.
    + simpl. unfold stepWorld, emit; simpl. rewrite <- app_assoc. reflexivity.
    + fold (calculateProjectParserOptions env code options rest).
      rewrite IH. simpl knownPrograms.
      destruct (scan env code options rest FILENAME cache1) as [[r cache2] evs]. simpl.
      unfold stepWorld, emit; simpl. rewrite <- !app_assoc. reflexivity.
Qed.

(** *** The isolated program and the conversion *)

Lemma isolatedProgram_eq ex w :
  isolatedProgram env code ex w =
  (Ok (Some (isolatedOf env code ex),
       getSourceFile (isolatedOf env code ex) (VStr (isolatedFileName ex))),
   stepWorld w (knownPrograms w)
     [EvGetSourceFile (isolatedOf env code ex) (VStr (isolatedFileName ex))]).
Proof. reflexivity. Qed.

Lemma convert_eq ctx root w :
  convert env (Some root) ctx w =
  (match fst (convertFrom env ctx root (nextNodeId w)) with
   | Ok g => Ok (conversionOf env ctx g (snd (convertFrom env ctx root (nextNodeId w))))
   | Throw e => Throw e
   end,
   set_nextNodeId (cs_next (snd (convertFrom env ctx root (nextNodeId w)))) w).
Proof.
  unfold convert, convertFrom, conversionOf.
  destruct (convertNode env ctx (sourceText ctx) [] root _) as [[g|e] s];
    reflexivity.
Qed.

(** *** The end of [generateAST] (lines 217-225) *)

Lemma finish_eq should relevantProgram ast w :
  finish env code should (relevantProgram, ast) w =
  (match fst (convert env ast (extra (withCode code w)) (withCode code w)) with
   | Ok converted => Ok (resultOf should relevantProgram converted)
   | Throw e => Throw e
   end,
   snd (convert env ast (extra (withCode code w)) (withCode code w))).
Proof.
  unfold finish, bind, assign, modify, gets, ret.
  fold (withCode code w).
  destruct (convert env ast (extra (withCode code w)) (withCode code w)) as [[c|e] w'];
    reflexivity.
Qed.

Lemma convert_frame ast ctx w :
  extra (snd (convert env ast ctx w)) = extra w /\
  knownPrograms (snd (convert env ast ctx w)) = knownPrograms w /\
  trace (snd (convert env ast ctx w)) = trace w /\
  warnedAboutTSVersion (snd (convert env ast ctx w)) = warnedAboutTSVersion w.
Proof.
  destruct ast as [root|]; [rewrite convert_eq|]; simpl; auto.
Qed.

Lemma afterContext_eq w :
  afterContext env code options w =
  let should := (0 <? length (Extra.project (extra w)))%nat in
  match (if should then
           bind (lift (getProp options "filePath")) (fun FILENAME =>
             findRelevantProgram
               (calculateProjectParserOptions env code options
                  (Extra.project (extra w))) FILENAME)
         else ret (None, None)) w with
  | (Throw e, w1) => (Throw e, w1)
  | (Ok found, w1) =>
      match (match snd found with
             | None => isolatedProgram env code (extra w)
             | Some _ => ret found
             end) w1 with
      | (Throw e, w2) => (Throw e, w2)
      | (Ok found', w2) => finish env code should found' w2
      end
  end.
Proof.
  unfold afterContext. unfold bind at 1. unfold gets. cbv zeta.
  unfold bind at 1.
  match goal with |- match ?c w with _ => _ end = _ => destruct (c w) as [[found|e] w1] end;
    [|reflexivity].
  unfold bind at 1.
  match goal with |- match ?c w1 with _ => _ end = _ => destruct (c w1) as [[[rp a]|e] w2] end;
    reflexivity.
Qed.

(** *** Facts about the loop *)

Lemma visits_app FILENAME s1 s2 :
  visits FILENAME (s1 ++ s2) = visits FILENAME s1 ++ visits FILENAME s2.
Proof. unfold visits. apply flat_map_app. Qed.

(** A loop that ends without a match has resolved every path to a program
    that does not have the file. *)
Lemma scan_none project FILENAME cache r cache' evs :
  scan env code options project FILENAME cache = (Ok (None, r), cache', evs) ->
  r = None /\
  exists programs,
    length programs = length project /\
    Forall (fun p => getSourceFile p FILENAME = None) programs /\
    evs = visits FILENAME (zip project programs).
Proof.
  revert cache cache' evs.
  induction project as [|configPath rest IH]; intros cache cache' evs; simpl.
  - intros [= <- <- <-]. split; [reflexivity|]. exists []. auto.
  - destruct (resolveOutcome env code options configPath cache) as [[p|e] cache1]; [|discriminate].
    destruct (getSourceFile p FILENAME) as [a|] eqn:Hsf; [discriminate|].
    destruct (scan env code options rest FILENAME cache1) as [[r' cache2] evs'] eqn:Hs.
    intros [= -> <- <-].
    destruct (IH _ _ _ Hs) as [-> (programs & Hlen & Hall & ->)].
    split; [reflexivity|]. exists (p :: programs). simpl.
    repeat split; auto.
Qed.

(** A match after a run of misses: the paths after the match play no part. *)
Lemma scan_first_match pre m post FILENAME cache cache1 evs1 p cache2 a :
  scan env code options pre FILENAME cache = (Ok (None, None), cache1, evs1) ->
  resolveOutcome env code options m cache1 = (Ok p, cache2) ->
  getSourceFile p FILENAME = Some a ->
  scan env code options (pre ++ m :: post) FILENAME cache =
  (Ok (Some p, Some a), cache2,
   evs1 ++ [EvResolve m; EvGetSourceFile p FILENAME]).
Proof.
  revert cache cache1 evs1.
  induction pre as [|configPath rest IH]; intros cache cache1 evs1; simpl.
  - intros [= <- <-] Hm Hsf. rewrite Hm, Hsf. reflexivity.
  - destruct (resolveOutcome env code options configPath cache) as [[q|e] cache0]; [|discriminate].
    destruct (getSourceFile q FILENAME) as [b|] eqn:Hq; [discriminate|].
    destruct (scan env code options rest FILENAME cache0) as [[r' cache'] evs'] eqn:Hs.
    intros [= -> <- <-] Hm Hsf.
    rewrite (IH _ _ _ Hs Hm Hsf). reflexivity.
Qed.

(** A failing resolution after a run of misses. *)
Lemma scan_first_failure pre bad post FILENAME cache cache1 evs1 e cache2 :
  scan env code options pre FILENAME cache = (Ok (None, None), cache1, evs1) ->
  resolveOutcome env code options bad cache1 = (Throw e, cache2) ->
  scan env code options (pre ++ bad :: post) FILENAME cache =
  (Throw e, cache2, evs1 ++ [EvResolve bad]).
Proof.
  revert cache cache1 evs1.
  induction pre as [|configPath rest IH]; intros cache cache1 evs1; simpl.
  - intros [= <- <-] Hm. rewrite Hm. reflexivity.
  - destruct (resolveOutcome env code options configPath cache) as [[q|e'] cache0]; [|discriminate].
    destruct (getSourceFile q FILENAME) as [b|] eqn:Hq; [discriminate|].
    destruct (scan env code options rest FILENAME cache0) as [[r' cache'] evs'] eqn:Hs.
    intros [= -> <- <-] Hm.
    rewrite (IH _ _ _ Hs Hm). reflexivity.
Qed.

(** The paths taken up by the loop are an initial part of the list. *)
Lemma scan_prefix project FILENAME cache :
  exists k,
    resolutions (snd (scan env code options project FILENAME cache)) = take k project.
Proof.
  revert cache. induction project as [|configPath rest IH]; intros cache; simpl.
  - exists O. reflexivity.
  - destruct (resolveOutcome env code options configPath cache) as [[p|e] cache1].
    + destruct (getSourceFile p FILENAME) as [a|].
      * exists 1%nat. simpl. rewrite take_0. reflexivity.
      * destruct (IH cache1) as [k Hk].
        destruct (scan env code options rest FILENAME cache1) as [[r c] evs].
        exists (S k). simpl in *. unfold resolutions in *. simpl.
        rewrite Hk. reflexivity.
    + exists 1%nat. simpl. rewrite take_0. reflexivity.
Qed.

(** Without project configurations: the isolated program, no services. *)
Lemma afterContext_no_project w :
  Extra.project (extra w) = [] ->
  afterContext env code options w =
  finish env code false
    (Some (isolatedOf env code (extra w)),
     getSourceFile (isolatedOf env code (extra w)) (VStr (isolatedFileName (extra w))))
    (stepWorld w (knownPrograms w)
       [EvGetSourceFile (isolatedOf env code (extra w)) (VStr (isolatedFileName (extra w)))]).
Proof.
  intros Hp. rewrite afterContext_eq. rewrite Hp. reflexivity.
Qed.

End Blocks.

(** ** Fields of the context *)

Lemma cond_skip {A B} (proj : A -> B) b f e :
  (forall e', proj (f e') = proj e') -> proj (cond b f e) = proj e.
Proof. intros H. destruct b; simpl; auto. Qed.

Lemma cond_hit {A B} (proj : A -> B) b (f : A -> A) e :
  proj (cond b f e) = if b then proj (f e) else proj e.
Proof. destruct b; reflexivity. Qed.

Lemma loggerFn_skip {B} (proj : Extra.t -> B) (loggerFn : value) e :
  (forall l e', proj (Extra.set_log l e') = proj e') ->
  proj match loggerFn with
       | VFun src => Extra.set_log (LoggerFn src) e
       | _ => cond (isFalse loggerFn) (Extra.set_log FunctionPrototype) e
       end = proj e.
Proof.
  intros H. destruct loggerFn; rewrite ?cond_skip; auto.
Qed.

Lemma project_skip {B} (proj : Extra.t -> B) (project : value) e :
  (forall l e', proj (Extra.set_project l e') = proj e') ->
  proj match project with
       | VStr s => Extra.set_project [s] e
       | VArr items =>
           cond (everyString items) (Extra.set_project (stringsOf items)) e
       | _ => e
       end = proj e.
Proof.
  intros H. destruct project; rewrite ?cond_skip; auto.
Qed.

(** Push a field projection through the updates that leave the field alone. *)
Ltac peel proj :=
  unfold optionsUpdate; cbv zeta;
  rewrite ?(project_skip proj) by reflexivity;
  rewrite ?(loggerFn_skip proj) by reflexivity;
  rewrite ?(cond_skip proj) by reflexivity;
  cbn [Extra.tokens Extra.range Extra.loc Extra.comment
       Extra.tolerant Extra.useJSXTextNode Extra.project
       Extra.errorOnUnknownASTType
       Extra.set_tokens Extra.set_range Extra.set_loc
       Extra.set_comment Extra.set_comments Extra.set_errors
       Extra.set_ecmaFeatures_jsx Extra.set_useJSXTextNode
       Extra.set_log Extra.set_project Extra.set_source
       Extra.set_errorOnUnknownASTType Extra.set_code].

Lemma isTrue_iff v : isTrue v = true <-> v = VBool true.
Proof.
  destruct v as [| |[]| | | | | |]; simpl; split; intros H;
    try discriminate; reflexivity.
Qed.

Lemma optionsUpdate_project options e :
  Extra.project (optionsUpdate options e) =
  match prop options "project" with
  | VStr s => [s]
  | VArr items => if everyString items then stringsOf items else Extra.project e
  | _ => Extra.project e
  end.
Proof.
  unfold optionsUpdate; cbv zeta.
  destruct (prop options "project"); rewrite ?(cond_hit Extra.project);
    peel Extra.project; reflexivity.
Qed.

Lemma optionsUpdate_range options e :
  Extra.range (optionsUpdate options e) = isTrue (prop options "range").
Proof. peel Extra.range. reflexivity. Qed.

Lemma optionsUpdate_loc options e :
  Extra.loc (optionsUpdate options e) = isTrue (prop options "loc").
Proof. peel Extra.loc. reflexivity. Qed.

Lemma optionsUpdate_tokens options e :
  Extra.tokens (optionsUpdate options e) =
  if isTrue (prop options "tokens") then Some [] else Extra.tokens e.
Proof. peel Extra.tokens. rewrite (cond_hit Extra.tokens). peel Extra.tokens. reflexivity. Qed.

Lemma optionsUpdate_comment options e :
  Extra.comment (optionsUpdate options e) =
  if isTrue (prop options "comment") then true else Extra.comment e.
Proof. peel Extra.comment. rewrite (cond_hit Extra.comment). peel Extra.comment. reflexivity. Qed.

Lemma optionsUpdate_useJSXTextNode options e :
  Extra.useJSXTextNode (optionsUpdate options e) =
  if isTrue (prop options "useJSXTextNode") then true
  else Extra.useJSXTextNode e.
Proof.
  peel Extra.useJSXTextNode. rewrite (cond_hit Extra.useJSXTextNode). peel Extra.useJSXTextNode.
  reflexivity.
Qed.

Lemma optionsUpdate_tolerant options e :
  Extra.tolerant (optionsUpdate options e) = Extra.tolerant e.
Proof. peel Extra.tolerant. reflexivity. Qed.

Lemma optionsUpdate_errorOnUnknownASTType options e :
  Extra.errorOnUnknownASTType (optionsUpdate options e) =
  if truthy (prop options "errorOnUnknownASTType") then true
  else Extra.errorOnUnknownASTType e.
Proof.
  peel Extra.errorOnUnknownASTType. rewrite (cond_hit Extra.errorOnUnknownASTType).
  peel Extra.errorOnUnknownASTType. reflexivity.
Qed.

(** ** The context a call builds from its options *)

Lemma contextBuilt_eq options w :
  contextBuilt options w =
  if isNull options then defaultExtra else contextOf options.
Proof.
  unfold contextBuilt, bind, resetExtra, modify.
  destruct (isNull options) eqn:Hn.
  - destruct options; try discriminate. reflexivity.
  - rewrite readOptions_context by assumption. reflexivity.
Qed.

Lemma contextOf_optionsUpdate options :
  contextOf options = optionsUpdate options defaultExtra.
Proof.
  unfold contextOf. destruct options; try reflexivity.
Qed.

Lemma contextBuilt_optionsUpdate options w :
  contextBuilt options w = optionsUpdate options defaultExtra.
Proof.
  rewrite contextBuilt_eq, contextOf_optionsUpdate.
  destruct options; reflexivity.
Qed.

Lemma lookupProp_removeProp k k' props :
  lookupProp k' (removeProp k props) =
  if String.eqb k k' then VUndefined else lookupProp k' props.
Proof.
  induction props as [|[k0 v] rest IH]; simpl.
  - destruct (String.eqb k k'); reflexivity.
  - destruct (String.eqb_spec k0 k) as [->|Hne]; simpl.
    + destruct (String.eqb_spec k k') as [->|Hne']; [exact IH|].
      rewrite IH. destruct (String.eqb_spec k k'); [contradiction|reflexivity].
    + destruct (String.eqb_spec k0 k') as [->|Hne'].
      * destruct (String.eqb_spec k k') as [->|_]; [contradiction|reflexivity].
      * exact IH.
Qed.

Lemma isTrue_not_true v : v <> VBool true -> isTrue v = false.
Proof.
  intros H. destruct (isTrue v) eqn:E; [|reflexivity].
  apply isTrue_iff in E. contradiction.
Qed.

(** The update depends on the options through these readings only. *)
Lemma optionsUpdate_congr o o' e :
  isTrue (prop o "range") = isTrue (prop o' "range") ->
  isTrue (prop o "loc") = isTrue (prop o' "loc") ->
  isTrue (prop o "tokens") = isTrue (prop o' "tokens") ->
  isTrue (prop o "comment") = isTrue (prop o' "comment") ->
  isTrue (prop o "tolerant") = isTrue (prop o' "tolerant") ->
  isTrue (prop o "useJSXTextNode") = isTrue (prop o' "useJSXTextNode") ->
  prop o "source" = prop o' "source" ->
  prop o "ecmaFeatures" = prop o' "ecmaFeatures" ->
  prop o "errorOnUnknownASTType" = prop o' "errorOnUnknownASTType" ->
  prop o "loggerFn" = prop o' "loggerFn" ->
  prop o "project" = prop o' "project" ->
  optionsUpdate o e = optionsUpdate o' e.
Proof.
  intros H1 H2 H3 H4 H5 H6 H7 H8 H9 H10 H11. unfold optionsUpdate.
  rewrite H1, H2, H3, H4, H5, H6, H7, H8, H9, H10, H11. reflexivity.
Qed.

Lemma prop_removeProp k k' props :
  prop (VObj (removeProp k props)) k' =
  if String.eqb k k' then VUndefined else prop (VObj props) k'.
Proof. unfold prop, getProp. apply lookupProp_removeProp. Qed.

(** Removing a boolean option that is not [true] changes no update. *)
Lemma optionsUpdate_removeProp k props e :
  In k booleanOptions ->
  lookupProp k props <> VBool true ->
  optionsUpdate (VObj (removeProp k props)) e = optionsUpdate (VObj props) e.
Proof.
  intros Hin Hv. apply isTrue_not_true in Hv.
  change (lookupProp k props) with (prop (VObj props) k) in Hv.
  simpl in Hin.
  destruct Hin as [<-|[<-|[<-|[<-|[<-|[<-|[]]]]]]];
    apply optionsUpdate_congr; rewrite prop_removeProp; simpl String.eqb;
    cbv iota; rewrite ?Hv; reflexivity.
Qed.

(** ** From [generateAST] to [parse] *)

Lemma parse_eq env code options w :
  parse env code options w =
  (match fst (generateAST env code options w) with
   | Ok r => Ok (toParseResult r)
   | Throw e => Throw e
   end,
   snd (generateAST env code options w)).
Proof.
  unfold parse, bind.
  destruct (generateAST env code options w) as [[r|e] w']; reflexivity.
Qed.

Lemma everyString_false items :
  (exists v, In v items /\ typeof v <> "string") -> everyString items = false.
Proof.
  intros [v [Hin Hv]]. unfold everyString.
  destruct (forallb _ items) eqn:E; [|reflexivity].
  rewrite forallb_forall in E. specialize (E v Hin).
  apply String.eqb_eq in E. contradiction.
Qed.

Lemma prop_not_undefined_isObject o k :
  prop o k <> VUndefined -> isNull o = false.
Proof. destruct o; simpl; intros H; try reflexivity. contradiction. Qed.

Lemma resolutions_app t1 t2 :
  resolutions (t1 ++ t2) = resolutions t1 ++ resolutions t2.
Proof. unfold resolutions. apply omap_app. Qed.

(** ** What the options and the code argument do *)






(** ** Two runs from worlds that differ in the module variables *)

Lemma agrees_ret {A} (a : A) : agrees (ret a).
Proof. intros w1 w2 H. simpl. auto. Qed.

Lemma agrees_lift {A} (r : result A) : agrees (lift r).
Proof. intros w1 w2 H. simpl. auto. Qed.

Lemma agrees_bind {A B} (c : M A) (k : A -> M B) :
  agrees c -> (forall a, agrees (k a)) -> agrees (bind c k).
Proof.
  intros Hc Hk w1 w2 H. unfold bind.
  destruct (Hc w1 w2 H) as [Hr Hw].
  destruct (c w1) as [[a1|e1] w1'], (c w2) as [[a2|e2] w2']; simpl in *;
    try discriminate.
  - injection Hr as ->. apply Hk. exact Hw.
  - injection Hr as ->. auto.
Qed.

Lemma agrees_gets_extra : agrees (gets extra).
Proof.
  intros w1 w2 H. unfold gets. simpl. split; [|exact H].
  destruct H as [-> _]. reflexivity.
Qed.

Lemma agrees_assign f : agrees (assign f).
Proof.
  intros w1 w2 (He & Hc & Hn). unfold assign, modify, agree. simpl.
  rewrite He. auto.
Qed.

Lemma agrees_emit ev : agrees (modify (emit ev)).
Proof. intros w1 w2 H. unfold modify, agree in *. simpl. auto. Qed.

Lemma agrees_warnAboutTSVersion env : agrees (warnAboutTSVersion env).
Proof.
  intros w1 w2 (He & Hc & Hn). rewrite !warnAboutTSVersion_ok. simpl.
  split; [reflexivity|]. unfold agree.
  destruct (afterWarning_frame env w1) as (-> & -> & -> & _).
  destruct (afterWarning_frame env w2) as (-> & -> & -> & _). auto.
Qed.

Lemma agrees_resolveProject env code options configPath :
  agrees (resolveProject env code options configPath).
Proof.
  intros w1 w2 (He & Hc & Hn). rewrite !resolveProject_eq. simpl.
  rewrite Hc. split; [reflexivity|]. unfold agree. simpl. auto.
Qed.

Lemma agrees_askSourceFile p FILENAME : agrees (askSourceFile p FILENAME).
Proof.
  unfold askSourceFile. apply agrees_bind; [apply agrees_emit|].
  intros _. apply agrees_ret.
Qed.

Lemma agrees_findRelevantProgram programs FILENAME :
  Forall agrees programs -> agrees (findRelevantProgram programs FILENAME).
Proof.
  induction 1 as [|next rest Hnext Hrest IH]; simpl.
  - apply agrees_ret.
  - apply agrees_bind; [exact Hnext|]. intros program.
    apply agrees_bind; [apply agrees_askSourceFile|]. intros [a|].
    + apply agrees_ret.
    + exact IH.
Qed.

Lemma agrees_calculateProjectParserOptions env code options project :
  Forall agrees (calculateProjectParserOptions env code options project).
Proof.
  unfold calculateProjectParserOptions. rewrite Forall_map.
  apply Forall_forall. intros configPath _. apply agrees_resolveProject.
Qed.

Lemma agrees_isolatedProgram env code ex : agrees (isolatedProgram env code ex).
Proof.
  unfold isolatedProgram. apply agrees_bind; [apply agrees_askSourceFile|].
  intros a. apply agrees_ret.
Qed.

Lemma agrees_convert env ast ctx : agrees (convert env ast ctx).
Proof.
  intros w1 w2 (He & Hc & Hn). destruct ast as [root|].
  - rewrite !convert_eq. simpl. rewrite Hn. split; [reflexivity|].
    unfold agree. simpl. auto.
  - simpl. unfold agree. auto.
Qed.

Lemma agrees_afterContext env code options :
  agrees (afterContext env code options).
Proof.
  unfold afterContext.
  apply agrees_bind; [apply agrees_gets_extra|]. intros ex.
  apply agrees_bind.
  { destruct (0 <? length (Extra.project ex))%nat; [|apply agrees_ret].
    apply agrees_bind; [apply agrees_lift|]. intros FILENAME.
    apply agrees_findRelevantProgram, agrees_calculateProjectParserOptions. }
  intros found. apply agrees_bind.
  { destruct (snd found); [apply agrees_ret | apply agrees_isolatedProgram]. }
  intros [relevantProgram a].
  apply agrees_bind; [apply agrees_assign|]. intros _.
  apply agrees_bind; [apply agrees_gets_extra|]. intros ex'.
  apply agrees_bind; [apply agrees_convert|]. intros converted.
  apply agrees_ret.
Qed.

(** ** Calls with project configurations *)

Lemma loopStart_frame env options w :
  extra (loopStart env options w) = contextBuilt options w /\
  knownPrograms (loopStart env options w) = knownPrograms w /\
  nextNodeId (loopStart env options w) = nextNodeId w /\
  resolutions (trace (loopStart env options w)) = resolutions (trace w).
Proof.
  unfold loopStart.
  destruct (afterWarning_frame env (set_extra (contextBuilt options w) w))
    as (-> & -> & -> & ->). auto.
Qed.

Lemma project_given_not_nullish options w :
  Extra.project (contextBuilt options w) <> [] -> nullish options = false.
Proof.
  rewrite contextBuilt_optionsUpdate.
  destruct options; try reflexivity; intros H; exfalso; apply H; reflexivity.
Qed.

Lemma nullish_isNull v : nullish v = false -> isNull v = false.
Proof. destruct v; simpl; intros H; try reflexivity; discriminate. Qed.

(** The three ways a call with a project list goes on after the loop. *)
Section WithProject.

Variables (env : Env) (code options : value) (w : World).
Hypothesis Hgiven : Extra.project (contextBuilt options w) <> [].

Let FILENAME := prop options "filePath".
Let programs :=
  calculateProjectParserOptions env (coerceCode code) options
    (Extra.project (contextBuilt options w)).

Lemma generateAST_loop :
  generateAST env code options w =
  match findRelevantProgram programs FILENAME (loopStart env options w) with
  | (Throw e, w1) => (Throw e, w1)
  | (Ok found, w1) =>
      match (match snd found with
             | None => isolatedProgram env (coerceCode code) (contextBuilt options w)
             | Some _ => ret found
             end) w1 with
      | (Throw e, w2) => (Throw e, w2)
      | (Ok found', w2) => finish env (coerceCode code) true found' w2
      end
  end.
Proof.
  pose proof (project_given_not_nullish _ _ Hgiven) as Hn.
  rewrite generateAST_unfold by (apply nullish_isNull; exact Hn).
  replace (contextOf options) with (contextBuilt options w)
    by (rewrite contextBuilt_eq, (nullish_isNull _ Hn); reflexivity).
  fold (loopStart env options w).
  rewrite afterContext_eq.
  rewrite (proj1 (loopStart_frame env options w)).
  assert (Hs : (0 <? length (Extra.project (contextBuilt options w)))%nat = true).
  { destruct (Extra.project (contextBuilt options w)); [contradiction|reflexivity]. }
  rewrite Hs. cbv zeta. unfold bind at 1. unfold lift.
  rewrite getProp_ok by exact Hn. reflexivity.
Qed.

Lemma generateAST_found p a w1 :
  findRelevantProgram programs FILENAME (loopStart env options w) =
    (Ok (Some p, Some a), w1) ->
  generateAST env code options w =
  finish env (coerceCode code) true (Some p, Some a) w1.
Proof. intros H. rewrite generateAST_loop, H. reflexivity. Qed.

Lemma generateAST_fallback w1 :
  findRelevantProgram programs FILENAME (loopStart env options w) =
    (Ok (None, None), w1) ->
  generateAST env code options w =
  finish env (coerceCode code) true
    (Some (isolatedOf env (coerceCode code) (contextBuilt options w)),
     getSourceFile (isolatedOf env (coerceCode code) (contextBuilt options w))
       (VStr (isolatedFileName (contextBuilt options w))))
    (emit (EvGetSourceFile
             (isolatedOf env (coerceCode code) (contextBuilt options w))
             (VStr (isolatedFileName (contextBuilt options w)))) w1).
Proof. intros H. rewrite generateAST_loop, H. reflexivity. Qed.

Lemma generateAST_failure e w1 :
  findRelevantProgram programs FILENAME (loopStart env options w) =
    (Throw e, w1) ->
  generateAST env code options w = (Throw e, w1).
Proof. intros H. rewrite generateAST_loop, H. reflexivity. Qed.

End WithProject.

(** The loop in terms of [scan]. *)
Lemma findRelevantProgram_inv env code options project FILENAME w r w1 :
  findRelevantProgram
    (calculateProjectParserOptions env code options project) FILENAME w =
    (r, w1) ->
  scan env code options project FILENAME (knownPrograms w) =
    (r, knownPrograms w1, snd (scan env code options project FILENAME (knownPrograms w))) /\
  w1 = stepWorld w (knownPrograms w1)
         (snd (scan env code options project FILENAME (knownPrograms w))).
Proof.
  rewrite findRelevantProgram_eq.
  destruct (scan env code options project FILENAME (knownPrograms w))
    as [[r' c] evs].
  simpl. intros [= <- <-]. simpl. auto.
Qed.

Lemma resolveProject_inv env code options configPath w r w1 :
  resolveProject env code options configPath w = (r, w1) ->
  resolveOutcome env code options configPath (knownPrograms w) =
    (r, knownPrograms w1) /\
  w1 = stepWorld w (knownPrograms w1) [EvResolve configPath].
Proof.
  rewrite resolveProject_eq.
  destruct (resolveOutcome env code options configPath (knownPrograms w))
    as [r' c].
  simpl. intros [= <- <-]. simpl. auto.
Qed.

Lemma finish_frame env code should found w :
  knownPrograms (snd (finish env code should found w)) = knownPrograms w /\
  trace (snd (finish env code should found w)) = trace w.
Proof.
  destruct found as [p a]. rewrite finish_eq.
  destruct (convert_frame env a (extra (withCode code w)) (withCode code w))
    as (_ & H1 & H2 & _).
  split; [exact H1 | exact H2].
Qed.

Lemma finish_program env code found w r :
  fst (finish env code true found w) = Ok r -> program r = fst found.
Proof.
  destruct found as [p a]. rewrite finish_eq. simpl fst.
  destruct (fst (convert env a _ _)); [|discriminate].
  intros [= <-]. reflexivity.
Qed.

Lemma resolutions_visits FILENAME steps :
  resolutions (visits FILENAME steps) = map fst steps.
Proof.
  induction steps as [|[p q] rest IH]; simpl; [reflexivity|].
  unfold resolutions in *. simpl. rewrite IH. reflexivity.
Qed.

Lemma parse_resolutions env code options w :
  exists k,
    resolutions (trace (snd (parse env code options w))) =
    resolutions (trace w) ++ take k (Extra.project (contextBuilt options w)).
Proof.
  rewrite parse_eq. simpl snd.
  destruct (isNull options) eqn:Hnull.
  { destruct options; try discriminate. exists O. rewrite generateAST_null.
    simpl. rewrite app_nil_r. reflexivity. }
  destruct (Extra.project (contextBuilt options w)) as [|c0 rest] eqn:Hproj.
  - exists O. rewrite generateAST_unfold by assumption.
    rewrite afterContext_no_project.
    2:{ rewrite (proj1 (afterWarning_frame env _)). simpl.
        rewrite contextBuilt_eq, Hnull in Hproj. exact Hproj. }
    rewrite (proj2 (finish_frame _ _ _ _ _)). simpl trace.
    rewrite resolutions_app. simpl.
    rewrite (proj2 (proj2 (proj2 (afterWarning_frame env _)))). reflexivity.
  - assert (Hgiven : Extra.project (contextBuilt options w) <> [])
      by (rewrite Hproj; discriminate).
    rewrite (generateAST_loop env code options w Hgiven).
    rewrite findRelevantProgram_eq.
    destruct (scan_prefix env (coerceCode code) options
                (Extra.project (contextBuilt options w)) (prop options "filePath")
                (knownPrograms (loopStart env options w))) as [k Hk].
    rewrite Hproj in *.
    destruct (scan env (coerceCode code) options _ _ _) as [[[found|e] c] evs];
      simpl in *.
    + exists k.
      assert (Hstep : forall p a w',
        resolutions (trace w') =
          resolutions (trace w) ++ take k (c0 :: rest) ->
        resolutions (trace (snd (finish env (coerceCode code) true (p, a) w'))) =
          resolutions (trace w) ++ take k (c0 :: rest)).
      { intros p a w' H. rewrite (proj2 (finish_frame _ _ _ _ _)). exact H. }
      assert (Hbase :
        resolutions (trace (stepWorld (loopStart env options w) c evs)) =
        resolutions (trace w) ++ take k (c0 :: rest)).
      { simpl. rewrite resolutions_app, Hk.
        rewrite (proj2 (proj2 (proj2 (loopStart_frame env options w)))).
        reflexivity. }
      destruct (snd found).
      * unfold ret. destruct found as [p a]. apply Hstep. exact Hbase.
      * rewrite isolatedProgram_eq. apply Hstep.
        simpl trace. rewrite resolutions_app. simpl. rewrite app_nil_r.
        exact Hbase.
    + exists k. simpl. rewrite resolutions_app, Hk.
      rewrite (proj2 (proj2 (proj2 (loopStart_frame env options w)))).
      reflexivity.
Qed.


(** ** The cache of programs *)

Lemma cacheValid_empty env : cacheValid env ∅.
Proof. intros path content p H. rewrite lookup_empty in H. discriminate. Qed.

Lemma resolveOutcome_valid env code options configPath cache :
  cacheValid env cache ->
  cacheValid env (snd (resolveOutcome env code options configPath cache)).
Proof.
  intros Hv. unfold resolveOutcome.
  destruct (readEntry env configPath) as [| |content]; simpl; auto.
  assert (Hrebuild : cacheValid env (snd
    match parseConfig env configPath content with
    | Some config =>
        (Ok (buildProgram env code options config),
         <[configPath:=(content, buildProgram env code options config)]> cache)
    | None => (Throw (ProjectMalformed configPath), cache)
    end)).
  { destruct (parseConfig env configPath content) as [config|] eqn:Hp; simpl; auto.
    intros path content' p. rewrite lookup_insert.
    destruct (decide (configPath = path)) as [<-|Hne].
    - intros [= <- <-]. rewrite Hp. discriminate.
    - apply Hv. }
  destruct (cache !! configPath) as [[content' p]|]; [|exact Hrebuild].
  destruct (String.eqb content' content); [exact Hv | exact Hrebuild].
Qed.

Lemma scan_valid env code options project FILENAME cache :
  cacheValid env cache ->
  cacheValid env (snd (fst (scan env code options project FILENAME cache))).
Proof.
  revert cache. induction project as [|configPath rest IH]; intros cache Hv; simpl.
  - exact Hv.
  - pose proof (resolveOutcome_valid env code options configPath cache Hv) as Hv1.
    destruct (resolveOutcome env code options configPath cache) as [[p|e] cache1];
      simpl in *; [|exact Hv1].
    destruct (getSourceFile p FILENAME); simpl; [exact Hv1|].
    specialize (IH cache1 Hv1).
    destruct (scan env code options rest FILENAME cache1) as [[r c] evs].
    exact IH.
Qed.

Lemma resolveOutcome_failure env code options configPath cache e :
  cacheValid env cache ->
  configurationFailure env configPath = Some e ->
  resolveOutcome env code options configPath cache = (Throw e, cache).
Proof.
  unfold configurationFailure, resolveOutcome. intros Hv.
  destruct (readEntry env configPath) as [| |content].
  - intros [= <-]. reflexivity.
  - intros [= <-]. reflexivity.
  - destruct (parseConfig env configPath content) eqn:Hp; [discriminate|].
    intros [= <-].
    destruct (cache !! configPath) as [[content' p]|] eqn:Hc; [|reflexivity].
    destruct (String.eqb_spec content' content) as [->|]; [|reflexivity].
    exfalso. exact (Hv _ _ _ Hc Hp).
Qed.





(** ** Which calls return services *)

Lemma scan_shape env code options project FILENAME cache found cache' evs :
  scan env code options project FILENAME cache = (Ok found, cache', evs) ->
  found = (None, None) \/ exists p a, found = (Some p, Some a).
Proof.
  revert cache cache' evs.
  induction project as [|configPath rest IH]; intros cache cache' evs; simpl.
  - intros [= <- _ _]. auto.
  - destruct (resolveOutcome env code options configPath cache) as [[p|e] cache1];
      [|discriminate].
    destruct (getSourceFile p FILENAME) as [a|].
    + intros [= <- _ _]. right. eauto.
    + destruct (scan env code options rest FILENAME cache1) as [[r c] evs'] eqn:Hs.
      intros [= -> _ _]. eapply IH. exact Hs.
Qed.

Lemma services_iff_project_given env code options w r :
  fst (parse env code options w) = Ok r ->
  (sv_program (services r) <> None <->
     Extra.project (contextBuilt options w) <> []) /\
  (sv_esTreeNodeToTSNodeMap (services r) <> None <->
     Extra.project (contextBuilt options w) <> []) /\
  (sv_tsNodeToESTreeNodeMap (services r) <> None <->
     Extra.project (contextBuilt options w) <> []).
Proof.
  rewrite parse_eq. simpl fst.
  destruct (isNull options) eqn:Hnull.
  { destruct options; discriminate. }
  destruct (Extra.project (contextBuilt options w)) as [|c0 rest] eqn:Hproj.
  - rewrite generateAST_unfold by assumption.
    rewrite afterContext_no_project.
    2:{ rewrite (proj1 (afterWarning_frame env _)). simpl.
        rewrite contextBuilt_eq, Hnull in Hproj. exact Hproj. }
    rewrite finish_eq. simpl fst.
    destruct (fst (convert env _ _ _)); [|discriminate].
    intros [= <-]. simpl. repeat split; intros H; contradiction.
  - assert (Hgiven : Extra.project (contextBuilt options w) <> [])
      by (rewrite Hproj; discriminate).
    rewrite (generateAST_loop env code options w Hgiven).
    rewrite findRelevantProgram_eq.
    destruct (scan env (coerceCode code) options _ _ _) as [[[found|e] c] evs] eqn:Hs;
      simpl; [|discriminate].
    assert (Hfound : exists p a w',
      (match found.2 with
       | Some _ => ret found
       | None => isolatedProgram env (coerceCode code) (contextBuilt options w)
       end) (stepWorld (loopStart env options w) c evs) = (Ok (Some p, a), w')).
    { destruct (scan_shape _ _ _ _ _ _ _ _ _ Hs) as [->|(p & a & ->)]; simpl.
      - rewrite isolatedProgram_eq. eauto.
      - unfold ret. eauto. }
    destruct Hfound as (p & a & w' & ->).
    rewrite finish_eq. simpl fst.
    destruct (fst (convert env _ _ _)); [|discriminate].
    intros [= <-]. simpl. repeat split; intros _; discriminate.
Qed.




(** ** The conversion engine *)

(** Induction over native trees, children included. *)
Lemma Native_ind' (P : Native -> Prop) :
  (forall kind pos end_ real children,
     Forall P children -> P (NNode kind pos end_ real children)) ->
  forall n, P n.
Proof.
  intros H. fix IH 1. intros [kind pos end_ real children].
  apply H. induction children as [|c cs IHcs]; constructor.
  - apply IH.
  - exact IHcs.
Qed.

Section Conversion.

Variable env : Env.
Variable ctx : Extra.t.
Variable text : string.

Lemma convertNode_eq path kind pos end_ real children :
  convertNode env ctx text path (NNode kind pos end_ real children) =
  match builders env kind, Extra.errorOnUnknownASTType ctx with
  | None, true => throw (UnsupportedNodeKind kind)
  | builder, _ =>
      bind (convertChildren env ctx text path O children) (fun kids =>
      bind fresh (fun id =>
        let range := if Extra.range ctx then Some (pos, end_) else None in
        let loc :=
          if Extra.loc ctx
          then Some {| loc_start := offsetToLineColumn text pos;
                       loc_end := offsetToLineColumn text end_ |}
          else None in
        let node :=
          match builder with
          | Some type => GNode id type range loc None kids
          | None => GNode id kind range loc (Some kind) kids
          end in
        bind (when real (register id path)) (fun _ => ret node)))
  end.
Proof. reflexivity. Qed.

Lemma convertChildren_cons path i c cs :
  convertChildren env ctx text path i (c :: cs) =
  bind (convertNode env ctx text (path ++ [i]) c) (fun g =>
  bind (convertChildren env ctx text path (S i) cs) (fun gs =>
  ret (g :: gs))).
Proof. reflexivity. Qed.

(** A node converts when its kind is known or unknown kinds are let
    through, and its children convert; the node is then built and
    registered. *)
Lemma convertNode_ok path kind pos end_ real children s g s' :
  convertNode env ctx text path (NNode kind pos end_ real children) s = (Ok g, s') ->
  (builders env kind = None -> Extra.errorOnUnknownASTType ctx = false) /\
  exists kids s1,
    convertChildren env ctx text path O children s = (Ok kids, s1) /\
    g = buildNode env ctx text kind pos end_ (cs_next s1) kids /\
    s' = afterNode real path s1.
Proof.
  rewrite convertNode_eq. unfold buildNode.
  destruct (builders env kind) as [type|] eqn:Hb.
  - unfold bind at 1.
    destruct (convertChildren env ctx text path O children s) as [[kids|e] s1] eqn:Hc;
      [|discriminate].
    unfold bind, fresh, when, register, modify, ret. cbv zeta.
    destruct real; intros [= <- <-]; (split; [discriminate|]);
      exists kids, s1; repeat split.
  - destruct (Extra.errorOnUnknownASTType ctx); [discriminate|].
    unfold bind at 1.
    destruct (convertChildren env ctx text path O children s) as [[kids|e] s1] eqn:Hc;
      [|discriminate].
    unfold bind, fresh, when, register, modify, ret. cbv zeta.
    destruct real; intros [= <- <-]; (split; [reflexivity|]);
      exists kids, s1; repeat split.
Qed.

Lemma convertChildren_ok path i c cs s gs s' :
  convertChildren env ctx text path i (c :: cs) s = (Ok gs, s') ->
  exists g s1 rest,
    convertNode env ctx text (path ++ [i]) c s = (Ok g, s1) /\
    convertChildren env ctx text path (S i) cs s1 = (Ok rest, s') /\
    gs = g :: rest.
Proof.
  rewrite convertChildren_cons. unfold bind at 1.
  destruct (convertNode env ctx text (path ++ [i]) c s) as [[g|e] s1] eqn:Hn;
    [|discriminate].
  unfold bind at 1.
  destruct (convertChildren env ctx text path (S i) cs s1) as [[rest|e] s2] eqn:Hr;
    [|discriminate].
  unfold ret. intros [= <- <-]. exists g, s1, rest. auto.
Qed.

(** *** Unknown kinds *)

(** Every failure of the walk is an unknown kind met in strict mode. *)
Lemma convertNode_throw n :
  forall path s e s',
    convertNode env ctx text path n s = (Throw e, s') ->
    exists kind,
      e = UnsupportedNodeKind kind /\ builders env kind = None /\
      Extra.errorOnUnknownASTType ctx = true.
Proof.
  induction n as [kind pos end_ real children IH] using Native_ind'.
  intros path s e s'. rewrite convertNode_eq.
  assert (Hkids : forall i s e s',
    convertChildren env ctx text path i children s = (Throw e, s') ->
    exists kind,
      e = UnsupportedNodeKind kind /\ builders env kind = None /\
      Extra.errorOnUnknownASTType ctx = true).
  { clear -IH. induction IH as [|c cs Hc Hcs IHcs]; intros i s e s'.
    - discriminate.
    - rewrite convertChildren_cons. unfold bind at 1.
      destruct (convertNode env ctx text (path ++ [i]) c s) as [[g|e0] s1] eqn:Hn.
      + unfold bind at 1.
        destruct (convertChildren env ctx text path (S i) cs s1) as [[gs|e1] s2] eqn:Hr.
        * discriminate.
        * intros [= <- <-]. eapply IHcs. exact Hr.
      + intros [= <- <-]. eapply Hc. exact Hn. }
  destruct (builders env kind) as [type|] eqn:Hb.
  - unfold bind at 1.
    destruct (convertChildren env ctx text path O children s) as [[kids|e0] s1] eqn:Hc.
    + unfold bind, fresh, when, register, modify, ret. destruct real; discriminate.
    + intros [= <- <-]. eapply Hkids. exact Hc.
  - destruct (Extra.errorOnUnknownASTType ctx) eqn:Hs.
    + intros [= <- <-]. eauto.
    + unfold bind at 1.
      destruct (convertChildren env ctx text path O children s) as [[kids|e0] s1] eqn:Hc.
      * unfold bind, fresh, when, register, modify, ret. destruct real; discriminate.
      * intros [= <- <-]. eapply Hkids. exact Hc.
Qed.

Lemma convertChildren_throws cs :
  Exists (throws env ctx text) cs ->
  forall path i s, exists e,
    fst (convertChildren env ctx text path i cs s) = Throw e.
Proof.
  induction cs as [|c cs IH]; intros Hex path i s.
  - inversion Hex.
  - rewrite convertChildren_cons. unfold bind at 1.
    destruct (convertNode env ctx text (path ++ [i]) c s) as [[g|e0] s1] eqn:Hn.
    + inversion Hex as [? ? Hc|? ? Hcs]; subst.
      * destruct (Hc (path ++ [i]) s) as [e He]. rewrite Hn in He. discriminate.
      * unfold bind at 1. destruct (IH Hcs path (S i) s1) as [e He].
        destruct (convertChildren env ctx text path (S i) cs s1) as [[gs|e1] s2];
          simpl in He; [discriminate|]. eauto.
    + simpl. eauto.
Qed.

(** In strict mode a tree that holds a node of unknown kind does not
    convert. *)
Lemma strict_unknown_throws p :
  Extra.errorOnUnknownASTType ctx = true ->
  forall n n',
    nativeAt n p = Some n' -> builders env (nativeKind n') = None ->
    throws env ctx text n.
Proof.
  intros Hstrict. induction p as [|i rest IH]; intros n n' Hat Hunknown.
  - injection Hat as ->. intros path s. destruct n' as [kind pos end_ real children].
    rewrite convertNode_eq. simpl in Hunknown. rewrite Hunknown, Hstrict.
    simpl. eauto.
  - simpl in Hat. destruct (nativeChildren n !! i) as [c|] eqn:Hc; [|discriminate].
    pose proof (IH c n' Hat Hunknown) as Hthrows.
    destruct n as [kind pos end_ real children]. simpl in Hc.
    intros path s. rewrite convertNode_eq.
    destruct (builders env kind) as [type|]; [|rewrite Hstrict; simpl; eauto].
    unfold bind at 1.
    destruct (convertChildren_throws children) with (path := path) (i := O) (s := s)
      as [e He].
    { apply Exists_exists. exists c. split; [|exact Hthrows].
      eapply list_elem_of_lookup_2. exact Hc. }
    destruct (convertChildren env ctx text path O children s) as [[kids|e0] s1];
      simpl in He; [discriminate|]. simpl. eauto.
Qed.

(** The children of a converted node, one by one. *)
Lemma convertChildren_lookup cs :
  forall path i s gs s',
    convertChildren env ctx text path i cs s = (Ok gs, s') ->
    length gs = length cs /\
    forall j c, cs !! j = Some c ->
      exists g s0 s1,
        gs !! j = Some g /\
        convertNode env ctx text (path ++ [(i + j)%nat]) c s0 = (Ok g, s1).
Proof.
  induction cs as [|c cs IH]; intros path i s gs s' H.
  - injection H as <- <-. split; [reflexivity|]. intros j c Hj. discriminate.
  - apply convertChildren_ok in H as (g & s1 & rest & Hn & Hr & ->).
    destruct (IH _ _ _ _ _ Hr) as [Hlen Hrest].
    split; [simpl; rewrite Hlen; reflexivity|].
    intros [|j] c' Hj; simpl in Hj.
    + injection Hj as <-. exists g, s, s1. rewrite Nat.add_0_r. auto.
    + destruct (Hrest j c' Hj) as (g' & s0 & s2 & Hg & Hc).
      exists g', s0, s2. split; [exact Hg|].
      replace (i + S j)%nat with (S i + j)%nat by lia. exact Hc.
Qed.

Lemma genericChildren_buildNode kind pos end_ id kids :
  genericChildren (buildNode env ctx text kind pos end_ id kids) = kids.
Proof. unfold buildNode. destruct (builders env kind); reflexivity. Qed.

Lemma genericId_buildNode kind pos end_ id kids :
  genericId (buildNode env ctx text kind pos end_ id kids) = id.
Proof. unfold buildNode. destruct (builders env kind); reflexivity. Qed.

Lemma genericKindName_buildNode kind pos end_ id kids :
  genericKindName (buildNode env ctx text kind pos end_ id kids) =
  match builders env kind with
  | Some _ => None
  | None => Some kind
  end.
Proof. unfold buildNode. destruct (builders env kind); reflexivity. Qed.

(** The output tree has a node wherever the native tree has one; a node of
    unknown kind is there as a passthrough node carrying the kind name. *)
Lemma converted_position p :
  forall n path s g s' n',
    convertNode env ctx text path n s = (Ok g, s') ->
    nativeAt n p = Some n' ->
    exists g',
      genericAt g p = Some g' /\
      genericKindName g' =
        match builders env (nativeKind n') with
        | Some _ => None
        | None => Some (nativeKind n')
        end.
Proof.
  induction p as [|i rest IH]; intros n path s g s' n' Hconv Hat.
  - injection Hat as <-. exists g. split; [reflexivity|].
    destruct n as [kind pos end_ real children].
    apply convertNode_ok in Hconv as (_ & kids & s1 & _ & -> & _).
    apply genericKindName_buildNode.
  - simpl in Hat. destruct (nativeChildren n !! i) as [c|] eqn:Hc; [|discriminate].
    destruct n as [kind pos end_ real children]. simpl in Hc.
    apply convertNode_ok in Hconv as (_ & kids & s1 & Hkids & -> & _).
    destruct (convertChildren_lookup _ _ _ _ _ _ Hkids) as [_ Hlook].
    destruct (Hlook i c Hc) as (gc & s0 & s2 & Hgc & Hconvc).
    destruct (IH _ _ _ _ _ _ Hconvc Hat) as (g' & Hg' & Hk).
    exists g'. split; [|exact Hk].
    simpl. rewrite genericChildren_buildNode, Hgc. exact Hg'.
Qed.

End Conversion.



(** ** The registry built by a conversion *)

Lemma consistent_empty next :
  consistent {| cs_next := next; cs_registry := emptyRegistry |}.
Proof.
  unfold consistent, genericToNative, nativeToGeneric. simpl.
  split; intros g n; rewrite ?lookup_empty; [split|]; discriminate.
Qed.

Lemma prefix_snoc_not_self (path : NodeRef) j : ~ (path ++ [j]) `prefix_of` path.
Proof.
  intros H. apply prefix_length in H. rewrite length_app in H. simpl in H. lia.
Qed.

Lemma prefix_snoc_under (path q : NodeRef) j :
  (path ++ [j]) `prefix_of` q -> path `prefix_of` q.
Proof. intros [k ->]. exists (j :: k). rewrite <- app_assoc. reflexivity. Qed.

Lemma prefix_snoc_inj (path q : NodeRef) i j :
  (path ++ [i]) `prefix_of` q -> (path ++ [j]) `prefix_of` q -> i = j.
Proof.
  intros [k1 ->] [k2 H]. rewrite <- !app_assoc in H.
  apply app_inv_head in H. injection H as ->. reflexivity.
Qed.

Lemma consistent_afterNode real path s :
  consistent s ->
  nativeToGeneric (cs_registry s) path = None ->
  consistent (afterNode real path s).
Proof.
  intros [Hinv Hbound] Hfree. unfold consistent, afterNode. simpl.
  destruct real.
  - unfold genericToNative, nativeToGeneric, registerPair in *. simpl.
    split.
    + intros g n. rewrite !lookup_insert.
      destruct (decide (cs_next s = g)) as [<-|Hg];
        destruct (decide (path = n)) as [<-|Hn].
      * split; reflexivity.
      * split; [intros [= E]; contradiction|].
        intros H. apply Hinv in H. apply Hbound in H. lia.
      * split; [|intros [= E]; contradiction].
        intros H. apply Hinv in H. rewrite Hfree in H. discriminate.
      * apply Hinv.
    + intros g n. rewrite lookup_insert.
      destruct (decide (cs_next s = g)) as [<-|Hg]; [lia|].
      intros H. apply Hbound in H. lia.
  - split; [exact Hinv|]. intros g n H. apply Hbound in H. lia.
Qed.

Section Registry.

Variable env : Env.
Variable ctx : Extra.t.
Variable text : string.

Lemma childrenRegistered cs :
  Forall (nodeRegistered env ctx text) cs ->
  forall path i s gs s',
    convertChildren env ctx text path i cs s = (Ok gs, s') ->
    consistent s ->
    (forall q j, (i <= j)%nat -> (path ++ [j]) `prefix_of` q ->
       nativeToGeneric (cs_registry s) q = None) ->
    consistent s' /\
    (cs_next s <= cs_next s')%nat /\
    (forall q, (forall j, (i <= j)%nat -> ~ (path ++ [j]) `prefix_of` q) ->
       nativeToGeneric (cs_registry s') q = nativeToGeneric (cs_registry s) q) /\
    (forall k, (k < cs_next s)%nat ->
       genericToNative (cs_registry s') k = genericToNative (cs_registry s) k) /\
    length gs = length cs /\
    (forall j c, cs !! j = Some c ->
       exists gc,
         gs !! j = Some gc /\
         forall p,
           match nativeAt c p with
           | Some n' =>
               exists g',
                 genericAt gc p = Some g' /\
                 (cs_next s <= genericId g' < cs_next s')%nat /\
                 genericToNative (cs_registry s') (genericId g') =
                   if nativeReal n' then Some (path ++ (i + j)%nat :: p) else None
           | None => genericAt gc p = None
           end).
Proof.
  induction 1 as [|c cs Hc Hcs IH]; intros path i s gs s' Hconv Hcons Hfree.
  - injection Hconv as <- <-.
    split; [exact Hcons|]. split; [lia|]. split; [auto|]. split; [auto|].
    split; [reflexivity|]. intros j c Hj. discriminate.
  - apply convertChildren_ok in Hconv as (g & s1 & rest & Hn & Hr & ->).
    destruct (Hc _ _ _ _ Hn Hcons) as (Hcons1 & Hle1 & Hframe1 & Hold1 & Hcover1).
    { intros q Hq. apply (Hfree q i); [lia|exact Hq]. }
    destruct (IH _ _ _ _ _ Hr Hcons1) as (Hcons2 & Hle2 & Hframe2 & Hold2 & Hlen & Hcover2).
    { intros q j Hj Hq. rewrite Hframe1.
      - apply (Hfree q j); [lia|exact Hq].
      - intros Hq'. pose proof (prefix_snoc_inj _ _ _ _ Hq' Hq). lia. }
    split; [exact Hcons2|]. split; [lia|]. split; [|split; [|split]].
    + intros q Hq. rewrite Hframe2 by (intros j Hj; apply Hq; lia).
      apply Hframe1. apply Hq. lia.
    + intros k Hk. rewrite Hold2 by lia. apply Hold1. exact Hk.
    + simpl. rewrite Hlen. reflexivity.
    + intros [|j] c' Hj; simpl in Hj.
      * injection Hj as <-. exists g. split; [reflexivity|]. intros p.
        specialize (Hcover1 p). destruct (nativeAt c p) as [n'|]; [|exact Hcover1].
        destruct Hcover1 as (g' & Hg' & Hid & Hreg).
        exists g'. split; [exact Hg'|]. split; [lia|].
        rewrite Hold2 by lia. rewrite Hreg, Nat.add_0_r.
        rewrite <- app_assoc. reflexivity.
      * destruct (Hcover2 j c' Hj) as (gc & Hgc & Hp).
        exists gc. split; [exact Hgc|]. intros p. specialize (Hp p).
        destruct (nativeAt c' p) as [n'|]; [|exact Hp].
        destruct Hp as (g' & Hg' & Hid & Hreg).
        exists g'. split; [exact Hg'|]. split; [lia|].
        rewrite Hreg. replace (S i + j)%nat with (i + S j)%nat by lia.
        reflexivity.
Qed.

Lemma convertNode_registered n : nodeRegistered env ctx text n.
Proof.
  induction n as [kind pos end_ real children IH] using Native_ind'.
  intros path s g s' Hconv Hcons Hfree.
  apply convertNode_ok in Hconv as (_ & kids & s1 & Hkids & -> & ->).
  destruct (childrenRegistered children IH _ _ _ _ _ Hkids Hcons)
    as (Hcons1 & Hle1 & Hframe1 & Hold1 & Hlen & Hcover).
  { intros q j _ Hq. apply Hfree. eapply prefix_snoc_under. exact Hq. }
  assert (Hpath : nativeToGeneric (cs_registry s1) path = None).
  { rewrite Hframe1 by (intros j _; apply prefix_snoc_not_self).
    apply Hfree. reflexivity. }
  assert (Hnext : forall n, genericToNative (cs_registry s1) (cs_next s1) <> Some n).
  { intros n H. apply (proj2 Hcons1) in H. lia. }
  split; [apply consistent_afterNode; assumption|].
  split; [simpl; lia|].
  split; [|split].
  - intros q Hq. rewrite <- Hframe1.
    2:{ intros j _ Hj. apply Hq. eapply prefix_snoc_under. exact Hj. }
    unfold afterNode, nativeToGeneric; simpl. destruct real; [|reflexivity].
    simpl. apply lookup_insert_ne. intros ->. apply Hq. reflexivity.
  - intros k Hk. rewrite <- Hold1 by exact Hk.
    unfold afterNode, genericToNative; simpl. destruct real; [|reflexivity].
    simpl. apply lookup_insert_ne. lia.
  - intros [|j p]; simpl.
    + exists (buildNode env ctx text kind pos end_ (cs_next s1) kids).
      split; [reflexivity|]. rewrite genericId_buildNode.
      split; [lia|].
      unfold genericToNative; simpl. destruct real; simpl.
      * rewrite lookup_insert_eq, app_nil_r. reflexivity.
      * destruct (genericToNativeMap (cs_registry s1) !! cs_next s1) eqn:E;
          [|reflexivity].
        exfalso. eapply Hnext. exact E.
    + rewrite genericChildren_buildNode.
      destruct (children !! j) as [c|] eqn:Hc.
      * destruct (Hcover j c Hc) as (gc & Hgc & Hp). rewrite Hgc.
        specialize (Hp p). destruct (nativeAt c p) as [n'|]; [|exact Hp].
        destruct Hp as (g' & Hg' & Hid & Hreg).
        exists g'. split; [exact Hg'|]. split; [simpl; lia|].
        change (0 + j)%nat with j in Hreg. rewrite <- Hreg.
        unfold afterNode, genericToNative; simpl. destruct real; [|reflexivity].
        simpl. apply lookup_insert_ne. lia.
      * apply lookup_ge_None in Hc. rewrite <- Hlen in Hc.
        apply lookup_ge_None in Hc. rewrite Hc. reflexivity.
Qed.

End Registry.

(** ** What a call converts *)

Section Chosen.

Variables (env : Env) (code options : value).

Let ctx := contextOf options.
Let theCode := coerceCode code.

Lemma generateAST_chosen w :
  isNull options = false ->
  exists w',
    knownPrograms w' = snd (chosen env code options (knownPrograms w)) /\
    nextNodeId w' = nextNodeId w /\
    extra w' = ctx /\
    generateAST env code options w =
      match fst (chosen env code options (knownPrograms w)) with
      | Throw e => (Throw e, w')
      | Ok (should, found) => finish env theCode should found w'
      end.
Proof.
  intros Hnull. unfold chosen. cbv zeta. fold ctx. fold theCode.
  assert (Hctx : contextBuilt options w = ctx)
    by (rewrite contextBuilt_eq, Hnull; reflexivity).
  destruct (loopStart_frame env options w) as (He & Hc & Hn & _).
  rewrite Hctx in He.
  destruct (Extra.project ctx) as [|c0 rest] eqn:Hproj.
  - rewrite generateAST_unfold by assumption. fold ctx.
    replace (afterWarning env (set_extra ctx w)) with (loopStart env options w)
      by (unfold loopStart; rewrite Hctx; reflexivity).
    rewrite afterContext_no_project by (rewrite He; exact Hproj).
    rewrite He. eexists. split; [|split; [|split; [|reflexivity]]]; simpl; auto.
  - assert (Hgiven : Extra.project (contextBuilt options w) <> [])
      by (rewrite Hctx, Hproj; discriminate).
    rewrite (generateAST_loop env code options w Hgiven).
    rewrite findRelevantProgram_eq, Hctx, Hproj, Hc.
    fold theCode.
    destruct (scan env theCode options (c0 :: rest) (prop options "filePath")
                (knownPrograms w)) as [[[[rp [a|]]|e] cache1] evs];
      cbn [fst snd].
    + eexists. split; [|split; [|split; [|reflexivity]]]; simpl; auto.
    + rewrite isolatedProgram_eq.
      eexists. split; [|split; [|split; [|reflexivity]]]; simpl; auto.
    + eexists. split; [|split; [|split; [|reflexivity]]]; simpl; auto.
Qed.

End Chosen.

(** A call that returns has converted a tree, in the context built from the
    options with the code added, and returns that conversion. *)
Lemma parse_converted env code options w r :
  fst (parse env code options w) = Ok r ->
  exists should relevantProgram root wc converted,
    let ctx := Extra.set_code (Some (coerceCode code)) (contextOf options) in
    nextNodeId wc = nextNodeId w /\
    fst (chosen env code options (knownPrograms w)) =
      Ok (should, (relevantProgram, Some root)) /\
    knownPrograms wc = snd (chosen env code options (knownPrograms w)) /\
    fst (convert env (Some root) ctx wc) = Ok converted /\
    r = toParseResult (resultOf should relevantProgram converted) /\
    snd (parse env code options w) = snd (convert env (Some root) ctx wc).
Proof.
  rewrite parse_eq. simpl fst. simpl snd.
  destruct (isNull options) eqn:Hnull.
  { destruct options; discriminate. }
  destruct (generateAST_chosen env code options w Hnull)
    as (w' & Hcache & Hnext & Hextra & ->).
  destruct (fst (chosen env code options (knownPrograms w)))
    as [[should [rp a]]|e]; [|discriminate].
  rewrite finish_eq. simpl fst. simpl snd.
  unfold withCode. rewrite Hextra. simpl extra.
  destruct a as [root|]; [|discriminate].
  destruct (fst (convert env (Some root) _ _)) as [converted|e] eqn:Hconv;
    [|discriminate].
  intros [= <-].
  exists should, rp, root,
    (set_extra (Extra.set_code (Some (coerceCode code)) (contextOf options)) w'),
    converted.
  simpl. repeat split; auto.
Qed.

(** The validity of the cache is kept by every call, so it holds in every
    world reached from a freshly loaded module. *)
Lemma chosen_valid env code options cache :
  cacheValid env cache ->
  cacheValid env (snd (chosen env code options cache)).
Proof.
  intros Hv. unfold chosen. cbv zeta.
  destruct (Extra.project (contextOf options)) as [|c0 rest]; [exact Hv|].
  pose proof (scan_valid env (coerceCode code) options (c0 :: rest)
                (prop options "filePath") cache Hv) as H.
  destruct (scan env (coerceCode code) options (c0 :: rest)
              (prop options "filePath") cache) as [[[[rp [a|]]|e] c] evs];
    exact H.
Qed.

Lemma parse_cacheValid env code options w :
  cacheValid env (knownPrograms w) ->
  cacheValid env (knownPrograms (snd (parse env code options w))).
Proof.
  intros Hv. rewrite parse_eq. simpl snd.
  destruct (isNull options) eqn:Hnull.
  { destruct options; try discriminate. rewrite generateAST_null. exact Hv. }
  destruct (generateAST_chosen env code options w Hnull)
    as (w' & Hcache & _ & _ & ->).
  pose proof (chosen_valid env code options _ Hv) as Hv'.
  rewrite <- Hcache in Hv'.
  destruct (fst (chosen env code options (knownPrograms w)))
    as [[should found]|e]; [|exact Hv'].
  rewrite (proj1 (finish_frame _ _ _ _ _)). exact Hv'.
Qed.

(** The registry and the identities of a completed conversion. *)
Lemma convert_registry env ctx root w converted :
  fst (convert env (Some root) ctx w) = Ok converted ->
  let registry := cr_astMaps converted in
  let w' := snd (convert env (Some root) ctx w) in
  (forall g n,
     genericToNative registry g = Some n <-> nativeToGeneric registry n = Some g) /\
  (forall g n, genericToNative registry g = Some n ->
     (nextNodeId w <= g < nextNodeId w')%nat) /\
  (forall p,
     match nativeAt root p with
     | Some n' =>
         exists g',
           genericAt (es_root (cr_estree converted)) p = Some g' /\
           (nextNodeId w <= genericId g' < nextNodeId w')%nat /\
           genericToNative registry (genericId g') =
             if nativeReal n' then Some p else None
     | None => genericAt (es_root (cr_estree converted)) p = None
     end).
Proof.
  rewrite convert_eq. simpl fst. simpl snd. unfold convertFrom.
  destruct (convertNode env ctx (sourceText ctx) [] root _) as [[g|e] s] eqn:Hc;
    [|discriminate].
  intros [= <-]. simpl.
  destruct (convertNode_registered env ctx _ root _ _ _ _ Hc
              (consistent_empty _)) as (Hcons & Hle & _ & Hold & Hcover).
  { intros q _. unfold nativeToGeneric. simpl. apply lookup_empty. }
  simpl in *. split; [exact (proj1 Hcons)|]. split; [|exact Hcover].
  intros g0 n H. split; [|exact (proj2 Hcons _ _ H)].
  destruct (le_lt_dec (nextNodeId w) g0) as [Hge|Hlt]; [exact Hge|].
  rewrite (Hold g0 Hlt) in H. unfold genericToNative in H. simpl in H.
  rewrite lookup_empty in H. discriminate.
Qed.

(** ** Converting twice *)

Section Shape.

Variable env : Env.
Variable ctx : Extra.t.
Variable text : string.

Lemma stripIds_buildNode kind pos end_ id kids :
  stripIds (buildNode env ctx text kind pos end_ id kids) =
  buildNode env ctx text kind pos end_ O (map stripIds kids).
Proof. unfold buildNode. destruct (builders env kind); reflexivity. Qed.

Lemma convertChildren_shape cs :
  Forall (fun n => forall path s1 s2,
            sameShape (fst (convertNode env ctx text path n s1))
                      (fst (convertNode env ctx text path n s2))) cs ->
  forall path i s1 s2,
    sameShapes (fst (convertChildren env ctx text path i cs s1))
               (fst (convertChildren env ctx text path i cs s2)).
Proof.
  induction 1 as [|c cs Hc Hcs IH]; intros path i s1 s2.
  - simpl. reflexivity.
  - rewrite !convertChildren_cons. unfold bind at 1 3.
    specialize (Hc (path ++ [i]) s1 s2).
    destruct (convertNode env ctx text (path ++ [i]) c s1) as [[g1|e1] t1],
             (convertNode env ctx text (path ++ [i]) c s2) as [[g2|e2] t2];
      simpl in Hc; try contradiction; [|exact Hc].
    unfold bind. specialize (IH path (S i) t1 t2).
    destruct (convertChildren env ctx text path (S i) cs t1) as [[gs1|e1] u1],
             (convertChildren env ctx text path (S i) cs t2) as [[gs2|e2] u2];
      simpl in IH; try contradiction; [|exact IH].
    simpl. rewrite Hc, IH. reflexivity.
Qed.

(** The walk gives the same tree, identities aside, from any state. *)
Lemma convertNode_shape n :
  forall path s1 s2,
    sameShape (fst (convertNode env ctx text path n s1))
              (fst (convertNode env ctx text path n s2)).
Proof.
  induction n as [kind pos end_ real children IH] using Native_ind'.
  intros path s1 s2.
  pose proof (convertChildren_shape children IH path O s1 s2) as Hkids.
  set (K := fun kids : list Generic =>
         bind fresh (fun id =>
           bind (when real (register id path)) (fun _ =>
             ret (buildNode env ctx text kind pos end_ id kids)))).
  assert (Hgo :
    sameShape
      (fst (bind (convertChildren env ctx text path O children) K s1))
      (fst (bind (convertChildren env ctx text path O children) K s2))).
  { unfold bind.
    destruct (convertChildren env ctx text path O children s1) as [[gs1|e1] t1],
             (convertChildren env ctx text path O children s2) as [[gs2|e2] t2];
      simpl in Hkids; try contradiction; [|exact Hkids].
    subst K. unfold bind, fresh, when, register, modify, ret.
    destruct real; simpl; rewrite !stripIds_buildNode, Hkids; reflexivity. }
  subst K.
  rewrite !convertNode_eq.
  unfold buildNode in Hgo.
  destruct (builders env kind) as [type|].
  - exact Hgo.
  - destruct (Extra.errorOnUnknownASTType ctx); [reflexivity|exact Hgo].
Qed.

End Shape.

(** Two conversions of a tree in the same context, from any two worlds,
    end alike and give the same tree up to the identities of the nodes, and
    the same tokens and comments. *)
Lemma convert_shape env ctx root w1 w2 c1 :
  fst (convert env (Some root) ctx w1) = Ok c1 ->
  exists c2,
    fst (convert env (Some root) ctx w2) = Ok c2 /\
    stripIds (es_root (cr_estree c2)) = stripIds (es_root (cr_estree c1)) /\
    es_tokens (cr_estree c2) = es_tokens (cr_estree c1) /\
    es_comments (cr_estree c2) = es_comments (cr_estree c1).
Proof.
  rewrite !convert_eq. simpl fst. unfold convertFrom.
  pose proof (convertNode_shape env ctx (sourceText ctx) root []
                {| cs_next := nextNodeId w1; cs_registry := emptyRegistry |}
                {| cs_next := nextNodeId w2; cs_registry := emptyRegistry |}) as H.
  destruct (convertNode env ctx (sourceText ctx) [] root
              {| cs_next := nextNodeId w1; cs_registry := emptyRegistry |})
    as [[g1|e1] s1]; [|discriminate].
  destruct (convertNode env ctx (sourceText ctx) [] root
              {| cs_next := nextNodeId w2; cs_registry := emptyRegistry |})
    as [[g2|e2] s2]; simpl in H; [|contradiction].
  intros [= <-]. eexists. split; [reflexivity|]. simpl. auto.
Qed.

(** ** Resolving twice *)

Section Replay.

Variables (env : Env) (code options : value).

Lemma keeps_refl c : keeps env c c.
Proof. intros path content p _ H. exact H. Qed.

Lemma keeps_trans c1 c2 c3 : keeps env c1 c2 -> keeps env c2 c3 -> keeps env c1 c3.
Proof. intros H12 H23 path content p Hr H. eapply H23, H12; eassumption. Qed.

Lemma resolveOutcome_keeps configPath c :
  keeps env c (snd (resolveOutcome env code options configPath c)).
Proof.
  unfold resolveOutcome.
  destruct (readEntry env configPath) as [| |content] eqn:Hr;
    try apply keeps_refl.
  assert (Hrebuild : (forall p, c !! configPath <> Some (content, p)) ->
    keeps env c (snd
      match parseConfig env configPath content with
      | Some config =>
          (Ok (buildProgram env code options config),
           <[configPath:=(content, buildProgram env code options config)]> c)
      | None => (Throw (ProjectMalformed configPath), c)
      end)).
  { intros Hnot.
    destruct (parseConfig env configPath content); [|apply keeps_refl].
    simpl. intros path content' q Hr' H.
    destruct (decide (configPath = path)) as [<-|Hne].
    - rewrite Hr in Hr'. injection Hr' as <-. exfalso. exact (Hnot _ H).
    - rewrite lookup_insert_ne by exact Hne. exact H. }
  destruct (c !! configPath) as [[content' p]|] eqn:Hc.
  - destruct (String.eqb_spec content' content) as [->|Hne].
    + apply keeps_refl.
    + apply Hrebuild. intros p' [= E _]. contradiction.
  - apply Hrebuild. discriminate.
Qed.

Lemma resolveOutcome_cached configPath c p c1 :
  resolveOutcome env code options configPath c = (Ok p, c1) ->
  exists content,
    readEntry env configPath = File content /\
    c1 !! configPath = Some (content, p).
Proof.
  unfold resolveOutcome.
  destruct (readEntry env configPath) as [| |content]; try discriminate.
  assert (Hrebuild :
    match parseConfig env configPath content with
    | Some config =>
        (Ok (buildProgram env code options config),
         <[configPath:=(content, buildProgram env code options config)]> c)
    | None => (Throw (ProjectMalformed configPath), c)
    end = (Ok p, c1) ->
    exists content0,
      File content = File content0 /\ c1 !! configPath = Some (content0, p)).
  { destruct (parseConfig env configPath content); [|discriminate].
    intros [= <- <-]. exists content. split; [reflexivity|].
    apply lookup_insert_eq. }
  destruct (c !! configPath) as [[content' q]|] eqn:Hc; [|exact Hrebuild].
  destruct (String.eqb_spec content' content) as [->|Hne]; [|exact Hrebuild].
  intros [= <- <-]. exists content. auto.
Qed.

Lemma resolveOutcome_reuse configPath content p c :
  readEntry env configPath = File content ->
  c !! configPath = Some (content, p) ->
  resolveOutcome env code options configPath c = (Ok p, c).
Proof.
  intros Hr Hc. unfold resolveOutcome. rewrite Hr, Hc, String.eqb_refl.
  reflexivity.
Qed.

Lemma scan_keeps project FILENAME c :
  keeps env c (snd (fst (scan env code options project FILENAME c))).
Proof.
  revert c. induction project as [|configPath rest IH]; intros c; simpl.
  - apply keeps_refl.
  - pose proof (resolveOutcome_keeps configPath c) as H1.
    destruct (resolveOutcome env code options configPath c) as [[p|e] c1];
      simpl in *; [|exact H1].
    destruct (getSourceFile p FILENAME); [exact H1|].
    specialize (IH c1).
    destruct (scan env code options rest FILENAME c1) as [[r c2] evs].
    simpl in *. eapply keeps_trans; eassumption.
Qed.

(** A loop that went through goes through again, with the same outcome, on
    the cache it left (or any cache that keeps env its entries), and leaves
    that cache as it is. *)
Lemma scan_replay project FILENAME c found c1 evs :
  scan env code options project FILENAME c = (Ok found, c1, evs) ->
  forall c', keeps env c1 c' ->
    scan env code options project FILENAME c' = (Ok found, c', evs).
Proof.
  revert c c1 evs. induction project as [|configPath rest IH];
    intros c c1 evs; simpl.
  - intros [= <- <- <-] c' _. reflexivity.
  - destruct (resolveOutcome env code options configPath c) as [[p|e] c0] eqn:Hres;
      [|discriminate].
    destruct (resolveOutcome_cached _ _ _ _ Hres) as (content & Hr & Hc0).
    destruct (getSourceFile p FILENAME) as [a|] eqn:Hsf.
    + intros [= <- <- <-] c' Hk.
      rewrite (resolveOutcome_reuse _ _ _ _ Hr (Hk _ _ _ Hr Hc0)), Hsf.
      reflexivity.
    + destruct (scan env code options rest FILENAME c0) as [[r c2] evs0] eqn:Hs.
      intros [= -> <- <-] c' Hk.
      pose proof (scan_keeps rest FILENAME c0) as Hk0. rewrite Hs in Hk0.
      simpl in Hk0.
      rewrite (resolveOutcome_reuse _ _ _ c' Hr (Hk _ _ _ Hr (Hk0 _ _ _ Hr Hc0))).
      rewrite Hsf, (IH _ _ _ Hs c' Hk). reflexivity.
Qed.

End Replay.

(** What a call chooses to convert, it chooses again on the cache it
    left. *)
Lemma chosen_replay env code options c choice c1 :
  chosen env code options c = (Ok choice, c1) ->
  chosen env code options c1 = (Ok choice, c1).
Proof.
  unfold chosen.
  destruct (Extra.project (contextOf options)) as [|c0 rest].
  - intros [= <- <-]. reflexivity.
  - destruct (scan env (coerceCode code) options (c0 :: rest)
                (prop options "filePath") c) as [[[found|e] c2] evs] eqn:Hs;
      [|discriminate].
    intros H.
    assert (Hc : c2 = c1) by (destruct found as [rp [a|]]; congruence).
    subst c2. rewrite (scan_replay _ _ _ _ _ _ _ _ _ Hs c1 (keeps_refl _ c1)).
    exact H.
Qed.

Lemma converted_ids env ctx root w converted p g :
  fst (convert env (Some root) ctx w) = Ok converted ->
  genericAt (es_root (cr_estree converted)) p = Some g ->
  (nextNodeId w <= genericId g < nextNodeId (snd (convert env (Some root) ctx w)))%nat.
Proof.
  intros Hconv Hat.
  destruct (convert_registry env ctx root w converted Hconv) as (_ & _ & Hcover).
  specialize (Hcover p). destruct (nativeAt root p) as [n'|].
  - destruct Hcover as (g' & Hg' & Hid & _). rewrite Hat in Hg'.
    injection Hg' as <-. exact Hid.
  - rewrite Hat in Hcover. discriminate.
Qed.



(** ** The context in closed form *)

Ltac peel_all proj :=
  unfold optionsUpdate; cbv zeta;
  rewrite ?(project_skip proj) by reflexivity;
  rewrite ?(loggerFn_skip proj) by reflexivity;
  rewrite ?(cond_skip proj) by reflexivity;
  cbn [Extra.tokens Extra.range Extra.loc Extra.comment Extra.comments
       Extra.tolerant Extra.errors Extra.strict Extra.ecmaFeatures_jsx
       Extra.useJSXTextNode Extra.log Extra.project Extra.source
       Extra.errorOnUnknownASTType Extra.code
       Extra.set_tokens Extra.set_range Extra.set_loc
       Extra.set_comment Extra.set_comments Extra.set_errors
       Extra.set_ecmaFeatures_jsx Extra.set_useJSXTextNode
       Extra.set_log Extra.set_project Extra.set_source
       Extra.set_errorOnUnknownASTType Extra.set_code].

Lemma optionsUpdate_comments options e :
  Extra.comments (optionsUpdate options e) =
  if isTrue (prop options "comment") then [] else Extra.comments e.
Proof.
  peel_all Extra.comments. rewrite (cond_hit Extra.comments).
  peel_all Extra.comments. reflexivity.
Qed.

Lemma optionsUpdate_errors options e :
  Extra.errors (optionsUpdate options e) =
  if isTrue (prop options "tolerant") then [] else Extra.errors e.
Proof.
  peel_all Extra.errors. rewrite (cond_hit Extra.errors).
  peel_all Extra.errors. reflexivity.
Qed.

Lemma optionsUpdate_strict options e :
  Extra.strict (optionsUpdate options e) = Extra.strict e.
Proof. peel_all Extra.strict. reflexivity. Qed.

Lemma optionsUpdate_code options e :
  Extra.code (optionsUpdate options e) = Extra.code e.
Proof. peel_all Extra.code. reflexivity. Qed.

Lemma optionsUpdate_ecmaFeatures_jsx options e :
  Extra.ecmaFeatures_jsx (optionsUpdate options e) =
  if truthy (prop options "ecmaFeatures")
     && String.eqb (typeof (prop options "ecmaFeatures")) "object"
  then prop (prop options "ecmaFeatures") "jsx"
  else Extra.ecmaFeatures_jsx e.
Proof.
  peel_all Extra.ecmaFeatures_jsx. rewrite (cond_hit Extra.ecmaFeatures_jsx).
  peel_all Extra.ecmaFeatures_jsx. reflexivity.
Qed.

Lemma optionsUpdate_source options e :
  Extra.source (optionsUpdate options e) =
  if isTrue (prop options "loc") && negb (nullish (prop options "source"))
  then Some (toString (prop options "source"))
  else Extra.source e.
Proof.
  peel_all Extra.source. rewrite (cond_hit Extra.source).
  peel_all Extra.source.
  replace (negb (nullish (prop options "source")))
    with (negb (isNull (prop options "source"))
          && negb (isUndefined (prop options "source")))
    by (unfold nullish; destruct (prop options "source"); reflexivity).
  rewrite andb_assoc. reflexivity.
Qed.

Lemma log_of_loggerFn (loggerFn : value) e :
  Extra.log match loggerFn with
            | VFun src => Extra.set_log (LoggerFn src) e
            | _ => cond (isFalse loggerFn) (Extra.set_log FunctionPrototype) e
            end =
  match loggerFn with
  | VFun src => LoggerFn src
  | VBool false => FunctionPrototype
  | _ => Extra.log e
  end.
Proof. destruct loggerFn as [| |[|]| | | | | |]; reflexivity. Qed.

Lemma optionsUpdate_log options e :
  Extra.log e = ConsoleLog ->
  Extra.log (optionsUpdate options e) = loggerOf (prop options "loggerFn").
Proof.
  intros He. unfold optionsUpdate; cbv zeta.
  rewrite (project_skip Extra.log) by reflexivity.
  rewrite log_of_loggerFn.
  rewrite ?(cond_skip Extra.log) by reflexivity.
  cbn [Extra.log Extra.set_range Extra.set_loc]. rewrite He.
  destruct (prop options "loggerFn") as [| |[|]| | | | | |]; reflexivity.
Qed.

Lemma extra_ext (e e' : Extra.t) :
  Extra.tokens e = Extra.tokens e' ->
  Extra.range e = Extra.range e' ->
  Extra.loc e = Extra.loc e' ->
  Extra.comment e = Extra.comment e' ->
  Extra.comments e = Extra.comments e' ->
  Extra.tolerant e = Extra.tolerant e' ->
  Extra.errors e = Extra.errors e' ->
  Extra.strict e = Extra.strict e' ->
  Extra.ecmaFeatures_jsx e = Extra.ecmaFeatures_jsx e' ->
  Extra.useJSXTextNode e = Extra.useJSXTextNode e' ->
  Extra.log e = Extra.log e' ->
  Extra.project e = Extra.project e' ->
  Extra.source e = Extra.source e' ->
  Extra.errorOnUnknownASTType e = Extra.errorOnUnknownASTType e' ->
  Extra.code e = Extra.code e' ->
  e = e'.
Proof. destruct e, e'; simpl; intros; subst; reflexivity. Qed.

Lemma projectList_eq options e :
  Extra.project e = [] ->
  Extra.project (optionsUpdate options e) = projectList (prop options "project").
Proof.
  intros He. rewrite optionsUpdate_project, He. reflexivity.
Qed.

Lemma optionsUpdate_closed options :
  optionsUpdate options defaultExtra = contextRecord options.
Proof.
  apply extra_ext; unfold contextRecord;
    cbn [Extra.tokens Extra.range Extra.loc Extra.comment Extra.comments
         Extra.tolerant Extra.errors Extra.strict Extra.ecmaFeatures_jsx
         Extra.useJSXTextNode Extra.log Extra.project Extra.source
         Extra.errorOnUnknownASTType Extra.code].
  - rewrite optionsUpdate_tokens. reflexivity.
  - apply optionsUpdate_range.
  - apply optionsUpdate_loc.
  - rewrite optionsUpdate_comment. destruct (isTrue _); reflexivity.
  - rewrite optionsUpdate_comments. destruct (isTrue _); reflexivity.
  - apply optionsUpdate_tolerant.
  - rewrite optionsUpdate_errors. destruct (isTrue _); reflexivity.
  - apply optionsUpdate_strict.
  - rewrite optionsUpdate_ecmaFeatures_jsx. reflexivity.
  - rewrite optionsUpdate_useJSXTextNode. destruct (isTrue _); reflexivity.
  - apply optionsUpdate_log. reflexivity.
  - apply projectList_eq. reflexivity.
  - rewrite optionsUpdate_source. reflexivity.
  - rewrite optionsUpdate_errorOnUnknownASTType. destruct (truthy _); reflexivity.
  - apply optionsUpdate_code.
Qed.

Lemma contextRecord_congr o o' :
  (forall k, In k contextOptions -> k <> "tolerant" -> prop o k = prop o' k) ->
  contextRecord o = contextRecord o'.
Proof.
  intros H. unfold contextRecord, jsxFeature.
  rewrite !(H "tokens"), !(H "range"), !(H "loc"), !(H "comment"),
    !(H "ecmaFeatures"), !(H "useJSXTextNode"), !(H "loggerFn"),
    !(H "project"), !(H "source"), !(H "errorOnUnknownASTType");
    first [reflexivity | discriminate | (simpl; tauto)].
Qed.

(** X2: the option [tolerant] and every option name outside the ones read
    by the option block have no effect on the context: the call builds
    the same context with and without them. *)
Theorem unread_options_change_nothing
    (k : string) (props : list (string * value)) (w : World) :
  k = "tolerant" \/ ~ In k contextOptions ->
  contextBuilt (VObj (removeProp k props)) w = contextBuilt (VObj props) w.
Proof.
  intros Hk. rewrite !contextBuilt_optionsUpdate, !optionsUpdate_closed.
  apply contextRecord_congr. intros k' Hin Hne.
  rewrite prop_removeProp.
  destruct (String.eqb_spec k k') as [->|]; [|reflexivity].
  destruct Hk as [->|Hout]; [contradiction | contradiction].
Qed.

Lemma unread_options_change_nothing_witness :
  contextBuilt
    (VObj (removeProp "tolerant" [("tolerant", VBool true); ("loc", VBool true)]))
    Demo.world0 =
  contextBuilt (VObj [("tolerant", VBool true); ("loc", VBool true)]) Demo.world0.
Proof.
  apply (unread_options_change_nothing "tolerant"
           [("tolerant", VBool true); ("loc", VBool true)] Demo.world0).
  left. reflexivity.
Defined.

(** ** The version warning *)

Lemma logsOf_app t1 t2 : logsOf (t1 ++ t2) = logsOf t1 ++ logsOf t2.
Proof. unfold logsOf. apply omap_app. Qed.

Lemma afterWarning_logs env w :
  logsOf (trace (afterWarning env w)) =
    logsOf (trace w) ++
    (if negb (isRunningSupportedTypeScriptVersion env)
        && negb (warnedAboutTSVersion w)
     then logged (Extra.log (extra w)) (versionWarning env) else []) /\
  warnedAboutTSVersion (afterWarning env w) =
    warnedAboutTSVersion w || negb (isRunningSupportedTypeScriptVersion env).
Proof.
  unfold afterWarning, warnAboutTSVersion, bind, gets, when.
  destruct (isRunningSupportedTypeScriptVersion env);
    destruct (warnedAboutTSVersion w) eqn:Hw; cbn [negb andb];
    try (simpl; rewrite app_nil_r, Hw; split; reflexivity).
  unfold callLog, versionWarning.
  destruct (Extra.log (extra w)); simpl;
    rewrite ?logsOf_app, ?app_nil_r; split; reflexivity.
Qed.

Lemma silent_ret {A} (a : A) : silent (ret a).
Proof. intros w. simpl. auto. Qed.

Lemma silent_lift {A} (r : result A) : silent (lift r).
Proof. intros w. simpl. auto. Qed.

Lemma silent_bind {A B} (c : M A) (k : A -> M B) :
  silent c -> (forall a, silent (k a)) -> silent (bind c k).
Proof.
  intros Hc Hk w. unfold bind. destruct (Hc w) as [Hl Hf].
  destruct (c w) as [[a|e] w']; simpl in *.
  - destruct (Hk a w') as [Hl' Hf']. rewrite Hl', Hf'. auto.
  - auto.
Qed.

Lemma silent_gets {A} (f : World -> A) : silent (gets f).
Proof. intros w. simpl. auto. Qed.

Lemma silent_assign f : silent (assign f).
Proof. intros w. simpl. auto. Qed.

Lemma silent_resolveProject env code options configPath :
  silent (resolveProject env code options configPath).
Proof.
  intros w. rewrite resolveProject_eq. simpl.
  rewrite logsOf_app. simpl. rewrite app_nil_r. auto.
Qed.

Lemma silent_askSourceFile p FILENAME : silent (askSourceFile p FILENAME).
Proof.
  intros w. unfold askSourceFile, bind, modify, ret. simpl.
  rewrite logsOf_app. simpl. rewrite app_nil_r. auto.
Qed.

Lemma silent_findRelevantProgram programs FILENAME :
  Forall silent programs -> silent (findRelevantProgram programs FILENAME).
Proof.
  induction 1 as [|next rest Hnext Hrest IH]; simpl.
  - apply silent_ret.
  - apply silent_bind; [exact Hnext|]. intros program.
    apply silent_bind; [apply silent_askSourceFile|]. intros [a|].
    + apply silent_ret.
    + exact IH.
Qed.

Lemma silent_calculateProjectParserOptions env code options project :
  Forall silent (calculateProjectParserOptions env code options project).
Proof.
  unfold calculateProjectParserOptions. rewrite Forall_map.
  apply Forall_forall. intros configPath _. apply silent_resolveProject.
Qed.

Lemma silent_isolatedProgram env code ex : silent (isolatedProgram env code ex).
Proof.
  unfold isolatedProgram. apply silent_bind; [apply silent_askSourceFile|].
  intros a. apply silent_ret.
Qed.

Lemma silent_convert env ast ctx : silent (convert env ast ctx).
Proof.
  intros w. destruct (convert_frame env ast ctx w) as (_ & _ & Ht & Hf).
  rewrite Ht, Hf. auto.
Qed.

Lemma silent_afterContext env code options :
  silent (afterContext env code options).
Proof.
  unfold afterContext.
  apply silent_bind; [apply silent_gets|]. intros ex.
  apply silent_bind.
  { destruct (0 <? length (Extra.project ex))%nat; [|apply silent_ret].
    apply silent_bind; [apply silent_lift|]. intros FILENAME.
    apply silent_findRelevantProgram, silent_calculateProjectParserOptions. }
  intros found. apply silent_bind.
  { destruct (snd found); [apply silent_ret | apply silent_isolatedProgram]. }
  intros [relevantProgram a].
  apply silent_bind; [apply silent_assign|]. intros _.
  apply silent_bind; [apply silent_gets|]. intros ex'.
  apply silent_bind; [apply silent_convert|]. intros converted.
  apply silent_ret.
Qed.

(** The messages and the flag after a call with options that are not
    null. *)
Lemma generateAST_logs env code options w :
  isNull options = false ->
  logsOf (trace (snd (generateAST env code options w))) =
    logsOf (trace w) ++
    (if negb (isRunningSupportedTypeScriptVersion env)
        && negb (warnedAboutTSVersion w)
     then logged (loggerOf (prop options "loggerFn")) (versionWarning env)
     else []) /\
  warnedAboutTSVersion (snd (generateAST env code options w)) =
    warnedAboutTSVersion w || negb (isRunningSupportedTypeScriptVersion env).
Proof.
  intros Hnull. rewrite generateAST_unfold by assumption.
  destruct (silent_afterContext env (coerceCode code) options
              (afterWarning env (set_extra (contextOf options) w))) as [-> ->].
  destruct (afterWarning_logs env (set_extra (contextOf options) w)) as [-> ->].
  cbn [trace warnedAboutTSVersion extra set_extra].
  rewrite contextOf_optionsUpdate, optionsUpdate_closed. auto.
Qed.

(** ** Calls without and with a project *)

Lemma contextOf_not_object options :
  isNull options = false -> (forall props, options <> VObj props) ->
  contextOf options = defaultExtra.
Proof.
  intros Hnull Hobj. destruct options; try reflexivity; try discriminate.
  exfalso. eapply Hobj. reflexivity.
Qed.

(** X5: options that are not an object count as absent.  For every
    options value other than null that is not a plain object (a number, a
    string, a boolean, a function, an array) the call behaves as the call
    with no options at all: same result and same state afterwards. *)
Theorem options_that_are_not_objects_count_as_absent
    (env : Env) (code options : value) (w : World) :
  isNull options = false ->
  (forall props, options <> VObj props) ->
  parse env code options w = parse env code VUndefined w.
Proof.
  intros Hnull Hobj. rewrite !parse_eq.
  assert (generateAST env code options w = generateAST env code VUndefined w)
    as ->; [|reflexivity].
  rewrite (generateAST_unfold env code options) by assumption.
  rewrite (generateAST_unfold env code VUndefined) by reflexivity.
  rewrite (contextOf_not_object options Hnull Hobj).
  change (contextOf VUndefined) with defaultExtra.
  rewrite !afterContext_no_project
    by (rewrite (proj1 (afterWarning_frame env _)); reflexivity).
  reflexivity.
Qed.

Lemma options_that_are_not_objects_count_as_absent_witness :
  parse Demo.env (VStr "x") (VArr [VBool true]) Demo.world0 =
  parse Demo.env (VStr "x") VUndefined Demo.world0.
Proof.
  apply (options_that_are_not_objects_count_as_absent Demo.env (VStr "x")
           (VArr [VBool true]) Demo.world0).
  - reflexivity.
  - intros props. discriminate.
Defined.

Lemma contextBuilt_project options w :
  Extra.project (contextBuilt options w) = projectList (prop options "project").
Proof.
  rewrite contextBuilt_optionsUpdate, optionsUpdate_closed. reflexivity.
Qed.



Lemma scan_found env code options project FILENAME cache p a cache' evs :
  scan env code options project FILENAME cache = (Ok (Some p, a), cache', evs) ->
  getSourceFile p FILENAME = a /\ a <> None.
Proof.
  revert cache cache' evs.
  induction project as [|configPath rest IH]; intros cache cache' evs; simpl.
  - discriminate.
  - destruct (resolveOutcome env code options configPath cache) as [[q|e] cache1];
      [|discriminate].
    destruct (getSourceFile q FILENAME) as [b|] eqn:Hq.
    + intros [= <- <- _ _]. split; [exact Hq | discriminate].
    + destruct (scan env code options rest FILENAME cache1) as [[r c] evs'] eqn:Hs.
      intros [= -> _ _]. eapply IH. exact Hs.
Qed.



(** ** The fixture table of the alignment tests *)

Section FixtureTable.

Import FixturesToTest.

Lemma pushModuleFixtures_eq fixturesSubPath fileType fixtures tracked :
  pushModuleFixtures fixturesSubPath fileType fixtures tracked =
  tracked ++ map (modulePattern fixturesSubPath fileType) fixtures.
Proof.
  revert tracked. induction fixtures as [|fixture rest IH]; intros tracked; simpl.
  - rewrite app_nil_r. reflexivity.
  - rewrite IH, <- app_assoc. reflexivity.
Qed.

Lemma createFixturePatternConfigFor_eq fixturesSubPath config tracked :
  fixturesSubPath <> "" ->
  createFixturePatternConfigFor fixturesSubPath config tracked =
  (Returned (defaultPatternOf (fixturesSubPath, config)),
   tracked ++ modulePatternsOf (fixturesSubPath, config)).
Proof.
  intros Hsub. unfold createFixturePatternConfigFor.
  destruct (String.eqb_spec fixturesSubPath "") as [|_]; [contradiction|].
  unfold defaultPatternOf, modulePatternsOf. cbn [fst snd].
  destruct config as [[ignore fileType asModule]|];
    cbn [default ignoredBy asModuleBy fileTypeBy FixturesToTest.ignore
         FixturesToTest.fileType FixturesToTest.parseWithSourceTypeModule
         from_option id].
  - destruct (default [] asModule) as [|fixture rest] eqn:Hm.
    + cbn. rewrite !app_nil_r. reflexivity.
    + cbn [length Nat.ltb Nat.leb]. rewrite pushModuleFixtures_eq. reflexivity.
  - cbn. rewrite !app_nil_r. reflexivity.
Qed.

(** X8: what [createFixturePatternConfigFor] returns and tracks.  With an
    empty sub-path it throws and tracks nothing.  Otherwise it returns,
    without a config of its own, the pattern
    [subPath/!(a|b|...).src.type] whose alternatives are the ignored
    fixtures followed by the fixtures to parse as modules, and it appends
    to the module-level array one pattern [subPath/fixture.src.type] with
    [sourceType: 'module'] per such fixture, in their order, after the
    entries already there.  The file type is [js] when absent or empty. *)
Theorem createFixturePatternConfigFor_returns_and_tracks
    (fixturesSubPath : string) (config : option CreateFixturePatternConfig)
    (tracked : list FixturePatternConfig) :
  createFixturePatternConfigFor fixturesSubPath config tracked =
  if String.eqb fixturesSubPath ""
  then (Thrown "fixtureSubPath was not provided for the current fixture pattern",
        tracked)
  else (Returned (defaultPatternOf (fixturesSubPath, config)),
        tracked ++ modulePatternsOf (fixturesSubPath, config)).
Proof.
  destruct (String.eqb_spec fixturesSubPath "") as [->|Hsub].
  - reflexivity.
  - apply createFixturePatternConfigFor_eq. exact Hsub.
Qed.

Lemma createAll_eq calls tracked :
  Forall (fun call => fst call <> "") calls ->
  createAll calls tracked =
  (Returned (map defaultPatternOf calls),
   tracked ++ flat_map modulePatternsOf calls).
Proof.
  intros Hcalls. revert tracked.
  induction Hcalls as [|[fixturesSubPath config] rest Hsub _ IH];
    intros tracked; simpl.
  - rewrite app_nil_r. reflexivity.
  - rewrite (createFixturePatternConfigFor_eq _ _ _ Hsub), IH, <- app_assoc.
    reflexivity.
Qed.

Lemma createAll_outcome calls tracked :
  fst (createAll calls tracked) =
  if forallb (fun call => negb (String.eqb (fst call) "")) calls
  then Returned (map defaultPatternOf calls)
  else Thrown "fixtureSubPath was not provided for the current fixture pattern".
Proof.
  revert tracked.
  induction calls as [|[fixturesSubPath config] rest IH]; intros tracked; simpl.
  - reflexivity.
  - destruct (String.eqb_spec fixturesSubPath "") as [->|Hsub]; [reflexivity|].
    rewrite (createFixturePatternConfigFor_eq _ _ _ Hsub). cbn [negb andb].
    specialize (IH (tracked ++ modulePatternsOf (fixturesSubPath, config))).
    destruct (createAll rest _) as [[others|message] tracked'];
      cbn [fst] in *;
      destruct (forallb _ rest); try discriminate.
    + injection IH as ->. reflexivity.
    + exact IH.
Qed.

Lemma forallb_named calls :
  forallb (fun call : string * option CreateFixturePatternConfig =>
             negb (String.eqb (fst call) "")) calls = true ->
  Forall (fun call => fst call <> "") calls.
Proof.
  induction calls as [|call rest IH]; simpl; intros H; constructor.
  - destruct (String.eqb_spec (fst call) ""); [discriminate|assumption].
  - apply IH. destruct (negb _); [exact H|discriminate].
Qed.

(** X9: the order of the patterns to test.  When every call of the table
    names a sub-path, the final list holds the pattern returned by each
    call, in the order of the table, followed by the module patterns of
    all calls, again in the order of the table; none is lost or repeated.
    A call with an empty sub-path anywhere in the table makes the module
    throw instead. *)
Theorem module_patterns_follow_the_patterns_of_the_table
    (calls : list (string * option CreateFixturePatternConfig)) :
  fixturePatternConfigsToTest calls =
  if forallb (fun call => negb (String.eqb (fst call) "")) calls
  then Returned (map defaultPatternOf calls ++ flat_map modulePatternsOf calls)
  else Thrown "fixtureSubPath was not provided for the current fixture pattern".
Proof.
  unfold fixturePatternConfigsToTest.
  pose proof (createAll_outcome calls []) as Hout.
  destruct (forallb _ calls) eqn:Hnamed.
  - rewrite (createAll_eq calls [] (forallb_named calls Hnamed)). reflexivity.
  - destruct (createAll calls []) as [[configs|message] tracked];
      cbn [fst] in Hout; [discriminate|].
    injection Hout as ->. reflexivity.
Qed.

Lemma collectFixtures_eq glob_sync fixturesDirPath configs collected :
  collectFixtures glob_sync fixturesDirPath configs collected =
  collected ++ flat_map (fixturesOf glob_sync fixturesDirPath) configs.
Proof.
  revert collected. induction configs as [|c rest IH]; intros collected; simpl.
  - rewrite app_nil_r. reflexivity.
  - rewrite IH, <- app_assoc. reflexivity.
Qed.

(** X10: which fixtures are parsed as modules.  A file is among the
    fixtures to test exactly when it matches the pattern returned by a
    call of the table, and then it carries no config, or when it matches
    [subPath/fixture.src.type] for a fixture that a call lists in
    [parseWithSourceTypeModule], and then it carries
    [sourceType: 'module'].  No other config ever reaches a fixture. *)
Theorem fixtures_parsed_as_modules_are_the_listed_ones
    (glob_sync : string -> list string) (fixturesDirPath : string)
    (calls : list (string * option CreateFixturePatternConfig))
    (fixtures : list Fixture) (fixture : Fixture) :
  fixturesToTest glob_sync fixturesDirPath calls = Returned fixtures ->
  In fixture fixtures <->
  (exists call,
     In call calls /\
     fixtureConfig fixture = None /\
     In (filename fixture)
        (glob_sync (fixturesDirPath +:+ "/" +:+ pattern (defaultPatternOf call)))) \/
  (exists call name,
     In call calls /\
     In name (asModuleBy (snd call)) /\
     fixtureConfig fixture = Some moduleConfig /\
     In (filename fixture)
        (glob_sync (fixturesDirPath +:+ "/" +:+ fst call +:+ "/" +:+ name
                    +:+ ".src." +:+ fileTypeBy (snd call)))).
Proof.
  unfold fixturesToTest, fixturePatternConfigsToTest.
  pose proof (createAll_outcome calls []) as Hout.
  destruct (forallb (fun call => negb (String.eqb (fst call) "")) calls) eqn:Hnamed.
  2:{ destruct (createAll calls []) as [[configs|message] tracked];
        cbn [fst] in Hout; discriminate. }
  clear Hout. pose proof (forallb_named calls Hnamed) as Hall.
  rewrite (createAll_eq calls [] Hall). cbn [app].
  rewrite collectFixtures_eq. cbn [app]. intros [= <-].
  rewrite flat_map_app, in_app_iff, !in_flat_map.
  split.
  - intros [(pc & Hpc & Hin)|(pc & Hpc & Hin)].
    + left. apply in_map_iff in Hpc as (call & <- & Hcall).
      unfold fixturesOf in Hin. apply in_map_iff in Hin as (f & <- & Hf).
      exists call. cbn. auto.
    + right. apply in_flat_map in Hpc as (call & Hcall & Hpc).
      unfold modulePatternsOf in Hpc. apply in_map_iff in Hpc as (name & <- & Hname).
      unfold fixturesOf in Hin. apply in_map_iff in Hin as (f & <- & Hf).
      exists call, name. cbn. auto.
  - intros [(call & Hcall & Hcfg & Hin)|(call & name & Hcall & Hname & Hcfg & Hin)].
    + left. exists (defaultPatternOf call). split; [apply in_map; exact Hcall|].
      unfold fixturesOf. apply in_map_iff. exists (filename fixture).
      split; [|exact Hin]. destruct fixture; cbn in *. subst. reflexivity.
    + right. exists (modulePattern (fst call) (fileTypeBy (snd call)) name). split.
      * apply in_flat_map. exists call. split; [exact Hcall|].
        unfold modulePatternsOf. apply in_map. exact Hname.
      * unfold fixturesOf. apply in_map_iff. exists (filename fixture).
        split; [|exact Hin]. destruct fixture; cbn in *. subst. reflexivity.
Qed.

Lemma fixtures_parsed_as_modules_are_the_listed_ones_witness :
  let glob_sync := fun p : string =>
    if String.eqb p "fixtures/basics/import.src.js"
    then ["fixtures/basics/import.src.js"] else [] in
  let calls :=
    [("basics",
      Some {| ignore := None; fileType := None;
              parseWithSourceTypeModule := Some ["import"] |})] in
  let fixture :=
    {| filename := "fixtures/basics/import.src.js";
       fixtureConfig := Some moduleConfig |} in
  In fixture [fixture] <->
  (exists call,
     In call calls /\
     fixtureConfig fixture = None /\
     In (filename fixture)
        (glob_sync ("fixtures" +:+ "/" +:+ pattern (defaultPatternOf call)))) \/
  (exists call name,
     In call calls /\
     In name (asModuleBy (snd call)) /\
     fixtureConfig fixture = Some moduleConfig /\
     In (filename fixture)
        (glob_sync ("fixtures" +:+ "/" +:+ fst call +:+ "/" +:+ name
                    +:+ ".src." +:+ fileTypeBy (snd call)))).
Proof.
  intros glob_sync calls fixture.
  apply (fixtures_parsed_as_modules_are_the_listed_ones glob_sync "fixtures"
           calls [fixture] fixture).
  vm_compute. reflexivity.
Defined.

Lemma replace_unfold pattern replacement s :
  replace pattern replacement s =
  if String.prefix pattern s
  then replacement +:+ dropString (String.length pattern) s
  else match s with
       | EmptyString => EmptyString
       | String c rest => String c (replace pattern replacement rest)
       end.
Proof. destruct s; reflexivity. Qed.

Lemma replace_prefix pattern replacement s :
  replace pattern replacement (pattern +:+ s) =
  replacement +:+ dropString (String.length pattern) (pattern +:+ s).
Proof.
  assert (Hp : String.prefix pattern (pattern +:+ s) = true).
  { induction pattern as [|c rest IH]; simpl.
    - destruct s; reflexivity.
    - destruct (ascii_dec c c); [exact IH|contradiction]. }
  rewrite replace_unfold, Hp. reflexivity.
Qed.

Lemma dropString_app a s : dropString (String.length a) (a +:+ s) = s.
Proof. induction a as [|c rest IH]; simpl; [destruct s; reflexivity | exact IH]. Qed.

(** X11: the known JSX issues are ignored by their bare names.  Every
    known issue given as [jsx/name] is entered as [name]: only the
    leading [jsx/] goes, a later one in the name stays; and the list
    always ends with [invalid-no-tag-name]. *)
Theorem jsx_known_issues_are_ignored_by_name (names : list string) :
  jsxFilesWithKnownIssues (map (fun name => "jsx/" +:+ name) names) =
  names ++ ["invalid-no-tag-name"].
Proof.
  unfold jsxFilesWithKnownIssues. f_equal.
  rewrite map_map. rewrite <- (map_id names) at 2.
  apply map_ext. intros name.
  rewrite replace_prefix, dropString_app. reflexivity.
Qed.

End FixtureTable.

(** ** The tests of the parser services *)

Section SemanticInfoTests.

Import SemanticInfo.

Lemma string_length_app a b :
  String.length (a +:+ b) = (String.length a + String.length b)%nat.
Proof. induction a as [|c rest IH]; simpl; [reflexivity | rewrite IH; reflexivity]. Qed.

Lemma substring_skip a n m s :
  String.substring (String.length a + n) m (a +:+ s) = String.substring n m s.
Proof. induction a as [|c rest IH]; simpl; [reflexivity | exact IH]. Qed.

Lemma substring_take b c :
  String.substring 0 (String.length b) (b +:+ c) = b.
Proof.
  induction b as [|x rest IH]; simpl.
  - destruct c; reflexivity.
  - rewrite IH. reflexivity.
Qed.

Lemma substring_whole s : String.substring 0 (String.length s) s = s.
Proof. induction s as [|c rest IH]; simpl; [reflexivity | rewrite IH; reflexivity]. Qed.

Lemma substring_middle a b c :
  String.substring (String.length a) (String.length b) (a +:+ b +:+ c) = b.
Proof.
  rewrite <- (Nat.add_0_r (String.length a)), substring_skip.
  apply substring_take.
Qed.

Lemma indexOf_suffix a b suffix :
  suffix <> "" -> (indexOf (a +:+ b +:+ suffix) suffix >? -1) = true.
Proof.
  intros Hne. unfold indexOf.
  destruct (index 0 suffix (a +:+ b +:+ suffix)) as [n|] eqn:Hi.
  - apply Z.gtb_lt. lia.
  - exfalso.
    apply (index_correct3 0 (String.length a + (String.length b + 0)) _ _ Hi Hne);
      [lia|].
    rewrite !substring_skip.
    apply substring_whole.
Qed.

Lemma substring_strips dir name :
  substring (dir +:+ name +:+ ".src.ts")
    (Z.of_nat (String.length dir))
    (Z.of_nat (String.length (dir +:+ name +:+ ".src.ts")) - 7) = name.
Proof.
  unfold substring. rewrite !string_length_app.
  change (String.length ".src.ts") with 7%nat.
  replace (Z.to_nat (Z.min _ _)) with (String.length dir) by lia.
  replace (Z.to_nat (Z.max _ _) - String.length dir)%nat
    with (String.length name) by lia.
  apply substring_middle.
Qed.

(** X12: the names of the test files.  When [shelljs.find] lists the
    fixtures as [dir/name.src.ts], with a directory part one character
    shorter than [FIXTURES_DIR] (the path without its leading [./] and
    with the separator), every such file is kept and named [name]: the
    directory and the ending [.src.ts] are stripped and nothing else. *)
Theorem testFiles_are_the_bare_fixture_names (dir : string) (names : list string) :
  String.length dir = (String.length FIXTURES_DIR - 1)%nat ->
  testFiles (map (fun name => dir +:+ name +:+ ".src.ts") names) = names.
Proof.
  intros Hdir. unfold testFiles.
  induction names as [|name rest IH]; [reflexivity|].
  cbn [map List.filter].
  rewrite indexOf_suffix by discriminate.
  cbn [map]. rewrite IH. f_equal.
  replace (Z.of_nat (String.length FIXTURES_DIR) - 1)
    with (Z.of_nat (String.length dir)) by (rewrite Hdir; reflexivity).
  apply substring_strips.
Qed.

Lemma testFiles_are_the_bare_fixture_names_witness :
  testFiles
    (map (fun name => "tests/fixtures/semanticInfo/" +:+ name +:+ ".src.ts")
       ["isolated-file"; "import-file"]) =
  ["isolated-file"; "import-file"].
Proof.
  apply (testFiles_are_the_bare_fixture_names "tests/fixtures/semanticInfo/"
           ["isolated-file"; "import-file"]).
  reflexivity.
Defined.

Lemma badConfig_project cwd fileName project w :
  Extra.project (contextBuilt (badConfig cwd fileName project) w) = [project].
Proof. rewrite contextBuilt_project. reflexivity. Qed.



End SemanticInfoTests.

(** * The parser with the caller's code run: properties *)

Lemma onBase_ret {A} (a : A) s : Open.onBase (ret a) s = ret a s.
Proof. destruct s; reflexivity. Qed.

Lemma onBase_eq {A} (c : M A) s :
  Open.onBase c s =
  (fst (c (Open.base s)),
   {| Open.base := snd (c (Open.base s)); Open.extraObject := Open.extraObject s |}).
Proof. unfold Open.onBase. destruct (c (Open.base s)); reflexivity. Qed.

Lemma value_ind' (P : value -> Prop) :
  P VUndefined -> P VNull -> (forall b, P (VBool b)) -> (forall n, P (VNum n)) ->
  (forall s, P (VStr s)) -> (forall s, P (VStringObj s)) ->
  (forall src, P (VFun src)) ->
  (forall items, Forall P items -> P (VArr items)) ->
  (forall props, P (VObj props)) ->
  forall v, P v.
Proof.
  intros HU HN HB HZ HS HSO HF HA HO. fix IH 1.
  intros [| |b|n|s|s|src|items|props];
    [exact HU|exact HN|apply HB|apply HZ|apply HS|apply HSO|apply HF| |apply HO].
  apply HA. induction items as [|x xs IHxs]; constructor.
  - apply IH.
  - exact IHxs.
Qed.

(** ** The string conversion *)

Lemma toString_plain h v s :
  plain v = true -> Open.toString h v s = (Ok (toString v), s).
Proof.
  revert s. induction v as [| |b|n|str|str|src|items IH|props] using value_ind';
    intros s Hp; try reflexivity.
  - simpl in *. unfold ret. rewrite (Open.numberToString_safe h n Hp). reflexivity.
  - simpl in Hp. simpl.
    revert s. induction IH as [|x xs Hx _ IHxs]; intros s; [reflexivity|].
    simpl in Hp. apply andb_true_iff in Hp as [Hpx Hpxs].
    specialize (IHxs Hpxs).
    assert (Hpiece :
      match x with
      | VUndefined | VNull => ret ""
      | _ => Open.toString h x
      end s =
      (Ok match x with
          | VUndefined | VNull => ""
          | _ => toString x
          end, s)).
    { destruct x; try reflexivity; apply Hx; exact Hpx. }
    unfold bind at 1. rewrite Hpiece.
    destruct xs as [|y ys]; [reflexivity|].
    unfold bind at 1. rewrite IHxs. reflexivity.
  - simpl in Hp. simpl. unfold bind, Open.ordinaryToPrimitive, bind.
    destruct (Open.ownProp "toString" props); [discriminate|]. reflexivity.
Qed.

Lemma coerce_plain h code s :
  plain code = true -> coerce h code s = (Ok (coerceCode code), s).
Proof.
  intros Hp. unfold coerce, coerceCode.
  destruct (negb (String.eqb (typeof code) "string") && negb (instanceofString code));
    [|reflexivity].
  unfold bind. rewrite (toString_plain h code s Hp). reflexivity.
Qed.

(** ** The option block *)

Lemma updatesOpen_assign f : updatesOpen (Open.onBase (assign f)) f.
Proof. intros s; reflexivity. Qed.

Lemma updatesOpen_ret : updatesOpen (ret tt) (fun e => e).
Proof.
  intros s. unfold ret. rewrite set_extra_same. destruct s; reflexivity.
Qed.

Lemma updatesOpen_when b c f :
  (b = true -> updatesOpen c f) -> updatesOpen (when b c) (cond b f).
Proof. destruct b; simpl; [auto | intros _; apply updatesOpen_ret]. Qed.

Lemma updatesOpen_bind c f k g :
  updatesOpen c f -> updatesOpen (k tt) g ->
  updatesOpen (bind c k) (fun e => g (f e)).
Proof.
  intros Hc Hk s. unfold bind. rewrite Hc, Hk. reflexivity.
Qed.

Lemma updatesOpen_lift (v : value) k f :
  updatesOpen (k v) f -> updatesOpen (bind (lift (Ok v)) k) f.
Proof. intros H s. apply H. Qed.

Lemma updatesOpen_ext c f g :
  updatesOpen c f -> (forall e, f e = g e) -> updatesOpen c g.
Proof. intros H E s. rewrite H, E. reflexivity. Qed.

Lemma updatesOpen_loggerFn (loggerFn : value) :
  updatesOpen
    match loggerFn with
    | VFun src => Open.onBase (assign (Extra.set_log (LoggerFn src)))
    | _ => when (isFalse loggerFn)
             (Open.onBase (assign (Extra.set_log FunctionPrototype)))
    end
    (fun e => match loggerFn with
              | VFun src => Extra.set_log (LoggerFn src) e
              | _ => cond (isFalse loggerFn) (Extra.set_log FunctionPrototype) e
              end).
Proof.
  destruct loggerFn;
    first [ apply updatesOpen_assign
          | apply (updatesOpen_when _ _ _ (fun _ => updatesOpen_assign _)) ].
Qed.

Lemma updatesOpen_project (project : value) :
  updatesOpen
    match project with
    | VStr s => Open.onBase (assign (Extra.set_project [s]))
    | VArr items =>
        when (everyString items)
          (Open.onBase (assign (Extra.set_project (stringsOf items))))
    | _ => ret tt
    end
    (fun e => match project with
              | VStr s => Extra.set_project [s] e
              | VArr items =>
                  cond (everyString items) (Extra.set_project (stringsOf items)) e
              | _ => e
              end).
Proof.
  destruct project;
    first [ apply updatesOpen_assign
          | apply (updatesOpen_when _ _ _ (fun _ => updatesOpen_assign _))
          | apply updatesOpen_ret ].
Qed.

(** The assignment of [extra.source] when the conversion runs no code of
    the caller. *)
Lemma updatesOpen_source h (source : value) :
  plain source = true ->
  updatesOpen
    (bind (gets Open.extraObject) (fun target =>
       bind (Open.toString h source) (fun s =>
         bind (gets Open.extraObject) (fun current =>
           when (target =? current)%nat
             (Open.onBase (assign (Extra.set_source (Some s))))))))
    (Extra.set_source (Some (toString source))).
Proof.
  intros Hp s. unfold bind, gets.
  rewrite (toString_plain h source s Hp). rewrite Nat.eqb_refl. reflexivity.
Qed.

Lemma readOptions_open h options :
  nullish options = false ->
  plainSource options = true ->
  updatesOpen (Open.readOptions h options) (optionsUpdate options).
Proof.
  intros Hn Hsrc.
  assert (Ht : String.eqb (typeof options) "undefined" = false)
    by (destruct options; try reflexivity; discriminate).
  unfold Open.readOptions. rewrite Ht. simpl negb. unfold when at 1.
  rewrite !(getProp_ok options) by assumption.
  eapply updatesOpen_ext.
  - eapply updatesOpen_lift, updatesOpen_bind; [apply updatesOpen_assign|].
    eapply updatesOpen_lift, updatesOpen_bind; [apply updatesOpen_assign|].
    eapply updatesOpen_lift, updatesOpen_bind.
    { apply updatesOpen_when. intros Hread. apply updatesOpen_source.
      unfold plainSource, readsSource, nullish in Hsrc.
      rewrite negb_orb, (andb_comm (negb (isUndefined _))), andb_assoc, Hread in Hsrc.
      exact Hsrc. }
    repeat first
      [ apply updatesOpen_lift
      | apply updatesOpen_loggerFn
      | apply updatesOpen_project
      | eapply updatesOpen_bind
      | apply updatesOpen_assign
      | apply updatesOpen_when; intros ?
      | apply updatesOpen_ret ].
    rewrite getProp_ok by (apply truthy_object_not_nullish; assumption).
    apply updatesOpen_lift, updatesOpen_assign.
  - intros e. reflexivity.
Qed.

Lemma context_built h options s :
  isNull options = false ->
  plainSource options = true ->
  bind Open.resetExtra (fun _ => Open.readOptions h options) s =
  (Ok tt, built (contextRecord options) s).
Proof.
  intros Hnull Hsrc. unfold bind, Open.resetExtra, modify.
  destruct (isUndefined options) eqn:Hu.
  - destruct options; try discriminate. reflexivity.
  - rewrite (readOptions_open h options) by
      (try assumption; unfold nullish; rewrite Hu, Hnull; reflexivity).
    unfold built. cbn [Open.base Open.extraObject extra set_extra].
    rewrite optionsUpdate_closed. reflexivity.
Qed.

(** ** The call, step by step *)

Lemma bind_assoc {S A B C} (c : SE S A) (k1 : A -> SE S B) (k2 : B -> SE S C) s :
  bind (bind c k1) k2 s = bind c (fun a => bind (k1 a) k2) s.
Proof. unfold bind. destruct (c s) as [[a|e] s']; reflexivity. Qed.

Lemma generateAST_open h env code options s :
  Open.generateAST h env code options s =
  bind (coerce h code) (fun code' =>
    bind (bind Open.resetExtra (fun _ => Open.readOptions h options)) (fun _ =>
      bind (Open.warnAboutTSVersion h env) (fun _ =>
        restOfCall h env code' options))) s.
Proof.
  unfold Open.generateAST, coerce, restOfCall, bind.
  destruct (negb (String.eqb (typeof code) "string") && negb (instanceofString code));
    [destruct (Open.toString h code s) as [[text|e] s1]|]; cbn [ret];
    try reflexivity.
Qed.

Lemma parse_open h env code options s :
  Open.parse h env code options s =
  wrapped (Open.generateAST h env code options) s.
Proof. reflexivity. Qed.

Lemma wrapped_eq (c : Open.OM GenerateResult) s :
  wrapped c s =
  (match fst (c s) with
   | Ok r => Ok (toParseResult r)
   | Throw e => Throw e
   end, snd (c s)).
Proof. unfold wrapped, bind. destruct (c s) as [[r|e] s']; reflexivity. Qed.

Lemma coerce_string h text s : coerce h (VStr text) s = (Ok (VStr text), s).
Proof. reflexivity. Qed.

Lemma bind_ok {S A B} (c : SE S A) (k : A -> SE S B) s a s' :
  c s = (Ok a, s') -> bind c k s = k a s'.
Proof. intros H. unfold bind. rewrite H. reflexivity. Qed.

Lemma bind_throw {S A B} (c : SE S A) (k : A -> SE S B) s e s' :
  c s = (Throw e, s') -> bind c k s = (Throw e, s').
Proof. intros H. unfold bind. rewrite H. reflexivity. Qed.

Lemma coerce_twice h code s code' s1 :
  coerce h code s = (Ok code', s1) -> coerce h code' s1 = (Ok code', s1).
Proof.
  unfold coerce at 1.
  destruct (negb (String.eqb (typeof code) "string")
            && negb (instanceofString code)) eqn:Hcond.
  - unfold bind. destruct (Open.toString h code s) as [[text|e] s2];
      [|discriminate].
    intros [= <- <-]. reflexivity.
  - intros [= <- <-]. unfold coerce. rewrite Hcond. reflexivity.
Qed.

Lemma generateAST_coerced h env code options s :
  Open.generateAST h env code options s =
  match coerce h code s with
  | (Ok code', s1) => Open.generateAST h env code' options s1
  | (Throw e, s1) => (Throw e, s1)
  end.
Proof.
  rewrite generateAST_open.
  destruct (coerce h code s) as [[code'|e] s1] eqn:Hc.
  - rewrite (bind_ok _ _ _ _ _ Hc), generateAST_open.
    rewrite (bind_ok _ _ _ _ _ (coerce_twice h code s code' s1 Hc)). reflexivity.
  - apply (bind_throw _ _ _ _ _ Hc).
Qed.

(** ** The version warning with the logger run *)

Lemma warnAboutTSVersion_open h env s :
  Open.warnAboutTSVersion h env s =
  if warningDue env s then
    match Extra.log (extra (Open.base s)) with
    | FunctionPrototype => (Ok tt, flagged s)
    | ConsoleLog =>
        (Ok tt, flagged (noted (EvLog ConsoleLog (versionWarning env)) s))
    | LoggerFn src =>
        match Open.call h src Open.ThisExtra [VStr (versionWarning env)]
                (noted (EvLog (LoggerFn src) (versionWarning env)) s) with
        | (Ok _, s1) => (Ok tt, flagged s1)
        | (Throw e, s1) => (Throw e, s1)
        end
    end
  else (Ok tt, s).
Proof.
  unfold Open.warnAboutTSVersion, warningDue, bind, gets, when.
  destruct (negb (isRunningSupportedTypeScriptVersion env)
            && negb (warnedAboutTSVersion (Open.base s))); [|reflexivity].
  fold (versionWarning env).
  destruct (Extra.log (extra (Open.base s))) as [|src|]; try reflexivity.
  unfold Open.callLog, bind. cbn [Open.onBase modify].
  fold (noted (EvLog (LoggerFn src) (versionWarning env)) s).
  destruct (Open.call h src Open.ThisExtra _ _) as [[v|e] s1]; reflexivity.
Qed.

(** ** Steps that run no code of the caller *)

Lemma silentOpen_ret {A} (a : A) : silentOpen (ret a).
Proof. intros s. simpl. auto. Qed.

Lemma silentOpen_bind {A B} (c : Open.OM A) (k : A -> Open.OM B) :
  silentOpen c -> (forall a, silentOpen (k a)) -> silentOpen (bind c k).
Proof.
  intros Hc Hk s. unfold bind. destruct (Hc s) as (Hl & Hf & Ho).
  destruct (c s) as [[a|e] s']; simpl in *.
  - destruct (Hk a s') as (Hl' & Hf' & Ho'). rewrite Hl', Hf', Ho'. auto.
  - auto.
Qed.

Lemma silentOpen_gets {A} (f : Open.State -> A) : silentOpen (gets f).
Proof. intros s. simpl. auto. Qed.

Lemma silentOpen_onBase {A} (c : M A) : silent c -> silentOpen (Open.onBase c).
Proof.
  intros Hc s. rewrite onBase_eq. simpl. destruct (Hc (Open.base s)). auto.
Qed.

Lemma convert_open_eq h env ast ctx s :
  Open.convert h env ast ctx s =
  match ast with
  | None =>
      (Throw (TypeError "Cannot read property 'kind' of undefined"), s)
  | Some root =>
      let walked :=
        Open.convertNode h env ctx (sourceText ctx) [] root
          {| cs_next := nextNodeId (Open.base s); cs_registry := emptyRegistry |} in
      (match fst walked with
       | Ok g => Ok (conversionOf env ctx g (snd walked))
       | Throw e => Throw e
       end,
       {| Open.base := set_nextNodeId (cs_next (snd walked)) (Open.base s);
          Open.extraObject := Open.extraObject s |})
  end.
Proof.
  unfold Open.convert, Open.onBase. destruct ast as [root|].
  - cbv zeta.
    destruct (Open.convertNode h env ctx (sourceText ctx) [] root _) as [[g|e] st];
      reflexivity.
  - destruct s; reflexivity.
Qed.

Lemma silentOpen_convert h env ast ctx : silentOpen (Open.convert h env ast ctx).
Proof.
  intros s. rewrite convert_open_eq. destruct ast as [root|]; simpl; auto.
Qed.

Lemma silentOpen_finish h env code should found :
  silentOpen (finishOpen h env code should found).
Proof.
  unfold finishOpen. destruct found as [relevantProgram ast].
  apply silentOpen_bind; [apply silentOpen_onBase, silent_assign|]. intros _.
  apply silentOpen_bind; [apply silentOpen_gets|]. intros ex.
  apply silentOpen_bind; [apply silentOpen_convert|]. intros converted.
  apply silentOpen_ret.
Qed.

Lemma restOfCall_eq h env code options s :
  restOfCall h env code options s =
  bind (gets (fun s => extra (Open.base s))) (fun ex =>
    let should := (0 <? length (Extra.project ex))%nat in
    bind (Open.onBase
            (if should then
               bind (lift (getProp options "filePath")) (fun FILENAME =>
                 findRelevantProgram
                   (calculateProjectParserOptions env code options
                      (Extra.project ex)) FILENAME)
             else ret (None, None))) (fun found =>
      bind (Open.onBase (match snd found with
                         | None => isolatedProgram env code ex
                         | Some _ => ret found
                         end)) (fun found' =>
        finishOpen h env code should found'))) s.
Proof.
  unfold restOfCall, finishOpen, bind, gets. cbv zeta.
  destruct (Open.onBase _ s) as [[found|e] s1]; [|reflexivity].
  destruct (Open.onBase _ s1) as [[[relevantProgram ast]|e] s2]; reflexivity.
Qed.

Lemma silentOpen_restOfCall h env code options :
  silentOpen (restOfCall h env code options).
Proof.
  intros s. rewrite restOfCall_eq. revert s.
  change (silentOpen
    (bind (gets (fun s => extra (Open.base s))) (fun ex =>
       let should := (0 <? length (Extra.project ex))%nat in
       bind (Open.onBase
               (if should then
                  bind (lift (getProp options "filePath")) (fun FILENAME =>
                    findRelevantProgram
                      (calculateProjectParserOptions env code options
                         (Extra.project ex)) FILENAME)
                else ret (None, None))) (fun found =>
         bind (Open.onBase (match snd found with
                            | None => isolatedProgram env code ex
                            | Some _ => ret found
                            end)) (fun found' =>
           finishOpen h env code should found'))))).
  apply silentOpen_bind; [apply silentOpen_gets|]. intros ex. cbv zeta.
  apply silentOpen_bind.
  { apply silentOpen_onBase.
    destruct (0 <? length (Extra.project ex))%nat; [|apply silent_ret].
    apply silent_bind; [apply silent_lift|]. intros FILENAME.
    apply silent_findRelevantProgram, silent_calculateProjectParserOptions. }
  intros found. apply silentOpen_bind.
  { apply silentOpen_onBase.
    destruct (snd found); [apply silent_ret | apply silent_isolatedProgram]. }
  intros found'. apply silentOpen_finish.
Qed.

Lemma restOfCall_no_project h env code options s :
  Extra.project (extra (Open.base s)) = [] ->
  restOfCall h env code options s =
  finishOpen h env code false
    (Some (isolatedOf env code (extra (Open.base s))),
     getSourceFile (isolatedOf env code (extra (Open.base s)))
       (VStr (isolatedFileName (extra (Open.base s)))))
    (noted (EvGetSourceFile (isolatedOf env code (extra (Open.base s)))
              (VStr (isolatedFileName (extra (Open.base s))))) s).
Proof.
  intros Hproj. rewrite restOfCall_eq. unfold bind at 1, gets. cbv zeta.
  rewrite Hproj. cbn [length Nat.ltb Nat.leb].
  rewrite (bind_ok _ _ _ _ _ (onBase_ret _ s)). cbn [snd].
  unfold bind at 1. rewrite onBase_eq, isolatedProgram_eq. reflexivity.
Qed.

Lemma finishOpen_eq h env code should relevantProgram ast s :
  finishOpen h env code should (relevantProgram, ast) s =
  (match fst (Open.convert h env ast (extra (Open.base (withCodeOpen code s)))
                (withCodeOpen code s)) with
   | Ok converted => Ok (resultOf should relevantProgram converted)
   | Throw e => Throw e
   end,
   snd (Open.convert h env ast (extra (Open.base (withCodeOpen code s)))
          (withCodeOpen code s))).
Proof.
  unfold finishOpen, bind, gets. cbn [Open.onBase assign modify].
  fold (withCode code (Open.base s)). fold (withCodeOpen code s).
  destruct (Open.convert h env ast _ _) as [[converted|e] s']; reflexivity.
Qed.

Lemma generateAST_plain h env code options s :
  isNull options = false ->
  plain code = true ->
  plainSource options = true ->
  Open.generateAST h env code options s =
  bind (Open.warnAboutTSVersion h env)
    (fun _ => restOfCall h env (coerceCode code) options)
    (built (contextRecord options) s).
Proof.
  intros Hnull Hcode Hsrc. rewrite generateAST_open.
  rewrite (bind_ok _ _ _ _ _ (coerce_plain h code s Hcode)).
  rewrite (bind_ok _ _ _ _ _ (context_built h options s Hnull Hsrc)).
  reflexivity.
Qed.

Lemma generateAST_null_open h env code s :
  plain code = true ->
  Open.generateAST h env code VNull s =
  (Throw (TypeError "Cannot read property 'range' of null"), built defaultExtra s).
Proof.
  intros Hcode. rewrite generateAST_open.
  rewrite (bind_ok _ _ _ _ _ (coerce_plain h code s Hcode)). reflexivity.
Qed.

(** ** What the caller's code can and cannot do to a call *)

Lemma convert_open_frame h env ast ctx s :
  extra (Open.base (snd (Open.convert h env ast ctx s))) = extra (Open.base s) /\
  knownPrograms (Open.base (snd (Open.convert h env ast ctx s))) =
    knownPrograms (Open.base s) /\
  trace (Open.base (snd (Open.convert h env ast ctx s))) = trace (Open.base s).
Proof. rewrite convert_open_eq. destruct ast as [root|]; simpl; auto. Qed.

Lemma finishOpen_code h env code should found s r :
  fst (finishOpen h env code should found s) = Ok r ->
  Extra.code (extra (Open.base (snd (finishOpen h env code should found s)))) =
  Some code.
Proof.
  destruct found as [relevantProgram ast]. rewrite finishOpen_eq. cbn [fst snd].
  intros _. rewrite (proj1 (convert_open_frame h env ast _ _)). reflexivity.
Qed.

Lemma bind_inv_ok {S A B} (c : SE S A) (k : A -> SE S B) s r :
  fst (bind c k s) = Ok r ->
  exists a s', c s = (Ok a, s') /\ bind c k s = k a s'.
Proof.
  unfold bind. destruct (c s) as [[a|e] s']; [|discriminate].
  intros _. eauto.
Qed.

Lemma restOfCall_code h env code options s r :
  fst (restOfCall h env code options s) = Ok r ->
  Extra.code (extra (Open.base (snd (restOfCall h env code options s)))) =
  Some code.
Proof.
  rewrite restOfCall_eq. intros H.
  destruct (bind_inv_ok _ _ _ _ H) as (ex & s0 & _ & E). rewrite E in *. clear E.
  cbv zeta in *.
  destruct (bind_inv_ok _ _ _ _ H) as (found & s1 & _ & E). rewrite E in *. clear E.
  destruct (bind_inv_ok _ _ _ _ H) as (found' & s2 & _ & E). rewrite E in *. clear E.
  eapply finishOpen_code. exact H.
Qed.

Lemma generateAST_code h env text options s r :
  fst (Open.generateAST h env (VStr text) options s) = Ok r ->
  Extra.code (extra (Open.base (snd (Open.generateAST h env (VStr text) options s)))) =
  Some (VStr text).
Proof.
  rewrite generateAST_open.
  rewrite (bind_ok _ _ _ _ _ (coerce_string h text s)). intros H.
  destruct (bind_inv_ok _ _ _ _ H) as ([] & s1 & _ & E). rewrite E in *. clear E.
  destruct (bind_inv_ok _ _ _ _ H) as ([] & s2 & _ & E). rewrite E in *. clear E.
  eapply restOfCall_code. exact H.
Qed.

Lemma contextRecord_undefined : contextRecord VUndefined = defaultExtra.
Proof. reflexivity. Qed.

Lemma warnAboutTSVersion_console h env s :
  Extra.log (extra (Open.base s)) = ConsoleLog ->
  Open.warnAboutTSVersion h env s =
    (Ok tt, snd (Open.warnAboutTSVersion h env s)) /\
  extra (Open.base (snd (Open.warnAboutTSVersion h env s))) = extra (Open.base s).
Proof.
  intros Hlog. rewrite warnAboutTSVersion_open, Hlog.
  destruct (warningDue env s); auto.
Qed.

(** C8, as the code has it: a source-code argument that is not a string is
    converted by [String] before anything else, and the call goes on with
    the string: it is the call on that string, made in the state that the
    conversion leaves, and a call that returns has the string as the code
    of its context.  The conversion is not always possible: when it throws
    (an object whose [toString] and [valueOf] are not callable or return
    objects, or one whose method throws), the call throws that error with
    nothing else done.  For plain data (undefined, null, booleans,
    integers that a number holds exactly, functions, objects without a
    [toString] of their own, arrays of these) the conversion runs no code
    of the caller, cannot fail and gives the usual string form; the call
    without options then returns the conversion of the source file that
    the isolated program holds for that string. *)
Theorem non_string_code_is_coerced
    (h : Open.Host) (env : Env) (code options : value) (s : Open.State) :
  String.eqb (typeof code) "string" = false ->
  instanceofString code = false ->
  match Open.toString h code s with
  | (Ok text, s1) =>
      Open.parse h env code options s = Open.parse h env (VStr text) options s1 /\
      (forall r, fst (Open.parse h env code options s) = Ok r ->
         Extra.code (extra (Open.base (snd (Open.parse h env code options s)))) =
         Some (VStr text))
  | (Throw e, s1) => Open.parse h env code options s = (Throw e, s1)
  end /\
  (plain code = true ->
   Open.toString h code s = (Ok (toString code), s) /\
   let text := VStr (toString code) in
   let s1 := snd (Open.warnAboutTSVersion h env (built defaultExtra s)) in
   let isolated := isolatedOf env text defaultExtra in
   let FILENAME := VStr "estree.ts" in
   let sc := withCodeOpen text (noted (EvGetSourceFile isolated FILENAME) s1) in
   fst (Open.parse h env code VUndefined s) =
     match fst (Open.convert h env (getSourceFile isolated FILENAME)
                  (Extra.set_code (Some text) defaultExtra) sc) with
     | Ok converted =>
         Ok {| ast := cr_estree converted;
               services :=
                 {| sv_program := None;
                    sv_esTreeNodeToTSNodeMap := None;
                    sv_tsNodeToESTreeNodeMap := None |} |}
     | Throw e => Throw e
     end).
Proof.
  intros Htype Hobj.
  assert (Hcoerce : coerce h code s =
            match Open.toString h code s with
            | (Ok text, s1) => (Ok (VStr text), s1)
            | (Throw e, s1) => (Throw e, s1)
            end).
  { unfold coerce, bind. rewrite Htype, Hobj. cbn [negb andb].
    destruct (Open.toString h code s) as [[text|e] s1]; reflexivity. }
  split.
  - destruct (Open.toString h code s) as [[text|e] s1] eqn:Hconv.
    + assert (Hgen : Open.generateAST h env code options s =
                     Open.generateAST h env (VStr text) options s1)
        by (rewrite generateAST_coerced, Hcoerce; reflexivity).
      rewrite !parse_open, !wrapped_eq, Hgen. split; [reflexivity|].
      intros r. cbn [fst snd].
      destruct (fst (Open.generateAST h env (VStr text) options s1)) as [r0|e]
        eqn:Hr; [|discriminate].
      intros _. apply (generateAST_code h env text options s1 r0 Hr).
    + rewrite parse_open, wrapped_eq, generateAST_coerced, Hcoerce. reflexivity.
  - intros Hplain. split; [apply toString_plain; exact Hplain|].
    intros text s1 isolated FILENAME sc.
    rewrite parse_open, wrapped_eq. cbn [fst].
    rewrite (generateAST_plain h env code VUndefined s eq_refl Hplain eq_refl).
    rewrite contextRecord_undefined.
    destruct (warnAboutTSVersion_console h env (built defaultExtra s) eq_refl)
      as [Hwarn Hextra].
    rewrite (bind_ok _ _ _ _ _ Hwarn). fold s1. fold s1 in Hextra.
    assert (Hcode : coerceCode code = text).
    { unfold coerceCode. rewrite Htype, Hobj. reflexivity. }
    rewrite Hcode.
    rewrite restOfCall_no_project by (rewrite Hextra; reflexivity).
    rewrite Hextra. cbn [Open.base built extra set_extra].
    change (isolatedFileName defaultExtra) with "estree.ts".
    fold isolated. fold FILENAME.
    rewrite finishOpen_eq. cbn [fst]. fold sc.
    replace (extra (Open.base sc)) with (Extra.set_code (Some text) defaultExtra)
      by (subst sc; cbn [Open.base withCodeOpen withCode noted emit extra set_extra];
          rewrite Hextra; reflexivity).
    destruct (fst (Open.convert h env _ _ sc)) as [converted|e]; reflexivity.
Qed.

Lemma non_string_code_is_coerced_witness :
  match Open.toString quietHost (VArr [VNum 1; VNull; VObj []]) state0 with
  | (Ok text, s1) =>
      Open.parse quietHost Demo.env (VArr [VNum 1; VNull; VObj []]) VUndefined state0 =
      Open.parse quietHost Demo.env (VStr text) VUndefined s1 /\
      (forall r,
         fst (Open.parse quietHost Demo.env (VArr [VNum 1; VNull; VObj []])
                VUndefined state0) = Ok r ->
         Extra.code
           (extra (Open.base
              (snd (Open.parse quietHost Demo.env (VArr [VNum 1; VNull; VObj []])
                      VUndefined state0)))) = Some (VStr text))
  | (Throw e, s1) =>
      Open.parse quietHost Demo.env (VArr [VNum 1; VNull; VObj []]) VUndefined state0 =
      (Throw e, s1)
  end /\
  (plain (VArr [VNum 1; VNull; VObj []]) = true ->
   Open.toString quietHost (VArr [VNum 1; VNull; VObj []]) state0 =
     (Ok (toString (VArr [VNum 1; VNull; VObj []])), state0) /\
   let text := VStr (toString (VArr [VNum 1; VNull; VObj []])) in
   let s1 := snd (Open.warnAboutTSVersion quietHost Demo.env (built defaultExtra state0)) in
   let isolated := isolatedOf Demo.env text defaultExtra in
   let FILENAME := VStr "estree.ts" in
   let sc := withCodeOpen text (noted (EvGetSourceFile isolated FILENAME) s1) in
   fst (Open.parse quietHost Demo.env (VArr [VNum 1; VNull; VObj []]) VUndefined state0) =
     match fst (Open.convert quietHost Demo.env (getSourceFile isolated FILENAME)
                  (Extra.set_code (Some text) defaultExtra) sc) with
     | Ok converted =>
         Ok {| ast := cr_estree converted;
               services :=
                 {| sv_program := None;
                    sv_esTreeNodeToTSNodeMap := None;
                    sv_tsNodeToESTreeNodeMap := None |} |}
     | Throw e => Throw e
     end).
Proof.
  apply (non_string_code_is_coerced quietHost Demo.env
           (VArr [VNum 1; VNull; VObj []]) VUndefined state0).
  - reflexivity.
  - reflexivity.
Defined.

(** The claim C8 fails as stated: an object whose [toString] is not a
    function, and which has no [valueOf] of its own, cannot be converted;
    the call throws a TypeError on account of its source-code argument,
    before the context is even reset. *)
Lemma code_that_cannot_be_converted_makes_the_call_throw :
  Open.parse quietHost Demo.env (VObj [("toString", VNum 1)]) VUndefined state0 =
  (Throw (TypeError "Cannot convert object to primitive value"), state0).
Proof. reflexivity. Qed.

(** ** The context, with the conversion of [options.source] run *)

Lemma readOptions_source_throws h options s e s1 :
  nullish options = false ->
  readsSource options = true ->
  Open.toString h (prop options "source") (beforeSource options s) = (Throw e, s1) ->
  bind Open.resetExtra (fun _ => Open.readOptions h options) s = (Throw e, s1).
Proof.
  intros Hn Hread Hthrow.
  assert (Ht : String.eqb (typeof options) "undefined" = false)
    by (destruct options; try reflexivity; discriminate).
  assert (Hcond : isTrue (prop options "loc")
                  && negb (isNull (prop options "source"))
                  && negb (isUndefined (prop options "source")) = true).
  { unfold readsSource, nullish in Hread.
    rewrite negb_orb, (andb_comm (negb (isUndefined _))), andb_assoc in Hread.
    exact Hread. }
  unfold Open.readOptions. rewrite Ht. simpl negb. unfold when at 1.
  rewrite !(getProp_ok options) by assumption.
  unfold bind at 1. cbn [Open.resetExtra modify].
  unfold bind at 1. cbn [lift].
  unfold bind at 1. cbn [Open.onBase assign modify Open.base Open.extraObject].
  unfold bind at 1. cbn [lift].
  unfold bind at 1. cbn [Open.onBase assign modify Open.base Open.extraObject].
  unfold bind at 1. cbn [lift].
  rewrite Hcond. unfold when at 1.
  unfold bind at 1 2 3, gets.
  unfold beforeSource, built in Hthrow.
  cbn [set_extra extra Open.base Open.extraObject] in *.
  rewrite !set_extra_twice, Hthrow. reflexivity.
Qed.

(** X1: the context that the option block builds is a closed-form function
    of the options, as long as the conversion of [options.source] to a
    string, made when [loc] is true and [source] is neither null nor
    undefined, runs no code of the caller.  Then each of range, loc,
    tokens, comment and useJSXTextNode is on exactly when the option is the
    boolean true; errorOnUnknownASTType needs only be truthy; the jsx flag
    is whatever [ecmaFeatures.jsx] holds, taken only from an object; the
    logger is the function in [loggerFn], nothing for [loggerFn: false],
    and [console.log] for every other value; the lists of comments and
    errors start empty and the code is not yet set.  When the conversion
    of [source] throws, the block throws that error with only range and
    loc set. *)
Theorem context_in_closed_form
    (h : Open.Host) (options : value) (s : Open.State) :
  isNull options = false ->
  (plainSource options = true ->
   bind Open.resetExtra (fun _ => Open.readOptions h options) s =
   (Ok tt, built (contextRecord options) s)) /\
  (forall e s1,
     readsSource options = true ->
     Open.toString h (prop options "source") (beforeSource options s) =
       (Throw e, s1) ->
     bind Open.resetExtra (fun _ => Open.readOptions h options) s = (Throw e, s1)).
Proof.
  intros Hnull. split.
  - intros Hsrc. apply context_built; assumption.
  - intros e s1 Hread Hthrow.
    apply readOptions_source_throws; try assumption.
    destruct options; try reflexivity; discriminate.
Qed.

Lemma context_in_closed_form_witness :
  let options := VObj [("loc", VBool true); ("source", VNum 7)] in
  (plainSource options = true ->
   bind Open.resetExtra (fun _ => Open.readOptions quietHost options) state0 =
   (Ok tt, built (contextRecord options) state0)) /\
  (forall e s1,
     readsSource options = true ->
     Open.toString quietHost (prop options "source") (beforeSource options state0) =
       (Throw e, s1) ->
     bind Open.resetExtra (fun _ => Open.readOptions quietHost options) state0 =
     (Throw e, s1)).
Proof.
  intros options.
  apply (context_in_closed_form quietHost options state0). reflexivity.
Defined.

(** ** The version warning *)

Lemma warningDue_built env e s : warningDue env (built e s) = warningDue env s.
Proof. reflexivity. Qed.

Lemma log_contextRecord options :
  Extra.log (contextRecord options) = loggerOf (prop options "loggerFn").
Proof. reflexivity. Qed.

Lemma generateAST_warned h env code options s :
  isNull options = false ->
  plain code = true ->
  plainSource options = true ->
  warningDue env s = false ->
  Open.generateAST h env code options s =
  restOfCall h env (coerceCode code) options (built (contextRecord options) s).
Proof.
  intros Hnull Hcode Hsrc Hdue.
  rewrite generateAST_plain by assumption.
  unfold bind. rewrite warnAboutTSVersion_open, warningDue_built, Hdue. reflexivity.
Qed.

Lemma parse_after_context h env code options s :
  isNull options = false ->
  plain code = true ->
  plainSource options = true ->
  Open.parse h env code options s =
  match Open.warnAboutTSVersion h env (built (contextRecord options) s) with
  | (Ok _, s1) => wrapped (restOfCall h env (coerceCode code) options) s1
  | (Throw e, s1) => (Throw e, s1)
  end.
Proof.
  intros Hnull Hcode Hsrc. rewrite parse_open, wrapped_eq.
  rewrite generateAST_plain by assumption.
  unfold bind.
  destruct (Open.warnAboutTSVersion h env _) as [[[]|e] s1]; [|reflexivity].
  rewrite wrapped_eq. reflexivity.
Qed.

Lemma goesOn_flagged h env code options s1 :
  warnedAboutTSVersion
    (Open.base (snd (wrapped (restOfCall h env code options) (flagged s1)))) = true.
Proof.
  rewrite wrapped_eq. cbn [snd].
  rewrite (proj1 (proj2 (silentOpen_restOfCall h env code options (flagged s1)))).
  reflexivity.
Qed.

Lemma returned_call_is_flagged h env code options s r :
  isNull options = false ->
  plain code = true ->
  plainSource options = true ->
  warningDue env s = true ->
  fst (Open.parse h env code options s) = Ok r ->
  warnedAboutTSVersion (Open.base (snd (Open.parse h env code options s))) = true.
Proof.
  intros Hnull Hcode Hsrc Hdue.
  rewrite parse_after_context by assumption.
  rewrite warnAboutTSVersion_open, warningDue_built, Hdue.
  destruct (Extra.log _) as [|src|].
  - intros _. apply goesOn_flagged.
  - destruct (Open.call h src Open.ThisExtra _ _) as [[v|e] s1]; [|discriminate].
    intros _. apply goesOn_flagged.
  - intros _. apply goesOn_flagged.
Qed.

(** X3: the version warning goes to the logger of the call that triggers
    it, and the flag is set only once the logger has returned.  For a call
    with options other than null whose string conversions run no code of
    the caller, made when the warning is due: the function given as
    [loggerFn] runs with the warning text, with [extra] holding the context
    of this call; when it throws, the call throws that error and sets no
    flag; when it returns, the flag is set and the call goes on from the
    state that the function left.  For [loggerFn: false] nothing is called
    and the flag is set; for every other value the text goes to
    [console.log].  A call that returns has the flag set. *)
Theorem version_warning_goes_to_the_logger_of_the_call
    (h : Open.Host) (env : Env) (code options : value) (s : Open.State) :
  isNull options = false ->
  plain code = true ->
  plainSource options = true ->
  warningDue env s = true ->
  let ready := built (contextRecord options) s in
  let text := versionWarning env in
  let goesOn := wrapped (restOfCall h env (coerceCode code) options) in
  match loggerOf (prop options "loggerFn") with
  | LoggerFn src =>
      match Open.call h src Open.ThisExtra [VStr text]
              (noted (EvLog (LoggerFn src) text) ready) with
      | (Throw e, s1) => Open.parse h env code options s = (Throw e, s1)
      | (Ok _, s1) => Open.parse h env code options s = goesOn (flagged s1)
      end
  | ConsoleLog =>
      Open.parse h env code options s =
      goesOn (flagged (noted (EvLog ConsoleLog text) ready))
  | FunctionPrototype =>
      Open.parse h env code options s = goesOn (flagged ready)
  end /\
  (forall r,
     fst (Open.parse h env code options s) = Ok r ->
     warnedAboutTSVersion (Open.base (snd (Open.parse h env code options s))) = true).
Proof.
  intros Hnull Hcode Hsrc Hdue ready text goesOn.
  split; [|intros r; apply returned_call_is_flagged; assumption].
  rewrite parse_after_context by assumption. fold ready. fold goesOn.
  rewrite warnAboutTSVersion_open.
  assert (Hready : warningDue env ready = true) by exact Hdue.
  rewrite Hready.
  replace (Extra.log (extra (Open.base ready)))
    with (loggerOf (prop options "loggerFn")) by reflexivity.
  fold text.
  destruct (loggerOf (prop options "loggerFn")) as [|src|]; try reflexivity.
  destruct (Open.call h src Open.ThisExtra _ _) as [[v|e] s1]; reflexivity.
Qed.

Lemma version_warning_goes_to_the_logger_of_the_call_witness :
  let options := VObj [("loggerFn", VFun "again")] in
  let ready := built (contextRecord options) state0 in
  let text := versionWarning unsupportedEnv in
  let goesOn :=
    wrapped (restOfCall reenteringHost unsupportedEnv (coerceCode (VStr "x")) options) in
  match loggerOf (prop options "loggerFn") with
  | LoggerFn src =>
      match Open.call reenteringHost src Open.ThisExtra [VStr text]
              (noted (EvLog (LoggerFn src) text) ready) with
      | (Throw e, s1) =>
          Open.parse reenteringHost unsupportedEnv (VStr "x") options state0 =
          (Throw e, s1)
      | (Ok _, s1) =>
          Open.parse reenteringHost unsupportedEnv (VStr "x") options state0 =
          goesOn (flagged s1)
      end
  | ConsoleLog =>
      Open.parse reenteringHost unsupportedEnv (VStr "x") options state0 =
      goesOn (flagged (noted (EvLog ConsoleLog text) ready))
  | FunctionPrototype =>
      Open.parse reenteringHost unsupportedEnv (VStr "x") options state0 =
      goesOn (flagged ready)
  end /\
  (forall r,
     fst (Open.parse reenteringHost unsupportedEnv (VStr "x") options state0) = Ok r ->
     warnedAboutTSVersion
       (Open.base (snd (Open.parse reenteringHost unsupportedEnv (VStr "x")
                          options state0))) = true).
Proof.
  intros options.
  apply (version_warning_goes_to_the_logger_of_the_call reenteringHost
           unsupportedEnv (VStr "x") options state0); reflexivity.
Defined.

Lemma parse_silent_when_not_due h env code options s :
  plain code = true ->
  plainSource options = true ->
  warningDue env s = false ->
  logsOf (trace (Open.base (snd (Open.parse h env code options s)))) =
    logsOf (trace (Open.base s)) /\
  warningDue env (snd (Open.parse h env code options s)) = false.
Proof.
  intros Hcode Hsrc Hdue. rewrite parse_open, wrapped_eq. cbn [snd].
  destruct (isNull options) eqn:Hnull.
  - destruct options; try discriminate.
    rewrite generateAST_null_open by assumption. auto.
  - rewrite generateAST_warned by assumption.
    destruct (silentOpen_restOfCall h env (coerceCode code) options
                (built (contextRecord options) s)) as (Hl & Hf & _).
    split; [exact Hl|]. unfold warningDue in *. rewrite Hf. exact Hdue.
Qed.

(** X4: once a call has returned, the version warning is never given
    again.  After a call that returned, made with options other than null
    and with string conversions that run no code of the caller, a later
    call of that kind hands nothing to a logger, whatever its code and
    options.  (A call whose logger throws does not return, and sets no
    flag: the warning is then due again.) *)
Theorem version_warning_is_given_once
    (h : Open.Host) (env : Env) (code1 options1 code2 options2 : value)
    (s : Open.State) (r1 : ParseResult) :
  isNull options1 = false ->
  plain code1 = true -> plainSource options1 = true ->
  plain code2 = true -> plainSource options2 = true ->
  fst (Open.parse h env code1 options1 s) = Ok r1 ->
  logsOf (trace (Open.base (snd (Open.parse h env code2 options2
                                   (snd (Open.parse h env code1 options1 s)))))) =
  logsOf (trace (Open.base (snd (Open.parse h env code1 options1 s)))).
Proof.
  intros Hnull Hcode1 Hsrc1 Hcode2 Hsrc2 Hret.
  apply parse_silent_when_not_due; try assumption.
  destruct (warningDue env s) eqn:Hdue.
  - pose proof (returned_call_is_flagged h env code1 options1 s r1
                  Hnull Hcode1 Hsrc1 Hdue Hret) as Hflag.
    unfold warningDue. rewrite Hflag. apply andb_false_r.
  - apply (parse_silent_when_not_due h env code1 options1 s); assumption.
Qed.

Lemma version_warning_is_given_once_witness :
  logsOf (trace (Open.base (snd (Open.parse quietHost unsupportedEnv (VStr "y") VUndefined
                                   (snd (Open.parse quietHost unsupportedEnv (VStr "x")
                                           (VObj [("loggerFn", VBool false)]) state0)))))) =
  logsOf (trace (Open.base (snd (Open.parse quietHost unsupportedEnv (VStr "x")
                                   (VObj [("loggerFn", VBool false)]) state0)))).
Proof.
  eapply (version_warning_is_given_once quietHost unsupportedEnv (VStr "x")
            (VObj [("loggerFn", VBool false)]) (VStr "y") VUndefined state0).
  - reflexivity.
  - reflexivity.
  - reflexivity.
  - reflexivity.
  - reflexivity.
  - vm_compute. reflexivity.
Defined.

(** ** What a call depends on *)

Lemma agreesOpen_ret {A} (a : A) : agreesOpen (ret a).
Proof. intros s1 s2 H. simpl. auto. Qed.

Lemma agreesOpen_bind {A B} (c : Open.OM A) (k : A -> Open.OM B) :
  agreesOpen c -> (forall a, agreesOpen (k a)) -> agreesOpen (bind c k).
Proof.
  intros Hc Hk s1 s2 H. unfold bind.
  destruct (Hc s1 s2 H) as [Hr Hs].
  destruct (c s1) as [[a1|e1] s1'], (c s2) as [[a2|e2] s2']; simpl in *;
    try discriminate.
  - injection Hr as ->. apply Hk. exact Hs.
  - injection Hr as ->. auto.
Qed.

Lemma agreesOpen_gets_extra : agreesOpen (gets (fun s => extra (Open.base s))).
Proof.
  intros s1 s2 H. unfold gets. simpl. split; [|exact H].
  destruct H as [-> _]. reflexivity.
Qed.

Lemma agreesOpen_onBase {A} (c : M A) : agrees c -> agreesOpen (Open.onBase c).
Proof.
  intros Hc s1 s2 H. rewrite !onBase_eq. simpl. apply Hc. exact H.
Qed.

Lemma agreesOpen_convert h env ast ctx : agreesOpen (Open.convert h env ast ctx).
Proof.
  intros s1 s2 (He & Hc & Hn). rewrite !convert_open_eq.
  destruct ast as [root|]; cbv zeta.
  - rewrite Hn. split; [reflexivity|]. unfold agree. simpl. auto.
  - simpl. unfold agree. auto.
Qed.

Lemma agreesOpen_finish h env code should found :
  agreesOpen (finishOpen h env code should found).
Proof.
  unfold finishOpen. destruct found as [relevantProgram ast].
  apply agreesOpen_bind; [apply agreesOpen_onBase, agrees_assign|]. intros _.
  apply agreesOpen_bind; [apply agreesOpen_gets_extra|]. intros ex.
  apply agreesOpen_bind; [apply agreesOpen_convert|]. intros converted.
  apply agreesOpen_ret.
Qed.

Lemma agreesOpen_restOfCall h env code options :
  agreesOpen (restOfCall h env code options).
Proof.
  intros s1 s2. rewrite !restOfCall_eq. revert s1 s2.
  change (agreesOpen
    (bind (gets (fun s => extra (Open.base s))) (fun ex =>
       let should := (0 <? length (Extra.project ex))%nat in
       bind (Open.onBase
               (if should then
                  bind (lift (getProp options "filePath")) (fun FILENAME =>
                    findRelevantProgram
                      (calculateProjectParserOptions env code options
                         (Extra.project ex)) FILENAME)
                else ret (None, None))) (fun found =>
         bind (Open.onBase (match snd found with
                            | None => isolatedProgram env code ex
                            | Some _ => ret found
                            end)) (fun found' =>
           finishOpen h env code should found'))))).
  apply agreesOpen_bind; [apply agreesOpen_gets_extra|]. intros ex. cbv zeta.
  apply agreesOpen_bind.
  { apply agreesOpen_onBase.
    destruct (0 <? length (Extra.project ex))%nat; [|apply agrees_ret].
    apply agrees_bind; [apply agrees_lift|]. intros FILENAME.
    apply agrees_findRelevantProgram, agrees_calculateProjectParserOptions. }
  intros found. apply agreesOpen_bind.
  { apply agreesOpen_onBase.
    destruct (snd found); [apply agrees_ret | apply agrees_isolatedProgram]. }
  intros found'. apply agreesOpen_finish.
Qed.

(** The warning step when no function of the caller is the logger. *)
Lemma warnAboutTSVersion_own h env s :
  (forall src, Extra.log (extra (Open.base s)) <> LoggerFn src) ->
  fst (Open.warnAboutTSVersion h env s) = Ok tt /\
  agree (Open.base (snd (Open.warnAboutTSVersion h env s))) (Open.base s).
Proof.
  intros Hlog. rewrite warnAboutTSVersion_open.
  destruct (warningDue env s); [|split; [reflexivity|unfold agree; auto]].
  destruct (Extra.log (extra (Open.base s))) as [|src|].
  - split; [reflexivity|]. unfold agree. simpl. auto.
  - exfalso. apply (Hlog src). reflexivity.
  - split; [reflexivity|]. unfold agree. simpl. auto.
Qed.

Lemma agree_trans w1 w2 w3 : agree w1 w2 -> agree w2 w3 -> agree w1 w3.
Proof.
  intros (E1 & C1 & N1) (E2 & C2 & N2). unfold agree.
  rewrite E1, C1, N1. auto.
Qed.

Lemma agree_sym w1 w2 : agree w1 w2 -> agree w2 w1.
Proof. intros (E & C & N). unfold agree. auto. Qed.

Lemma loggerOf_function v src : loggerOf v = LoggerFn src -> isFunction v = true.
Proof. destruct v as [| |[|]| | | | | |]; simpl; intros H; try discriminate; reflexivity. Qed.

Lemma convert_open_result h env ast ctx s1 s2 :
  nextNodeId (Open.base s1) = nextNodeId (Open.base s2) ->
  fst (Open.convert h env ast ctx s1) = fst (Open.convert h env ast ctx s2).
Proof.
  intros H. rewrite !convert_open_eq. destruct ast as [root|]; [|reflexivity].
  cbv zeta. cbn [fst]. rewrite H. reflexivity.
Qed.

(** Without a project the rest of a call reads the context and the
    allocator of node identities only. *)
Lemma restOfCall_without_project h env code options s1 s2 :
  Extra.project (extra (Open.base s1)) = [] ->
  extra (Open.base s1) = extra (Open.base s2) ->
  nextNodeId (Open.base s1) = nextNodeId (Open.base s2) ->
  fst (restOfCall h env code options s1) = fst (restOfCall h env code options s2) /\
  extra (Open.base (snd (restOfCall h env code options s1))) =
    extra (Open.base (snd (restOfCall h env code options s2))).
Proof.
  intros Hproj Hextra Hnext.
  rewrite (restOfCall_no_project h env code options s1 Hproj).
  rewrite (restOfCall_no_project h env code options s2)
    by (rewrite <- Hextra; exact Hproj).
  rewrite <- Hextra. rewrite !finishOpen_eq. cbn [fst snd].
  rewrite !(proj1 (convert_open_frame h env _ _ _)).
  set (ev := EvGetSourceFile _ _).
  assert (Hctx : extra (Open.base (withCodeOpen code (noted ev s2))) =
                 extra (Open.base (withCodeOpen code (noted ev s1)))).
  { cbn. rewrite Hextra. reflexivity. }
  rewrite Hctx. split; [|reflexivity].
  rewrite (convert_open_result h env _ _ (withCodeOpen code (noted ev s1))
             (withCodeOpen code (noted ev s2))); [reflexivity|].
  cbn. exact Hnext.
Qed.

(** C7, as the code has it: the context is rebuilt from the options at the
    start of every call, so what an earlier call left in [extra] reaches
    neither the context nor the result of a later call; but the result is
    not a function of the source text and the options only.  For a call
    whose string conversions run no code of the caller and whose version
    warning, if due, does not go to a function of the caller: two calls
    with the same code and options, made in states that hold the same
    allocator of node identities and, when the options name a project, the
    same program cache, return the same result and leave the same context,
    whatever [extra] held before and whether or not the warning was
    given. *)
Theorem context_is_rebuilt_per_call
    (h : Open.Host) (env : Env) (code options : value) (s1 s2 : Open.State) :
  plain code = true ->
  plainSource options = true ->
  isRunningSupportedTypeScriptVersion env = true \/
  (warnedAboutTSVersion (Open.base s1) = true /\
   warnedAboutTSVersion (Open.base s2) = true) \/
  isFunction (prop options "loggerFn") = false ->
  Extra.project (contextRecord options) = [] \/
  knownPrograms (Open.base s1) = knownPrograms (Open.base s2) ->
  nextNodeId (Open.base s1) = nextNodeId (Open.base s2) ->
  fst (Open.parse h env code options s1) = fst (Open.parse h env code options s2) /\
  extra (Open.base (snd (Open.parse h env code options s1))) =
    extra (Open.base (snd (Open.parse h env code options s2))).
Proof.
  intros Hcode Hsrc Hlogger Hcache Hnext.
  destruct (isNull options) eqn:Hnull.
  { destruct options; try discriminate.
    rewrite !parse_open, !wrapped_eq, !generateAST_null_open by assumption.
    auto. }
  rewrite !parse_after_context by assumption.
  set (ready1 := built (contextRecord options) s1).
  set (ready2 := built (contextRecord options) s2).
  assert (Hsteps :
    exists t1 t2,
      Open.warnAboutTSVersion h env ready1 = (Ok tt, t1) /\
      Open.warnAboutTSVersion h env ready2 = (Ok tt, t2) /\
      agree (Open.base t1) (Open.base ready1) /\
      agree (Open.base t2) (Open.base ready2)).
  { destruct (isFunction (prop options "loggerFn")) eqn:Hfn.
    - assert (Hdue1 : warningDue env ready1 = false).
      { unfold warningDue. simpl.
        destruct Hlogger as [->|[[-> _]|Hf]];
          [reflexivity | apply andb_false_r | discriminate]. }
      assert (Hdue2 : warningDue env ready2 = false).
      { unfold warningDue. simpl.
        destruct Hlogger as [->|[[_ ->]|Hf]];
          [reflexivity | apply andb_false_r | discriminate]. }
      exists ready1, ready2.
      rewrite !warnAboutTSVersion_open, Hdue1, Hdue2.
      unfold agree. auto 6.
    - assert (Hown : forall s, forall src,
                Extra.log (extra (Open.base (built (contextRecord options) s)))
                <> LoggerFn src).
      { intros s src Hl. apply loggerOf_function in Hl. congruence. }
      destruct (warnAboutTSVersion_own h env ready1 (Hown s1)) as [Hr1 Ha1].
      destruct (warnAboutTSVersion_own h env ready2 (Hown s2)) as [Hr2 Ha2].
      destruct (Open.warnAboutTSVersion h env ready1) as [r1 t1].
      destruct (Open.warnAboutTSVersion h env ready2) as [r2 t2].
      simpl in *. subst r1 r2. exists t1, t2. auto. }
  destruct Hsteps as (t1 & t2 & -> & -> & (E1 & C1 & N1) & (E2 & C2 & N2)).
  rewrite !wrapped_eq. cbn [fst snd].
  assert (Hextra : extra (Open.base t1) = extra (Open.base t2))
    by (rewrite E1, E2; reflexivity).
  assert (Hnext' : nextNodeId (Open.base t1) = nextNodeId (Open.base t2))
    by (rewrite N1, N2; exact Hnext).
  destruct Hcache as [Hproj|Hcache].
  - destruct (restOfCall_without_project h env (coerceCode code) options t1 t2)
      as [Hr He]; [rewrite E1; exact Hproj|exact Hextra|exact Hnext'|].
    rewrite Hr, He. auto.
  - assert (Hagree : agree (Open.base t1) (Open.base t2)).
    { unfold agree. rewrite C1, C2. auto. }
    destruct (agreesOpen_restOfCall h env (coerceCode code) options t1 t2 Hagree)
      as [Hr (He & _)].
    rewrite Hr, He. auto.
Qed.

Lemma context_is_rebuilt_per_call_witness :
  let options := VObj [("range", VBool true)] in
  let s2 :=
    {| Open.base :=
         {| extra := Extra.set_loc true (Extra.set_tokens (Some []) defaultExtra);
            warnedAboutTSVersion := true;
            knownPrograms := ∅;
            nextNodeId := 0;
            trace := [EvLog ConsoleLog "warning"] |};
       Open.extraObject := 5 |} in
  fst (Open.parse reenteringHost unsupportedEnv (VStr "x") options state0) =
    fst (Open.parse reenteringHost unsupportedEnv (VStr "x") options s2) /\
  extra (Open.base (snd (Open.parse reenteringHost unsupportedEnv (VStr "x")
                           options state0))) =
    extra (Open.base (snd (Open.parse reenteringHost unsupportedEnv (VStr "x")
                             options s2))).
Proof.
  intros options s2.
  apply (context_is_rebuilt_per_call reenteringHost unsupportedEnv (VStr "x")
           options state0 s2).
  - reflexivity.
  - reflexivity.
  - right. right. reflexivity.
  - right. reflexivity.
  - reflexivity.
Defined.

(** The claim C7 fails as stated: the result of a call is not a function
    of its own source text and options only.  Here the function given as
    [loggerFn] calls [parse] on another text, asking for ranges; the nested
    call replaces the object in [extra], and the outer call, which asked
    for no ranges, goes on with the settings of the nested call: its tree
    carries ranges.  The same call made once the warning has been given
    returns a tree without ranges. *)
Lemma a_logger_that_parses_hands_its_settings_on :
  let options := VObj [("loggerFn", VFun "again")] in
  Extra.range (contextRecord options) = false /\
  returnedRange
    (fst (Open.parse reenteringHost unsupportedEnv (VStr "x") options state0)) =
    Ok (Some (0, 1)) /\
  returnedRange
    (fst (Open.parse reenteringHost unsupportedEnv (VStr "x") options
            (flagged state0))) = Ok None.
Proof. vm_compute. repeat split. Qed.

(** The program cache is the other way in which a call can tell what an
    earlier call was given: with the resolution engine as the spec has it,
    a project whose program is in the cache is not built again, and the
    program built for the text of an earlier call supplies the tree. *)
Lemma a_cached_program_keeps_the_text_of_an_earlier_call :
  let options :=
    VObj [("range", VBool true); ("project", VStr "./tsconfig.json");
          ("filePath", VStr "main.ts")] in
  let later := snd (Open.parse quietHost Demo.env (VStr "abc") options state0) in
  returnedRange (fst (Open.parse quietHost Demo.env (VStr "x") options state0)) =
    Ok (Some (0, 1)) /\
  returnedRange (fst (Open.parse quietHost Demo.env (VStr "x") options later)) =
    Ok (Some (0, 3)).
Proof. vm_compute. repeat split. Qed.

(** ** The registry of a conversion whose builders build several nodes *)

Lemma bind_inv {S A B} (c : SE S A) (k : A -> SE S B) s b s' :
  bind c k s = (Ok b, s') ->
  exists a s1, c s = (Ok a, s1) /\ k a s1 = (Ok b, s').
Proof.
  unfold bind. destruct (c s) as [[a|e] s1]; [|discriminate]. eauto.
Qed.

Lemma Shape_ind' (P : Open.Shape -> Prop) :
  (forall i, P (Open.Child i)) ->
  (forall type parts, Forall P parts -> P (Open.Synthetic type parts)) ->
  forall shape, P shape.
Proof.
  intros HC HS. fix IH 1. intros [i|type parts]; [apply HC|].
  apply HS. induction parts as [|p ps IHps]; constructor.
  - apply IH.
  - exact IHps.
Qed.

Lemma tracked_empty n : tracked {| cs_next := n; cs_registry := emptyRegistry |}.
Proof.
  split; intros a b H; unfold nativeToGeneric, genericToNative in H; simpl in H;
    rewrite lookup_empty in H; discriminate.
Qed.

Lemma tracked_afterNode real path s : tracked s -> tracked (afterNode real path s).
Proof.
  intros [Hback Hlast]. unfold tracked, afterNode. simpl. destruct real.
  - unfold genericToNative, nativeToGeneric, registerPair in *. simpl. split.
    + intros q g. rewrite !lookup_insert.
      destruct (decide (path = q)) as [<-|Hq].
      * intros [= <-]. destruct (decide (cs_next s = cs_next s)); [reflexivity|].
        contradiction.
      * intros H. pose proof (Hback _ _ H) as Hg.
        destruct (decide (cs_next s = g)) as [<-|_]; [|exact Hg].
        destruct (Hlast _ _ Hg) as [Hlt _]. lia.
    + intros g q. rewrite !lookup_insert.
      destruct (decide (cs_next s = g)) as [<-|Hg].
      * intros [= <-]. split; [lia|]. exists (cs_next s).
        destruct (decide (path = path)); [auto|contradiction].
      * intros H. destruct (Hlast _ _ H) as (Hlt & last & Hl & Hle).
        split; [lia|].
        destruct (decide (path = q)) as [<-|_].
        -- exists (cs_next s). split; [reflexivity|lia].
        -- exists last. auto.
  - split; [exact Hback|]. intros g q H.
    destruct (Hlast _ _ H) as (Hlt & Hex). split; [lia|exact Hex].
Qed.

Section Walk.

Variables (h : Open.Host) (env : Env) (ctx : Extra.t) (text : string).

Lemma entriesFrom_refl path n nodes s :
  tracked s -> entriesFrom env ctx path n nodes s s.
Proof.
  intros Ht. split; [exact Ht|]. split; [lia|].
  intros id q H. destruct (proj2 Ht _ _ H) as [Hlt _].
  apply Nat.ltb_lt in Hlt. rewrite Hlt. exact H.
Qed.

Lemma entriesFrom_trans path n nodes1 nodes2 s s1 s2 :
  entriesFrom env ctx path n nodes1 s s1 ->
  entriesFrom env ctx path n nodes2 s1 s2 ->
  entriesFrom env ctx path n (nodes1 ++ nodes2) s s2.
Proof.
  intros (_ & Hle1 & H1) (Ht2 & Hle2 & H2).
  split; [exact Ht2|]. split; [lia|].
  intros id q H. specialize (H2 id q H).
  destruct (id <? cs_next s1)%nat eqn:E1.
  - specialize (H1 id q H2).
    destruct (id <? cs_next s)%nat; [exact H1|].
    destruct H1 as (p & n' & g' & Hq & Hat & Hreal & Hin & Hid & Hb).
    exists p, n', g'. rewrite in_app_iff. auto 10.
  - apply Nat.ltb_ge in E1.
    assert (E : (id <? cs_next s)%nat = false) by (apply Nat.ltb_ge; lia).
    rewrite E.
    destruct H2 as (p & n' & g' & Hq & Hat & Hreal & Hin & Hid & Hb).
    exists p, n', g'. rewrite in_app_iff. auto 10.
Qed.

Lemma entriesFrom_incl path n nodes nodes' s s' :
  (forall g, In g nodes -> In g nodes') ->
  entriesFrom env ctx path n nodes s s' ->
  entriesFrom env ctx path n nodes' s s'.
Proof.
  intros Hincl (Ht & Hle & H). split; [exact Ht|]. split; [exact Hle|].
  intros id q Hreg. specialize (H id q Hreg).
  destruct (id <? cs_next s)%nat; [exact H|].
  destruct H as (p & n' & g' & Hq & Hat & Hreal & Hin & Hid & Hb).
  exists p, n', g'. auto 10.
Qed.

Lemma entriesFrom_child path n i child nodes s s' :
  nativeChildren n !! i = Some child ->
  entriesFrom env ctx (path ++ [i]) child nodes s s' ->
  entriesFrom env ctx path n nodes s s'.
Proof.
  intros Hchild (Ht & Hle & H). split; [exact Ht|]. split; [exact Hle|].
  intros id q Hreg. specialize (H id q Hreg).
  destruct (id <? cs_next s)%nat; [exact H|].
  destruct H as (p & n' & g' & Hq & Hat & Hreal & Hin & Hid & Hb).
  exists (i :: p), n', g'. rewrite <- app_assoc in Hq.
  split; [exact Hq|]. split; [|auto].
  simpl. rewrite Hchild. exact Hat.
Qed.

Lemma entriesFrom_afterNode path kind pos end_ real children node s :
  tracked s ->
  genericId node = cs_next s ->
  builtFrom env ctx (NNode kind pos end_ real children) node ->
  entriesFrom env ctx path (NNode kind pos end_ real children) [node]
    s (afterNode real path s).
Proof.
  intros Ht Hid Hbuilt. split; [apply tracked_afterNode; exact Ht|].
  split; [simpl; lia|].
  intros id q. unfold afterNode, genericToNative. simpl.
  destruct real.
  - unfold registerPair. simpl. rewrite lookup_insert.
    destruct (decide (cs_next s = id)) as [<-|Hne].
    + intros [= <-]. rewrite Nat.ltb_irrefl.
      exists [], (NNode kind pos end_ true children), node.
      rewrite app_nil_r. simpl. auto 10.
    + intros H. destruct (proj2 Ht _ _ H) as [Hlt _].
      apply Nat.ltb_lt in Hlt. rewrite Hlt. exact H.
  - intros H. destruct (proj2 Ht _ _ H) as [Hlt _].
    apply Nat.ltb_lt in Hlt. rewrite Hlt. exact H.
Qed.

(** The conversions of the children, by index. *)
Lemma eachChild_lookup path cs i j c :
  eachChild env ctx h text path i cs !! j = Some c ->
  exists child,
    cs !! j = Some child /\
    c = Open.convertNode h env ctx text (path ++ [(i + j)%nat]) child.
Proof.
  revert i j. induction cs as [|c0 cs IH]; intros i j; simpl.
  - rewrite lookup_nil. discriminate.
  - destruct j as [|j]; simpl.
    + intros [= <-]. exists c0. rewrite Nat.add_0_r. auto.
    + intros H. destruct (IH _ _ H) as (child & Hc & ->).
      exists child. split; [exact Hc|].
      replace (i + S j)%nat with (S i + j)%nat by lia. reflexivity.
Qed.

Section Fields.

Variables (range : option (Z * Z)) (loc : option SourceLocation).
Variables (path : NodeRef) (n : Native) (L : list (SE ConvState Generic)).

Hypothesis children_walk :
  forall i c, L !! i = Some c ->
    exists child, nativeChildren n !! i = Some child /\
                  walks env ctx (path ++ [i]) child c.

Lemma buildShapes_walks parts :
  Forall (fun shape => walksAll env ctx path n (Open.buildShape range loc L shape))
    parts ->
  walksAll env ctx path n (Open.buildShapes range loc L parts).
Proof.
  induction 1 as [|part rest Hpart _ IH]; intros s gs s' Ht; simpl.
  - intros [= <- <-]. apply entriesFrom_refl. exact Ht.
  - intros H. apply bind_inv in H as (gs1 & s1 & H1 & H).
    apply bind_inv in H as (gs2 & s2 & H2 & H). injection H as <- <-.
    pose proof (Hpart _ _ _ Ht H1) as E1.
    pose proof (IH _ _ _ (proj1 E1) H2) as E2.
    rewrite flat_map_app. eapply entriesFrom_trans; eassumption.
Qed.

Lemma buildShape_walks shape :
  walksAll env ctx path n (Open.buildShape range loc L shape).
Proof.
  induction shape as [i|type parts IH] using Shape_ind';
    intros s gs s' Ht; simpl.
  - destruct (L !! i) as [c|] eqn:Hc.
    + intros H. apply bind_inv in H as (g & s1 & H1 & H). injection H as <- <-.
      destruct (children_walk _ _ Hc) as (child & Hchild & Hwalk).
      simpl. rewrite app_nil_r.
      eapply entriesFrom_child; [exact Hchild|].
      apply (Hwalk _ _ _ Ht H1).
    + intros [= <- <-]. apply entriesFrom_refl. exact Ht.
  - intros H. apply bind_inv in H as (kids & s1 & H1 & H).
    apply bind_inv in H as (id & s2 & H2 & H). injection H as <- <-.
    unfold fresh in H2. injection H2 as <- <-.
    pose proof (buildShapes_walks parts IH _ _ _ Ht H1) as E1.
    simpl. rewrite app_nil_r.
    eapply entriesFrom_incl; [intros g Hin; right; exact Hin|].
    rewrite <- (app_nil_r (flat_map nodesOf kids)).
    eapply entriesFrom_trans; [exact E1|].
    destruct E1 as ((Hback & Hlast) & _ & _).
    split; [|split; [simpl; lia|]].
    + split; [exact Hback|]. intros g q Hq.
      destruct (Hlast _ _ Hq) as [Hlt Hex]. split; [simpl; lia|exact Hex].
    + intros g q Hq. simpl in Hq. destruct (Hlast _ _ Hq) as [Hlt _].
      apply Nat.ltb_lt in Hlt. rewrite Hlt. exact Hq.
Qed.

End Fields.

Lemma convertNode_open_eq path kind pos end_ real children :
  Open.convertNode h env ctx text path (NNode kind pos end_ real children) =
  match builders env kind, Extra.errorOnUnknownASTType ctx with
  | None, true => throw (UnsupportedNodeKind kind)
  | builder, _ =>
      let range := if Extra.range ctx then Some (pos, end_) else None in
      let loc :=
        if Extra.loc ctx
        then Some {| loc_start := offsetToLineColumn text pos;
                     loc_end := offsetToLineColumn text end_ |}
        else None in
      let shape :=
        match builder with
        | Some _ => default (Open.everyChild children) (Open.fields h kind)
        | None => Open.everyChild children
        end in
      bind (Open.buildShapes range loc
              (eachChild env ctx h text path O children) shape) (fun kids =>
      bind fresh (fun id =>
        let node :=
          match builder with
          | Some type => GNode id type range loc None kids
          | None => GNode id kind range loc (Some kind) kids
          end in
        bind (when real (register id path)) (fun _ => ret node)))
  end.
Proof. reflexivity. Qed.

Lemma node_registered real path id (s : ConvState) :
  id = cs_next s ->
  snd (when real (register id path)
         {| cs_next := S (cs_next s); cs_registry := cs_registry s |}) =
  afterNode real path s.
Proof. intros ->. destruct real; reflexivity. Qed.

Lemma convertNode_walks n : forall path, walks env ctx path n
                                        (Open.convertNode h env ctx text path n).
Proof.
  induction n as [kind pos end_ real children IH] using Native_ind'.
  intros path s g s' Ht. rewrite convertNode_open_eq.
  set (range := if Extra.range ctx then Some (pos, end_) else None).
  set (loc := if Extra.loc ctx
              then Some {| loc_start := offsetToLineColumn text pos;
                           loc_end := offsetToLineColumn text end_ |}
              else None).
  assert (Hchildren :
    forall i c, eachChild env ctx h text path 0 children !! i = Some c ->
      exists child,
        nativeChildren (NNode kind pos end_ real children) !! i = Some child /\
        walks env ctx (path ++ [i]) child c).
  { intros i c Hc. apply eachChild_lookup in Hc as (child & Hchild & ->).
    exists child. split; [exact Hchild|]. simpl.
    rewrite Forall_forall in IH. apply IH.
    apply list_elem_of_lookup_2 with i. exact Hchild. }
  assert (Hrun : forall builder shape,
    bind (Open.buildShapes range loc
            (eachChild env ctx h text path 0 children) shape) (fun kids =>
    bind fresh (fun id =>
      let node :=
        match builder with
        | Some type => GNode id type range loc None kids
        | None => GNode id kind range loc (Some kind) kids
        end in
      bind (when real (register id path)) (fun _ => ret node))) s = (Ok g, s') ->
    builders env kind = builder ->
    entriesFrom env ctx path (NNode kind pos end_ real children) (nodesOf g) s s').
  { intros builder shape H Hb.
    apply bind_inv in H as (kids & s1 & H1 & H).
    apply bind_inv in H as (id & s2 & H2 & H).
    unfold fresh in H2. injection H2 as <- <-.
    cbv zeta in H.
    apply bind_inv in H as ([] & s3 & H3 & H). injection H as <- <-.
    assert (Hs3 : s3 = afterNode real path s1).
    { rewrite <- (node_registered real path (cs_next s1) s1 eq_refl), H3.
      reflexivity. }
    subst s3.
    assert (Hwalk : walksAll env ctx path (NNode kind pos end_ real children)
                      (Open.buildShapes range loc
                         (eachChild env ctx h text path 0 children) shape)).
    { apply (buildShapes_walks range loc path).
      apply Forall_forall. intros sh _.
      apply (buildShape_walks range loc path _ _ Hchildren). }
    pose proof (Hwalk _ _ _ Ht H1) as E1.
    set (node := match builder with
                 | Some type => GNode (cs_next s1) type range loc None kids
                 | None => GNode (cs_next s1) kind range loc (Some kind) kids
                 end).
    assert (Hid : genericId node = cs_next s1)
      by (unfold node; destruct builder; reflexivity).
    assert (Hbuilt : builtFrom env ctx (NNode kind pos end_ real children) node).
    { unfold builtFrom, node. rewrite Hb. destruct builder; simpl; auto. }
    pose proof (entriesFrom_afterNode path kind pos end_ real children node s1
                  (proj1 E1) Hid Hbuilt) as E2.
    eapply entriesFrom_incl;
      [|exact (entriesFrom_trans _ _ _ _ _ _ _ E1 E2)].
    intros g0 Hin. apply in_app_iff in Hin as [Hin|[<-|[]]].
    - unfold node. destruct builder; simpl; right; exact Hin.
    - unfold node. destruct builder; simpl; left; reflexivity. }
  destruct (builders env kind) as [type|] eqn:Hb.
  - destruct (Extra.errorOnUnknownASTType ctx); intros H;
      apply (Hrun (Some type) _ H eq_refl).
  - destruct (Extra.errorOnUnknownASTType ctx); [discriminate|].
    intros H. apply (Hrun None _ H eq_refl).
Qed.

End Walk.

(** ** The conversion when every child is converted once *)

Section OneToOne.

Variables (h : Open.Host) (env : Env) (ctx : Extra.t) (text : string).

Lemma buildShapes_everyChild range loc (comps pre : list (SE ConvState Generic)) s :
  Open.buildShapes range loc (pre ++ comps)
    (map Open.Child (seq (length pre) (length comps))) s =
  runAll comps s.
Proof.
  revert pre s. induction comps as [|c cs IH]; intros pre s; [reflexivity|].
  cbn [length seq map Open.buildShapes runAll].
  unfold bind at 1. cbn [Open.buildShape].
  rewrite (list_lookup_middle pre cs c (length pre) eq_refl).
  unfold bind at 1 3.
  destruct (c s) as [[g|e] s1]; [|reflexivity].
  cbn [ret]. unfold bind at 1 2.
  specialize (IH (pre ++ [c]) s1).
  rewrite <- app_assoc in IH. cbn [app] in IH.
  rewrite length_app in IH. cbn [length] in IH.
  rewrite Nat.add_1_r in IH. rewrite IH.
  destruct (runAll cs s1) as [[gs|e] s2]; reflexivity.
Qed.

Lemma eachChild_cons path i c cs :
  eachChild env ctx h text path i (c :: cs) =
  Open.convertNode h env ctx text (path ++ [i]) c ::
  eachChild env ctx h text path (S i) cs.
Proof. reflexivity. Qed.

Lemma runAll_eachChild path cs :
  Forall (fun c => forall path s,
            Open.convertNode h env ctx text path c s =
            convertNode env ctx text path c s) cs ->
  forall i s,
    runAll (eachChild env ctx h text path i cs) s =
    convertChildren env ctx text path i cs s.
Proof.
  induction 1 as [|c cs Hc _ IH]; intros i s; [reflexivity|].
  rewrite convertChildren_cons, eachChild_cons. cbn [runAll].
  unfold bind at 1 3. rewrite Hc.
  destruct (convertNode env ctx text (path ++ [i]) c s) as [[g|e] s1];
    [|reflexivity].
  unfold bind at 1 2. rewrite IH.
  destruct (convertChildren env ctx text path (S i) cs s1) as [[gs|e] s2];
    reflexivity.
Qed.

Hypothesis one_to_one : oneToOne h.

Lemma convertNode_one_to_one n :
  forall path s,
    Open.convertNode h env ctx text path n s = convertNode env ctx text path n s.
Proof.
  induction n as [kind pos end_ real children IH] using Native_ind'.
  intros path s. rewrite convertNode_open_eq, convertNode_eq.
  rewrite (one_to_one kind). cbn [default from_option id].
  assert (Hkids : forall range loc s0,
    Open.buildShapes range loc (eachChild env ctx h text path 0 children)
      (Open.everyChild children) s0 =
    convertChildren env ctx text path 0 children s0).
  { intros range loc s0. unfold Open.everyChild.
    pose proof (buildShapes_everyChild range loc
                  (eachChild env ctx h text path 0 children) [] s0) as E.
    cbn [app length] in E.
    replace (length (eachChild env ctx h text path 0 children))
      with (length children) in E.
    - rewrite E. apply runAll_eachChild. exact IH.
    - clear. generalize 0%nat. induction children as [|c cs IHcs]; intros i;
        [reflexivity|]. simpl. rewrite <- IHcs. reflexivity. }
  destruct (builders env kind) as [type|];
    destruct (Extra.errorOnUnknownASTType ctx); try reflexivity;
    cbv zeta; unfold bind at 1 4; rewrite Hkids; reflexivity.
Qed.

End OneToOne.

Lemma convert_one_to_one h env ast ctx s :
  oneToOne h ->
  Open.convert h env ast ctx s = lifted (convert env ast ctx) s.
Proof.
  intros one_to_one. rewrite convert_open_eq. unfold lifted.
  destruct ast as [root|].
  - rewrite convert_eq. unfold convertFrom. cbv zeta.
    rewrite (convertNode_one_to_one h env ctx (sourceText ctx) one_to_one).
    reflexivity.
  - destruct s; reflexivity.
Qed.

(** ** The node maps of a conversion and of a call *)

Lemma convertNode_root h env ctx text path n s g s' :
  Open.convertNode h env ctx text path n s = (Ok g, s') ->
  nativeReal n = true ->
  genericToNative (cs_registry s') (genericId g) = Some path /\
  nativeToGeneric (cs_registry s') path = Some (genericId g).
Proof.
  destruct n as [kind pos end_ real children]. rewrite convertNode_open_eq.
  cbn [nativeReal]. intros H ->.
  assert (Hrun : forall builder shape range loc,
    bind (Open.buildShapes range loc
            (eachChild env ctx h text path 0 children) shape) (fun kids =>
    bind fresh (fun id =>
      let node :=
        match builder with
        | Some type => GNode id type range loc None kids
        | None => GNode id kind range loc (Some kind) kids
        end in
      bind (when true (register id path)) (fun _ => ret node))) s = (Ok g, s') ->
    genericToNative (cs_registry s') (genericId g) = Some path /\
    nativeToGeneric (cs_registry s') path = Some (genericId g)).
  { clear H. intros builder shape range loc H.
    apply bind_inv in H as (kids & s1 & _ & H).
    apply bind_inv in H as (id & s2 & H2 & H).
    unfold fresh in H2. injection H2 as <- <-. cbv zeta in H.
    apply bind_inv in H as ([] & s3 & H3 & H). injection H as <- <-.
    cbn in H3. injection H3 as <-.
    unfold genericToNative, nativeToGeneric, registerPair. cbn.
    assert (Hid : genericId (match builder with
                             | Some type => GNode (cs_next s1) type range loc None kids
                             | None => GNode (cs_next s1) kind range loc (Some kind) kids
                             end) = cs_next s1)
      by (destruct builder; reflexivity).
    rewrite Hid, !lookup_insert_eq. auto. }
  destruct (builders env kind) as [type|] eqn:Hb.
  - destruct (Extra.errorOnUnknownASTType ctx); cbv zeta in H;
      exact (Hrun (Some type) _ _ _ H).
  - destruct (Extra.errorOnUnknownASTType ctx); [discriminate|].
    cbv zeta in H. exact (Hrun None _ _ _ H).
Qed.

(** The maps of a conversion that returns, whatever the builders are. *)
Lemma convert_open_registry h env ctx root s converted :
  fst (Open.convert h env (Some root) ctx s) = Ok converted ->
  nodeMapsOf env ctx root (es_root (cr_estree converted))
    (genericToNativeMap (cr_astMaps converted))
    (nativeToGenericMap (cr_astMaps converted)).
Proof.
  rewrite convert_open_eq. cbv zeta. cbn [fst].
  set (s0 := {| cs_next := nextNodeId (Open.base s); cs_registry := emptyRegistry |}).
  destruct (Open.convertNode h env ctx (sourceText ctx) [] root s0)
    as [[g|e] sc] eqn:Hc; [|discriminate].
  cbn [fst snd]. intros [= <-]. cbn [conversionOf cr_estree es_root cr_astMaps].
  destruct (convertNode_walks h env ctx (sourceText ctx) root [] s0 g sc
              (tracked_empty _) Hc) as ((Hback & Hlast) & _ & Hentries).
  split; [exact Hback|]. split.
  - intros g0 q Hg.
    change (genericToNative (cs_registry sc) g0 = Some q) in Hg.
    pose proof (Hentries g0 q Hg) as He.
    destruct (g0 <? cs_next s0)%nat.
    { unfold genericToNative in He. cbn in He. rewrite lookup_empty in He.
      discriminate. }
    destruct He as (p & n' & g' & -> & Hn & Hreal & Hin & Hid & Hbuilt).
    cbn [app] in *.
    destruct (Hlast g0 p Hg) as (_ & last & Hl & Hle).
    split; [exists n', g'; auto|]. split; [exists last; auto|].
    intros Honly. rewrite <- (Honly last (Hback _ _ Hl)). exact Hl.
  - intros Hreal. exact (convertNode_root _ _ _ _ _ _ _ _ _ Hc Hreal).
Qed.

(** The maps of a conversion whose builders convert every child once. *)
Lemma convert_open_in_place h env ctx root s converted :
  oneToOne h ->
  fst (Open.convert h env (Some root) ctx s) = Ok converted ->
  nodeMapsInPlace root (es_root (cr_estree converted))
    (genericToNativeMap (cr_astMaps converted))
    (nativeToGenericMap (cr_astMaps converted)).
Proof.
  intros Hone. rewrite (convert_one_to_one h env (Some root) ctx s Hone).
  unfold lifted. cbn [fst]. intros Hconv.
  destruct (convert_registry env ctx root (Open.base s) converted Hconv)
    as (Hinv & _ & Hcover).
  split; [exact Hinv|].
  intros p. specialize (Hcover p).
  destruct (nativeAt root p) as [n'|].
  - destruct Hcover as (g' & -> & _ & Hreg).
    destruct (nativeReal n'); [|exact Hreg].
    split; [exact Hreg|]. apply Hinv. exact Hreg.
  - rewrite Hcover. exact I.
Qed.

Lemma findRelevantProgram_found programs FILENAME w relevantProgram root w' :
  findRelevantProgram programs FILENAME w = (Ok (relevantProgram, Some root), w') ->
  exists p, relevantProgram = Some p /\ getSourceFile p FILENAME = Some root.
Proof.
  revert w. induction programs as [|next rest IH]; intros w; simpl.
  - discriminate.
  - intros H. apply bind_inv in H as (p & w1 & _ & H).
    apply bind_inv in H as (ast & w2 & Hask & H).
    unfold askSourceFile in Hask.
    apply bind_inv in Hask as ([] & w3 & _ & Hask). injection Hask as <- <-.
    destruct (getSourceFile p FILENAME) as [sf|] eqn:Hsf.
    + injection H as <- <- <-. exists p. auto.
    + exact (IH _ H).
Qed.

(** A call that returns has converted the source file of the program that
    it chose, in the context that it leaves in [extra], and returns that
    conversion. *)
Lemma parse_open_converted h env code options s r :
  fst (Open.parse h env code options s) = Ok r ->
  exists should p fileName root sc converted,
    getSourceFile p fileName = Some root /\
    fst (Open.convert h env (Some root)
           (extra (Open.base (snd (Open.parse h env code options s)))) sc) =
      Ok converted /\
    r = toParseResult (resultOf should (Some p) converted).
Proof.
  rewrite parse_open, wrapped_eq. cbn [fst snd].
  destruct (fst (Open.generateAST h env code options s)) as [gr|e] eqn:H;
    [|discriminate].
  intros [= <-]. revert H. rewrite generateAST_open. intros H.
  destruct (bind_inv_ok _ _ _ _ H) as (code' & s1 & _ & E). rewrite E in *. clear E.
  destruct (bind_inv_ok _ _ _ _ H) as ([] & s2 & _ & E). rewrite E in *. clear E.
  destruct (bind_inv_ok _ _ _ _ H) as ([] & s3 & _ & E). rewrite E in *. clear E.
  rewrite restOfCall_eq in *.
  destruct (bind_inv_ok _ _ _ _ H) as (ex & s4 & _ & E). rewrite E in *. clear E.
  cbv zeta in *.
  set (should := (0 <? length (Extra.project ex))%nat) in *.
  destruct (bind_inv_ok _ _ _ _ H) as (found & s5 & Hfound & E).
  rewrite E in *. clear E.
  destruct (bind_inv_ok _ _ _ _ H) as ([rp ast] & s6 & Hfound' & E).
  rewrite E in *. clear E.
  rewrite finishOpen_eq in *. cbn [fst snd] in *.
  rewrite (proj1 (convert_open_frame h env ast _ _)).
  destruct (fst (Open.convert h env ast _ _)) as [converted|e] eqn:Hconv;
    [|discriminate].
  injection H as <-.
  destruct ast as [root|].
  2:{ rewrite convert_open_eq in Hconv. discriminate. }
  assert (Hp : exists p fileName,
             rp = Some p /\ getSourceFile p fileName = Some root).
  { rewrite onBase_eq in Hfound'.
    destruct found as [rp0 [ast0|]]; cbn [snd] in Hfound'.
    - injection Hfound' as <- <- _.
      rewrite onBase_eq in Hfound. destruct should.
      + injection Hfound as Hf _.
        destruct (bind (lift (getProp options "filePath")) _ (Open.base s4))
          as [rf wf] eqn:Hrun. cbn [fst] in Hf. subst rf.
        apply bind_inv in Hrun as (FILENAME & w1 & _ & Hrun).
        destruct (findRelevantProgram_found _ _ _ _ _ _ Hrun) as (p & -> & Hsf).
        exists p, FILENAME. auto.
      + discriminate.
    - rewrite isolatedProgram_eq in Hfound'. cbn [fst] in Hfound'.
      injection Hfound' as Hrp Hast _. subst rp.
      exists (isolatedOf env code' ex), (VStr (isolatedFileName ex)).
      split; [reflexivity|exact Hast]. }
  destruct Hp as (p & fileName & -> & Hsf).
  exists should, p, fileName, root, (withCodeOpen code' s6), converted.
  split; [exact Hsf|]. split; [exact Hconv|reflexivity].
Qed.




(** ** The closed part as a case of the open one *)

Lemma lifts_onBase {A} (c : M A) : lifts c (Open.onBase c).
Proof. intros s. apply onBase_eq. Qed.

Lemma lifts_ret {A} (a : A) : lifts (ret a) (ret a).
Proof. intros [w o]. reflexivity. Qed.

Lemma lifts_gets_extra : lifts (gets extra) (gets (fun s => extra (Open.base s))).
Proof. intros [w o]. reflexivity. Qed.

Lemma lifts_bind {A B} (c : M A) (o : Open.OM A) (k : A -> M B)
    (ko : A -> Open.OM B) :
  lifts c o -> (forall a, lifts (k a) (ko a)) -> lifts (bind c k) (bind o ko).
Proof.
  intros Hc Hk s. unfold bind at 1. rewrite Hc. unfold lifted at 1.
  unfold lifted. unfold bind.
  destruct (c (Open.base s)) as [[a|e] w]; cbn [fst snd]; [|reflexivity].
  rewrite Hk. unfold lifted. reflexivity.
Qed.

Lemma lifts_convert h env ast ctx :
  oneToOne h -> lifts (convert env ast ctx) (Open.convert h env ast ctx).
Proof. intros Hone s. apply convert_one_to_one. exact Hone. Qed.

Lemma lifts_restOfCall h env code options :
  oneToOne h ->
  lifts (afterContext env code options) (restOfCall h env code options).
Proof.
  intros Hone. unfold afterContext, restOfCall.
  apply lifts_bind; [apply lifts_gets_extra|]. intros ex. cbv zeta.
  apply lifts_bind; [apply lifts_onBase|]. intros found.
  apply lifts_bind; [apply lifts_onBase|]. intros [relevantProgram ast].
  apply lifts_bind; [apply lifts_onBase|]. intros _.
  apply lifts_bind; [apply lifts_gets_extra|]. intros ex'.
  apply lifts_bind; [apply lifts_convert; exact Hone|]. intros converted.
  apply lifts_ret.
Qed.

(** The warning step when the logger, if a function of the caller, returns
    and leaves the module alone. *)
Lemma warnAboutTSVersion_lifts h env :
  returnsQuietly h ->
  lifts (warnAboutTSVersion env) (Open.warnAboutTSVersion h env).
Proof.
  intros Hquiet s. rewrite warnAboutTSVersion_open.
  unfold lifted, warnAboutTSVersion, warningDue, bind, gets, when.
  destruct (negb (isRunningSupportedTypeScriptVersion env)
            && negb (warnedAboutTSVersion (Open.base s)));
    [|destruct s; reflexivity].
  fold (versionWarning env).
  destruct (Extra.log (extra (Open.base s))) as [|src|]; try reflexivity.
  destruct (Hquiet src Open.ThisExtra [VStr (versionWarning env)]
              (noted (EvLog (LoggerFn src) (versionWarning env)) s)) as [v ->].
  reflexivity.
Qed.

(** X14: the first part of this file is the case of this one in which no
    code of the caller changes anything.  When every builder converts every
    child once, the functions of the caller return and leave the module
    alone, and the string conversions of the code and of [options.source]
    run no code of the caller, a call returns or throws what the call of
    the first part does and leaves the module-level variables as that call
    does; [extra] holds a new object. *)
Theorem parse_as_the_closed_call
    (h : Open.Host) (env : Env) (code options : value) (s : Open.State) :
  oneToOne h ->
  returnsQuietly h ->
  plain code = true ->
  plainSource options = true ->
  Open.parse h env code options s =
  (fst (parse env code options (Open.base s)),
   {| Open.base := snd (parse env code options (Open.base s));
      Open.extraObject := S (Open.extraObject s) |}).
Proof.
  intros Hone Hquiet Hcode Hsrc.
  destruct (isNull options) eqn:Hnull.
  { destruct options; try discriminate.
    rewrite parse_open, wrapped_eq, generateAST_null_open by assumption.
    rewrite parse_eq, generateAST_null. reflexivity. }
  rewrite parse_after_context by assumption.
  rewrite parse_eq, generateAST_unfold by assumption.
  rewrite contextOf_optionsUpdate, optionsUpdate_closed.
  rewrite (warnAboutTSVersion_lifts h env Hquiet). unfold lifted.
  cbn [Open.base built Open.extraObject].
  rewrite warnAboutTSVersion_ok. cbn [fst snd].
  rewrite wrapped_eq, (lifts_restOfCall h env _ options Hone).
  unfold lifted. cbn [fst snd Open.base Open.extraObject]. reflexivity.
Qed.

Lemma parse_as_the_closed_call_witness :
  let options := VObj [("range", VBool true); ("loggerFn", VFun "report")] in
  Open.parse quietHost unsupportedEnv (VNum 7) options state0 =
  (fst (parse unsupportedEnv (VNum 7) options (Open.base state0)),
   {| Open.base := snd (parse unsupportedEnv (VNum 7) options (Open.base state0));
      Open.extraObject := S (Open.extraObject state0) |}).
Proof.
  intros options.
  apply (parse_as_the_closed_call quietHost unsupportedEnv (VNum 7) options state0).
  - intros kind. reflexivity.
  - intros src this args s. exists VUndefined. reflexivity.
  - reflexivity.
  - reflexivity.
Defined.
